(** * WebMonitor: a shallow embedding of [src/index.js]

    The development follows the source file top to bottom:

    - [JS]       the ECMAScript and DOM built-ins the class calls
                 (strings as UTF-16 code units, [encodeURIComponent],
                 number-to-string, HTML text serialisation);
    - [Regex]    the regular-expression literals of [_isValidUrl] and
                 [navigate], with a derivative matcher and its language;
    - [Headers]  the handler registered by [WebMonitor.setupMain], over a
                 heap of header objects;
    - [Shell]    the [WebMonitor] instance: tab records and arrays live in
                 an object store, the DOM elements the class reads and
                 writes are a record, and every method is a state
                 transformer;
    - [Patterns] what the two patterns accept, character by character;
    - [Wiring]   the listeners of [_bindEvents] and of the tab strip,
                 [parseInt], and the history methods;
    - [Consistency], [Sessions]
                 the consistency of tabs, webviews and strip, and
                 arbitrary sequences of calls and events.

    Numbers are modelled as exact integers: [tabCounter] only ever counts
    calls of [newTab], and IEEE doubles are exact on integers far beyond
    any number of calls a run can make. *)

From stdpp Require Import gmap list fin_maps strings sorting.
From Stdlib Require Import NArith ZArith Lia DecimalPos.

Local Open Scope Z_scope.

(* ===================================================================== *)
(** * Built-ins                                                           *)
(* ===================================================================== *)

Module JS.

(** A JavaScript string is a sequence of 16-bit code units. *)
Definition jstring := list N.

(** ASCII literals of the source. *)
Definition lit (s : string) : jstring :=
  map Ascii.N_of_ascii (String.list_ascii_of_string s).

(** The double-quote character, U+0022. *)
Definition dq : jstring := [34%N].

Definition in_range (lo hi c : N) : bool := ((lo <=? c) && (c <=? hi))%N.

(** [String(n)] for an integer [n]. *)
Fixpoint digits_of_uint (d : Decimal.uint) : jstring :=
  match d with
  | Decimal.Nil => []
  | Decimal.D0 d' => 48%N :: digits_of_uint d'
  | Decimal.D1 d' => 49%N :: digits_of_uint d'
  | Decimal.D2 d' => 50%N :: digits_of_uint d'
  | Decimal.D3 d' => 51%N :: digits_of_uint d'
  | Decimal.D4 d' => 52%N :: digits_of_uint d'
  | Decimal.D5 d' => 53%N :: digits_of_uint d'
  | Decimal.D6 d' => 54%N :: digits_of_uint d'
  | Decimal.D7 d' => 55%N :: digits_of_uint d'
  | Decimal.D8 d' => 56%N :: digits_of_uint d'
  | Decimal.D9 d' => 57%N :: digits_of_uint d'
  end.

Definition digits_of_N (n : N) : jstring := digits_of_uint (N.to_uint n).

Definition string_of_Z (z : Z) : jstring :=
  match z with
  | Z0 => lit "0"
  | Zpos p => digits_of_N (Npos p)
  | Zneg p => lit "-" ++ digits_of_N (Npos p)
  end.

(** ** [encodeURIComponent]  (ECMA-262, Encode with the empty extra set) *)

Inductive exn :=
| URIError                    (* thrown by the encoder: URI malformed *)
| TypeError                   (* a method call on null *)
| Error (message : string).   (* throw new Error(message) *)

(** uriUnescaped: letters, digits and the marks [- _ . ! ~ * ' ( )]. *)
Definition uriUnescaped (c : N) : bool :=
  in_range 65 90 c || in_range 97 122 c || in_range 48 57 c
  || bool_decide (c ∈ [45; 95; 46; 33; 126; 42; 39; 40; 41]%N).

Definition is_lead_surrogate (c : N) : bool := in_range 0xD800 0xDBFF c.
Definition is_trail_surrogate (c : N) : bool := in_range 0xDC00 0xDFFF c.

(** UTF16SurrogatePairToCodePoint *)
Definition code_point (lead trail : N) : N :=
  ((lead - 0xD800) * 0x400 + (trail - 0xDC00) + 0x10000)%N.

(** The UTF-8 octets of a code point. *)
Definition utf8 (cp : N) : list N :=
  (if cp <? 0x80 then [cp]
   else if cp <? 0x800 then
     [N.lor 0xC0 (N.shiftr cp 6); N.lor 0x80 (N.land cp 0x3F)]
   else if cp <? 0x10000 then
     [N.lor 0xE0 (N.shiftr cp 12);
      N.lor 0x80 (N.land (N.shiftr cp 6) 0x3F);
      N.lor 0x80 (N.land cp 0x3F)]
   else
     [N.lor 0xF0 (N.shiftr cp 18);
      N.lor 0x80 (N.land (N.shiftr cp 12) 0x3F);
      N.lor 0x80 (N.land (N.shiftr cp 6) 0x3F);
      N.lor 0x80 (N.land cp 0x3F)])%N.

Definition hex_digit (d : N) : N :=
  (if d <? 10 then 48 + d else 55 + d)%N.

(** One octet as [%XX], upper-case hexadecimal. *)
Definition percent (octet : N) : jstring :=
  [37; hex_digit (octet / 16); hex_digit (octet mod 16)]%N.

Definition percent_encode (cp : N) : jstring := flat_map percent (utf8 cp).

(** [None] is the URIError thrown at an unpaired surrogate. *)
Fixpoint encodeURIComponent (s : jstring) : option jstring :=
  match s with
  | [] => Some []
  | c :: rest =>
    if uriUnescaped c then cons c <$> encodeURIComponent rest
    else if is_lead_surrogate c then
      match rest with
      | d :: rest' =>
        if is_trail_surrogate d
        then app (percent_encode (code_point c d)) <$> encodeURIComponent rest'
        else None
      | [] => None
      end
    else if is_trail_surrogate c then None
    else app (percent_encode c) <$> encodeURIComponent rest
  end.

(** A string every surrogate of which is paired. *)
Fixpoint well_formed (s : jstring) : bool :=
  match s with
  | [] => true
  | c :: rest =>
    if is_lead_surrogate c then
      match rest with
      | d :: rest' => is_trail_surrogate d && well_formed rest'
      | [] => false
      end
    else negb (is_trail_surrogate c) && well_formed rest
  end.

(** ** HTML fragment serialisation of a text node

    [_escapeHtml] assigns [textContent] of a fresh [div] and reads back
    [innerHTML]; the serialisation algorithm escapes text data (outside
    attribute mode) as follows. *)
Definition escape_unit (c : N) : jstring :=
  if (c =? 38)%N then lit "&amp;"
  else if (c =? 160)%N then lit "&nbsp;"
  else if (c =? 60)%N then lit "&lt;"
  else if (c =? 62)%N then lit "&gt;"
  else [c].

Definition serialize_text (data : jstring) : jstring := flat_map escape_unit data.

End JS.

(* ===================================================================== *)
(** * Regular expressions                                                 *)
(* ===================================================================== *)

Module Regex.
Import JS.

(** The fragment of the pattern language the source uses: character
    classes given by ranges, concatenation, alternation, iteration. *)
Inductive re :=
| Void
| Eps
| Class (negated : bool) (ranges : list (N * N))
| Cat (r1 r2 : re)
| Alt (r1 r2 : re)
| Star (r : re).

Definition class_mem (negated : bool) (ranges : list (N * N)) (c : N) : bool :=
  xorb negated (existsb (fun '(lo, hi) => in_range lo hi c) ranges).

Definition chr (c : N) : re := Class false [(c, c)].

Fixpoint str (s : jstring) : re :=
  match s with
  | [] => Eps
  | c :: s' => Cat (chr c) (str s')
  end.

Definition opt (r : re) : re := Alt r Eps.
Definition plus (r : re) : re := Cat r (Star r).
(** [r{2,}] *)
Definition at_least_two (r : re) : re := Cat r (Cat r (Star r)).

(** [.] without the [s] flag: anything but a line terminator. *)
Definition dot : re := Class true [(10, 10); (13, 13); (0x2028, 0x2029)]%N.
(** [\d] *)
Definition digit : re := Class false [(48, 57)]%N.

Fixpoint nullable (r : re) : bool :=
  match r with
  | Void => false
  | Eps => true
  | Class _ _ => false
  | Cat r1 r2 => nullable r1 && nullable r2
  | Alt r1 r2 => nullable r1 || nullable r2
  | Star _ => true
  end.

(** Constructors that drop an empty language as soon as it appears, so
    that derivatives stay small. *)
Definition cat (r1 r2 : re) : re :=
  match r1, r2 with
  | Void, _ => Void
  | _, Void => Void
  | Eps, _ => r2
  | _, _ => Cat r1 r2
  end.

Definition alt (r1 r2 : re) : re :=
  match r1, r2 with
  | Void, _ => r2
  | _, Void => r1
  | _, _ => Alt r1 r2
  end.

Fixpoint deriv (c : N) (r : re) : re :=
  match r with
  | Void => Void
  | Eps => Void
  | Class neg rs => if class_mem neg rs c then Eps else Void
  | Cat r1 r2 =>
    if nullable r1 then alt (cat (deriv c r1) r2) (deriv c r2)
    else cat (deriv c r1) r2
  | Alt r1 r2 => alt (deriv c r1) (deriv c r2)
  | Star r1 => cat (deriv c r1) (Star r1)
  end.

(** [/^r$/.test(s)] *)
Fixpoint matches (r : re) (s : jstring) : bool :=
  match s with
  | [] => nullable r
  | c :: s' => matches (deriv c r) s'
  end.

(** [/^r/.test(s)]: some prefix of [s] is in the language. *)
Fixpoint matches_prefix (r : re) (s : jstring) : bool :=
  nullable r ||
  match s with
  | [] => false
  | c :: s' => matches_prefix (deriv c r) s'
  end.

(** The language of a pattern. *)
Inductive lang : re -> jstring -> Prop :=
| lang_eps : lang Eps []
| lang_class neg rs c : class_mem neg rs c = true -> lang (Class neg rs) [c]
| lang_cat r1 r2 s1 s2 : lang r1 s1 -> lang r2 s2 -> lang (Cat r1 r2) (s1 ++ s2)
| lang_alt_l r1 r2 s : lang r1 s -> lang (Alt r1 r2) s
| lang_alt_r r1 r2 s : lang r2 s -> lang (Alt r1 r2) s
| lang_star_nil r : lang (Star r) []
| lang_star_cons r s1 s2 : lang r s1 -> lang (Star r) s2 -> lang (Star r) (s1 ++ s2).

(** ** The literals of the source *)

(** [(https?:\/\/)] *)
Definition scheme : re := Cat (str (lit "http")) (Cat (opt (chr 115)) (str (lit "://"))).

(** The optional path group: a slash, then any run of [.] *)
Definition path : re := opt (Cat (chr 47) (Star dot)).

(** [urlPattern], line 155: optional scheme, one or more labels
    [[a-zA-Z0-9-]+\.], a top-level domain [[a-zA-Z]{2,}], optional path,
    anchored at both ends. *)
Definition urlPattern : re :=
  Cat (opt scheme)
   (Cat (plus (Cat (plus (Class false [(97, 122); (65, 90); (48, 57); (45, 45)]%N)) (chr 46)))
    (Cat (at_least_two (Class false [(97, 122); (65, 90)]%N))
     path)).

(** [localhostPattern], line 156: optional scheme, [localhost|127\.0\.0\.1],
    optional port [:\d+], optional path, anchored at both ends. *)
Definition localhostPattern : re :=
  Cat (opt scheme)
   (Cat (Alt (str (lit "localhost")) (str (lit "127.0.0.1")))
    (Cat (opt (Cat (chr 58) (plus digit)))
     path)).

(** [/^https?:\/\//] *)
Definition schemePattern : re := scheme.

End Regex.

(* ===================================================================== *)
(** * The header stripper: [WebMonitor.setupMain]                         *)
(* ===================================================================== *)

Module Headers.
Import JS.

Definition ref := positive.

(** The objects the handler touches.  A header object maps a header name
    to its list of values; the details object of the host and the object
    literal handed to the continuation both carry a [responseHeaders]
    property ([None] when the property is undefined). *)
Inductive obj :=
| OHeaders (entries : gmap jstring (list jstring))
| ORecord (responseHeaders : option ref).

Definition headersToRemove : list jstring :=
  [ lit "x-frame-options";
    lit "X-Frame-Options";
    lit "content-security-policy";
    lit "Content-Security-Policy";
    lit "content-security-policy-report-only";
    lit "Content-Security-Policy-Report-Only" ].

(** [details.responseHeaders], read through the heap. *)
Definition read_responseHeaders (σ : gmap ref obj) (details : ref)
  : gmap jstring (list jstring) :=
  match σ !! details with
  | Some (ORecord (Some h)) =>
    match σ !! h with
    | Some (OHeaders entries) => entries
    | _ => ∅
    end
  | _ => ∅
  end.

(** [delete o[h]] *)
Definition delete_property (o : ref) (h : jstring) (σ : gmap ref obj) : gmap ref obj :=
  match σ !! o with
  | Some (OHeaders entries) => <[o := OHeaders (delete h entries)]> σ
  | _ => σ
  end.

(** The arrow function passed to [onHeadersReceived].  It returns the
    heap it leaves behind and the arguments of its calls of [callback],
    in order. *)
Definition handler (σ : gmap ref obj) (details : ref) : gmap ref obj * list ref :=
  (* const headers = { ...details.responseHeaders }; *)
  let headers := fresh (dom σ) in
  let σ1 := <[headers := OHeaders (read_responseHeaders σ details)]> σ in
  (* headersToRemove.forEach(h => delete headers[h]); *)
  let σ2 := foldl (fun σ h => delete_property headers h σ) σ1 headersToRemove in
  (* callback({ responseHeaders: headers }); *)
  let response := fresh (dom σ2) in
  (<[response := ORecord (Some headers)]> σ2, [response]).

(** The header set a continuation argument carries. *)
Definition headers_of (σ : gmap ref obj) (response : ref)
  : option (gmap jstring (list jstring)) :=
  match σ !! response with
  | Some (ORecord (Some h)) =>
    match σ !! h with
    | Some (OHeaders entries) => Some entries
    | _ => None
    end
  | _ => None
  end.

End Headers.

(* ===================================================================== *)
(** * The browser shell: [class WebMonitor]                               *)
(* ===================================================================== *)

Module Shell.
Import JS Regex.

Definition ref := positive.

(** ** Data *)

(** The object literal built in [newTab]. *)
Record Tab := mkTab { id : Z; url : jstring; title : jstring }.

Definition set_url (u : jstring) (t : Tab) : Tab := mkTab (id t) u (title t).
Definition set_title (s : jstring) (t : Tab) : Tab := mkTab (id t) (url t) s.

(** [style.display] of the placeholder: untouched, ['none'] or ['flex']. *)
Inductive Display := DisplayUnset | DisplayNone | DisplayFlex.

(** A [<webview>] element.  [wv_id] is the number [n] of its element id
    [wm-webview-n]; [wv_tab] is the tab object its listeners close over. *)
Record Webview := mkWebview {
  wv_id : Z;
  wv_src : option jstring;
  wv_active : bool;
  wv_tab : ref;
}.

(** The elements the class looks up by id.  [None] is a lookup that
    returns null; for [content] that is the missing [#wm-content]. *)
Record Dom := mkDom {
  urlInput : option jstring;        (* #wm-url-input, its value *)
  placeholder : option Display;     (* #wm-placeholder, its style.display *)
  content : option (list Webview);  (* #wm-content, its webview children *)
  tabsContainer : option jstring;   (* #wm-tabs-container, its innerHTML *)
  statusDot : option jstring;       (* #wm-status-dot, its className *)
  statusText : option jstring;      (* #wm-status-text, its textContent *)
}.

(** The options the modelled methods read.  A callback is either
    configured or null; its calls are recorded in [calls]. *)
Record Options := mkOptions {
  container : bool;                 (* does the container resolve? *)
  showTabs : bool;
  showStatusBar : bool;
  startUrl : jstring;
  onNavigate : bool;
  onTitleChange : bool;
  onLoadStart : bool;
  onLoadEnd : bool;
  onError : bool;
}.

Inductive Call :=
| CallNavigate (tab : ref) (url : jstring)
| CallTitleChange (tab : ref) (title : jstring)
| CallLoadStart (tab : ref)
| CallLoadEnd (tab : ref)
| CallError (tab : ref) (errorCode : Z) (errorDescription : jstring).

(** The instance, the objects it shares with its callers and listeners,
    and the document. *)
Record State := mkState {
  options : Options;
  recs : gmap ref Tab;              (* store of tab objects *)
  arrs : gmap ref (list ref);       (* store of arrays of tab objects *)
  tabs : ref;                       (* this.tabs *)
  activeTabId : option Z;           (* this.activeTabId, None is null *)
  tabCounter : Z;                   (* this.tabCounter *)
  initialized : bool;               (* this.initialized *)
  doc : Dom;                        (* the document *)
  calls : list Call;
}.

Inductive outcome (A : Type) :=
| Returned (a : A) (st : State)
| Threw (e : exn) (st : State).
Arguments Returned {A} a st.
Arguments Threw {A} e st.

Definition state_of {A} (o : outcome A) : State :=
  match o with Returned _ st => st | Threw _ st => st end.

(** ** Field updates *)

Definition with_recs (m : gmap ref Tab) (st : State) : State :=
  mkState (options st) m (arrs st) (tabs st) (activeTabId st) (tabCounter st)
          (initialized st) (doc st) (calls st).
Definition with_arrs (m : gmap ref (list ref)) (st : State) : State :=
  mkState (options st) (recs st) m (tabs st) (activeTabId st) (tabCounter st)
          (initialized st) (doc st) (calls st).
Definition with_activeTabId (a : option Z) (st : State) : State :=
  mkState (options st) (recs st) (arrs st) (tabs st) a (tabCounter st)
          (initialized st) (doc st) (calls st).
Definition with_tabCounter (n : Z) (st : State) : State :=
  mkState (options st) (recs st) (arrs st) (tabs st) (activeTabId st) n
          (initialized st) (doc st) (calls st).
Definition with_initialized (b : bool) (st : State) : State :=
  mkState (options st) (recs st) (arrs st) (tabs st) (activeTabId st) (tabCounter st)
          b (doc st) (calls st).
Definition with_doc (d : Dom) (st : State) : State :=
  mkState (options st) (recs st) (arrs st) (tabs st) (activeTabId st) (tabCounter st)
          (initialized st) d (calls st).
Definition with_calls (c : list Call) (st : State) : State :=
  mkState (options st) (recs st) (arrs st) (tabs st) (activeTabId st) (tabCounter st)
          (initialized st) (doc st) c.

Definition with_urlInput (v : option jstring) (d : Dom) : Dom :=
  mkDom v (placeholder d) (content d) (tabsContainer d) (statusDot d) (statusText d).
Definition with_placeholder (v : option Display) (d : Dom) : Dom :=
  mkDom (urlInput d) v (content d) (tabsContainer d) (statusDot d) (statusText d).
Definition with_content (v : option (list Webview)) (d : Dom) : Dom :=
  mkDom (urlInput d) (placeholder d) v (tabsContainer d) (statusDot d) (statusText d).
Definition with_tabsContainer (v : option jstring) (d : Dom) : Dom :=
  mkDom (urlInput d) (placeholder d) (content d) v (statusDot d) (statusText d).
Definition with_statusDot (v : option jstring) (d : Dom) : Dom :=
  mkDom (urlInput d) (placeholder d) (content d) (tabsContainer d) v (statusText d).
Definition with_statusText (v : option jstring) (d : Dom) : Dom :=
  mkDom (urlInput d) (placeholder d) (content d) (tabsContainer d) (statusDot d) v.

(** Assignment to a property of an element that may be null:
    [if (el) el.prop = v]. *)
Definition assign {A} (v : A) (el : option A) : option A := (fun _ => v) <$> el.

(** ** Reading the tab collection *)

(** The elements of [this.tabs]. *)
Definition tabs_list (st : State) : list ref := default [] (arrs st !! tabs st).

(** The tab objects behind them, in order. *)
Definition tab_records (st : State) : list Tab := omap (fun r => recs st !! r) (tabs_list st).

Definition tab_ids (st : State) : list Z := id <$> tab_records st.

(** [t => t.id === i] on an element of the array. *)
Definition has_id (m : gmap ref Tab) (i : Z) (r : ref) : Prop := id <$> m !! r = Some i.

Global Instance has_id_dec m i r : Decision (has_id m i r).
Proof. unfold has_id. apply _. Defined.

(** [this.tabs.findIndex(t => t.id === i)], with the element found. *)
Definition findIndex (st : State) (i : Z) : option (nat * ref) :=
  list_find (has_id (recs st) i) (tabs_list st).

(** [this.tabs.find(t => t.id === i)] *)
Definition find (st : State) (i : Z) : option ref := snd <$> findIndex st i.

(** [document.getElementById(`wm-webview-${i}`)] *)
Definition is_webview (i : Z) (w : Webview) : Prop := wv_id w = i.

Global Instance is_webview_dec i w : Decision (is_webview i w).
Proof. unfold is_webview. apply _. Defined.

Definition webviews (st : State) : list Webview := default [] (content (doc st)).

(** Apply [f] to the webview [getElementById] returns, if any. *)
Definition on_webview (i : Z) (f : Webview -> Webview) (ws : list Webview) : list Webview :=
  match list_find (is_webview i) ws with
  | Some (k, w) => <[k := f w]> ws
  | None => ws
  end.

(** [webview.remove()] on the webview [getElementById] returns, if any. *)
Definition remove_webview (i : Z) (ws : list Webview) : list Webview :=
  match list_find (is_webview i) ws with
  | Some (k, _) => delete k ws
  | None => ws
  end.

Definition set_active (b : bool) (w : Webview) : Webview :=
  mkWebview (wv_id w) (wv_src w) b (wv_tab w).
Definition set_src (u : jstring) (w : Webview) : Webview :=
  mkWebview (wv_id w) (Some u) (wv_active w) (wv_tab w).

(** ** Rendering *)

(** [_escapeHtml(text)]: a detached [div] whose text is [text],
    serialised. *)
Definition _escapeHtml (text : jstring) : jstring := serialize_text text.

Definition nl : jstring := [10%N].

(** The template literal of [_renderTabs] for one tab, cut at its third
    substitution: the text up to the title, the escaped title, the text
    after it. *)
Definition tab_open (active : option Z) (i : Z) : jstring :=
  nl ++ lit "      <div class=" ++ dq ++ lit "wm-tab "
     ++ (if bool_decide (Some i = active) then lit "active" else [])
     ++ dq ++ lit " data-tab-id=" ++ dq ++ string_of_Z i ++ dq ++ lit ">"
  ++ nl ++ lit "        <span class=" ++ dq ++ lit "wm-tab-title" ++ dq ++ lit ">".

Definition tab_close (i : Z) : jstring :=
  lit "</span>"
  ++ nl ++ lit "        <button class=" ++ dq ++ lit "wm-tab-close" ++ dq
     ++ lit " data-close-id=" ++ dq ++ string_of_Z i ++ dq ++ lit ">&times;</button>"
  ++ nl ++ lit "      </div>"
  ++ nl ++ lit "    ".

Definition tab_markup (active : option Z) (t : Tab) : jstring :=
  tab_open active (id t) ++ _escapeHtml (title t) ++ tab_close (id t).

(** [this.tabs.map(...).join('')] *)
Definition strip_markup (st : State) : jstring :=
  concat (tab_markup (activeTabId st) <$> tab_records st).

Definition _renderTabs (st : State) : State :=
  match tabsContainer (doc st) with
  | None => st
  | Some _ =>
    if negb (showTabs (options st)) then st
    else with_doc (with_tabsContainer (Some (strip_markup st)) (doc st)) st
  end.

Definition _setStatus (type text : jstring) (st : State) : State :=
  let className :=
    lit "wm-status-dot"
    ++ (if bool_decide (type = lit "loading") then lit " loading" else [])
    ++ (if bool_decide (type = lit "error") then lit " error" else []) in
  with_doc (with_statusText (assign text (statusText (doc st)))
             (with_statusDot (assign className (statusDot (doc st))) (doc st))) st.

(** ** Methods *)

Definition constructor (opts : Options) : State :=
  mkState opts ∅ {[ 1%positive := [] ]} 1%positive None 0 false
          (mkDom None None None None None None) [].

(** [tab?.url || ''] *)
Definition url_or_empty (st : State) (tab : option ref) : jstring :=
  match tab ≫= (fun r => recs st !! r) with
  | Some t => url t
  | None => []
  end.

Definition switchTab (i : Z) (st : State) : State :=
  (* this.activeTabId = id; *)
  let st := with_activeTabId (Some i) st in
  (* const tab = this.tabs.find(t => t.id === id); *)
  let tab := find st i in
  (* every webview loses the class, the one with the id gets it *)
  let ws := on_webview i (set_active true) (set_active false <$> webviews st) in
  let d := with_content ((fun _ => ws) <$> content (doc st)) (doc st) in
  (* if (urlInput) urlInput.value = tab?.url || ''; *)
  let d := with_urlInput (assign (url_or_empty st tab) (urlInput d)) d in
  (* if (placeholder) placeholder.style.display = tab?.url ? 'none' : 'flex'; *)
  let display := match url_or_empty st tab with [] => DisplayFlex | _ => DisplayNone end in
  let d := with_placeholder (assign display (placeholder d)) d in
  _renderTabs (with_doc d st).

(** The argument is the empty string when the caller passes none. *)
Definition newTab (u : jstring) (st : State) : outcome Z :=
  (* const id = ++this.tabCounter; *)
  let i := tabCounter st + 1 in
  let st := with_tabCounter i st in
  (* const tab = { id, url: url || '', title: 'New Tab' }; *)
  let tab := fresh (dom (recs st)) in
  let st := with_recs (<[tab := mkTab i u (lit "New Tab")]> (recs st)) st in
  (* this.tabs.push(tab); *)
  let st := with_arrs (<[tabs st := tabs_list st ++ [tab]]> (arrs st)) st in
  (* the new element; if (url) webview.src = url; *)
  let webview := mkWebview i (match u with [] => None | _ => Some u end) false tab in
  (* document.getElementById('wm-content').appendChild(webview); *)
  match content (doc st) with
  | None => Threw TypeError st
  | Some ws =>
    let st := with_doc (with_content (Some (ws ++ [webview])) (doc st)) st in
    (* this.switchTab(id); this._renderTabs(); return id; *)
    Returned i (_renderTabs (switchTab i st))
  end.

(** The first steps of [closeTab] once the tab is found at [index]:
    [webview.remove()] and [this.tabs.splice(index, 1)]. *)
Definition spliced (i : Z) (index : nat) (st : State) : State :=
  with_arrs (<[tabs st := delete index (tabs_list st)]> (arrs st))
    (with_doc (with_content (remove_webview i <$> content (doc st)) (doc st)) st).

Definition closeTab (i : Z) (st : State) : State :=
  (* const index = this.tabs.findIndex(t => t.id === id); if (index === -1) return; *)
  match findIndex st i with
  | None => st
  | Some (index, _) =>
    let st := spliced i index st in
    let st :=
      (* if (this.tabs.length === 0) *)
      if bool_decide (length (tabs_list st) = 0%nat) then
        let st := with_activeTabId None st in
        let d := with_urlInput (assign [] (urlInput (doc st))) (doc st) in
        let d := with_placeholder (assign DisplayFlex (placeholder d)) d in
        with_doc d st
      (* else if (this.activeTabId === id) *)
      else if bool_decide (activeTabId st = Some i) then
        (* const newIndex = Math.min(index, this.tabs.length - 1); *)
        let newIndex := Nat.min index (length (tabs_list st) - 1) in
        (* this.switchTab(this.tabs[newIndex].id); the index is in range *)
        match tabs_list st !! newIndex ≫= (fun r => recs st !! r) with
        | Some t => switchTab (id t) st
        | None => st
        end
      else st in
    _renderTabs st
  end.

Definition _isValidUrl (input : jstring) : bool :=
  matches urlPattern input || matches localhostPattern input.

Definition search_prefix : jstring := lit "https://www.google.com/search?q=".

(** Lines 167 to 171 of [navigate]: the address the input stands for. *)
Definition resolve (input : jstring) : exn + jstring :=
  if negb (_isValidUrl input) then
    match encodeURIComponent input with
    | Some q => inr (search_prefix ++ q)
    | None => inl URIError
    end
  else if negb (matches_prefix schemePattern input) then inr (lit "https://" ++ input)
  else inr input.

(** Lines 173 to 185 of [navigate]. *)
Definition load (u : jstring) (st : State) : outcome unit :=
  let hide st :=
    with_doc (with_placeholder (assign DisplayNone (placeholder (doc st))) (doc st)) st in
  match activeTabId st with
  | None =>
    (* if (this.activeTabId === null) this.newTab(url); *)
    match newTab u st with
    | Returned _ st => Returned () (hide st)
    | Threw e st => Threw e st
    end
  | Some a =>
    (* const tab = this.tabs.find(t => t.id === this.activeTabId); *)
    match find st a with
    | Some tab =>
      (* tab.url = url; if (webview) webview.src = url; *)
      let st := with_recs (alter (set_url u) tab (recs st)) st in
      let ws := on_webview a (set_src u) <$> content (doc st) in
      Returned () (hide (with_doc (with_content ws (doc st)) st))
    | None => Returned () (hide st)
    end
  end.

(** The argument is [None] for [undefined], which the Go button passes
    when the address bar is missing. *)
Definition navigate (input : option jstring) (st : State) : outcome unit :=
  match input with
  | None | Some [] => Returned () st
  | Some s =>
    match resolve s with
    | inl e => Threw e st
    | inr u => load u st
    end
  end.

Definition getCurrentUrl (st : State) : jstring :=
  match activeTabId st with
  | None => []
  | Some a => url_or_empty st (find st a)
  end.

(** [[...this.tabs]]: a new array with the same elements. *)
Definition getTabs (st : State) : ref * State :=
  let copy := fresh (dom (arrs st)) in
  (copy, with_arrs (<[copy := tabs_list st]> (arrs st)) st).

(** The markup [init] writes into the container, as the elements it
    creates. *)
Definition mounted (opts : Options) : Dom :=
  mkDom (Some []) (Some DisplayUnset) (Some [])
        (if showTabs opts then Some [] else None)
        (if showStatusBar opts then Some (lit "wm-status-dot") else None)
        (if showStatusBar opts then Some (lit "Ready") else None).

Definition init (st : State) : outcome unit :=
  if initialized st then Returned () st
  else if negb (container (options st)) then
    Threw (Error "WebMonitor: Container not found") st
  else
    let st := with_doc (mounted (options st)) st in
    match newTab (startUrl (options st)) st with
    | Returned _ st => Returned () (with_initialized true st)
    | Threw e st => Threw e st
    end.

(** ** Listeners of a webview ([_attachWebviewEvents(webview, tab)]) *)

Definition log (c : Call) (st : State) : State := with_calls (calls st ++ [c]) st.

Definition did_start_loading (tab : ref) (st : State) : State :=
  let st := _setStatus (lit "loading") (lit "Loading...") st in
  if onLoadStart (options st) then log (CallLoadStart tab) st else st.

Definition did_stop_loading (tab : ref) (st : State) : State :=
  let st := _setStatus (lit "ready") (lit "Ready") st in
  if onLoadEnd (options st) then log (CallLoadEnd tab) st else st.

Definition did_fail_load (tab : ref) (errorCode : Z) (errorDescription : jstring)
    (st : State) : State :=
  if bool_decide (errorCode ≠ -3) then
    let st := _setStatus (lit "error") (lit "Error: " ++ errorDescription) st in
    if onError (options st) then log (CallError tab errorCode errorDescription) st else st
  else st.

Definition page_title_updated (tab : ref) (t : jstring) (st : State) : State :=
  let shown := match t with [] => lit "Untitled" | _ => t end in
  let st := with_recs (alter (set_title shown) tab (recs st)) st in
  let st := _renderTabs st in
  if onTitleChange (options st) then log (CallTitleChange tab t) st else st.

Definition did_navigate (tab : ref) (u : jstring) (st : State) : State :=
  let st := with_recs (alter (set_url u) tab (recs st)) st in
  let st :=
    if bool_decide (is_Some (activeTabId st) ∧ activeTabId st = id <$> recs st !! tab)
    then with_doc (with_urlInput (assign u (urlInput (doc st))) (doc st)) st
    else st in
  if onNavigate (options st) then log (CallNavigate tab u) st else st.

(** ** What a holder of a reference can do *)

(** Any change to the structure of the array [a] (index assignment,
    push, pop, splice, ...). *)
Definition array_update (a : ref) (f : list ref -> list ref) (st : State) : State :=
  with_arrs (alter f a (arrs st)) st.

(** Any assignment to properties of the tab object [r]. *)
Definition tab_update (r : ref) (f : Tab -> Tab) (st : State) : State :=
  with_recs (alter f r (recs st)) st.

(** ** Sequences of calls *)

Inductive Op :=
| OpInit
| OpNewTab (url : jstring)
| OpCloseTab (id : Z).

(** What a sequence of calls leaves behind: the state, the ids [newTab]
    returned (oldest first), how often [newTab] ran and how many calls
    of [closeTab] found their tab. *)
Record Trace := mkTrace {
  final : State;
  returned : list Z;
  opened : nat;
  closed : nat;
}.

Definition after_newTab (o : outcome Z) (t : Trace) : Trace :=
  match o with
  | Returned i st => mkTrace st (returned t ++ [i]) (S (opened t)) (closed t)
  | Threw _ st => mkTrace st (returned t) (S (opened t)) (closed t)
  end.

Definition step (t : Trace) (op : Op) : Trace :=
  let st := final t in
  match op with
  | OpInit =>
    (* init returns or throws at once, or mounts the shell and calls
       newTab(startUrl) *)
    if initialized st || negb (container (options st)) then t
    else
      let st1 := with_doc (mounted (options st)) st in
      let t1 := after_newTab (newTab (startUrl (options st1)) st1) t in
      mkTrace (state_of (init st)) (returned t1) (opened t1) (closed t1)
  | OpNewTab u => after_newTab (newTab u st) t
  | OpCloseTab i =>
    mkTrace (closeTab i st) (returned t) (opened t)
            (match findIndex st i with Some _ => S (closed t) | None => closed t end)
  end.

Definition run (ops : list Op) (st : State) : Trace :=
  foldl step (mkTrace st [] 0 0) ops.

(** ** The invariant of the tab collection *)

Definition wf (st : State) : Prop :=
  is_Some (arrs st !! tabs st)
  ∧ Forall (fun r => is_Some (recs st !! r)) (tabs_list st)
  ∧ NoDup (tab_ids st)
  ∧ Forall (fun i => 0 < i <= tabCounter st) (tab_ids st)
  ∧ 0 <= tabCounter st.

Global Instance wf_dec st : Decision (wf st).
Proof. unfold wf. apply _. Defined.

(** What holds of a trace that started at a new instance. *)
Definition trace_inv (t : Trace) : Prop :=
  wf (final t)
  ∧ StronglySorted Z.lt (returned t)
  ∧ Forall (fun i => 0 < i <= tabCounter (final t)) (returned t)
  ∧ (length (tabs_list (final t)) + closed t = opened t)%nat
  ∧ tabCounter (final t) = Z.of_nat (opened t).

(** A trace on a mounted shell: [#wm-content] exists and every call of
    [newTab] so far has returned. *)
Definition trace_mounted (t : Trace) : Prop :=
  is_Some (content (doc (final t))) ∧ length (returned t) = opened t.

(** The tabs the strip and the toolbar treat as active. *)
Definition active_tabs (st : State) : list Tab :=
  filter (fun t => Some (id t) = activeTabId st) (tab_records st).

End Shell.

(* ===================================================================== *)
(** * Sample heaps and shells                                             *)
(* ===================================================================== *)

Module Samples.
Import JS Headers Shell.

(** A response with two of the listed headers and a caching header. *)
Definition sample_headers : gmap jstring (list jstring) :=
  <[lit "X-Frame-Options" := [lit "DENY"]]>
    (<[lit "content-security-policy" := [lit "default-src 'self'"]]>
      (<[lit "Cache-Control" := [lit "no-cache"]]> ∅)).

Definition sample_heap : gmap Headers.ref obj :=
  <[2%positive := OHeaders sample_headers]>
    (<[1%positive := ORecord (Some 2%positive)]> ∅).

(** All elements shown, all callbacks configured. *)
Definition sample_options : Options :=
  mkOptions true true true (lit "https://a.example") true true true true true.

(** A shell after [init]: one tab, showing the start address. *)
Definition shell_A : State := state_of (init (constructor sample_options)).

(** Tabs A, B, C with ids 1, 2, 3; C, opened last, is active. *)
Definition shell_ABC : State :=
  state_of (newTab (lit "https://c.example") (state_of (newTab [] shell_A))).

(** The same with B active. *)
Definition shell_ABC_at_B : State := switchTab 2 shell_ABC.

(** Open, open, close the first, open, close an id never handed out. *)
Definition sample_ops : list Op :=
  [OpInit; OpNewTab []; OpCloseTab 1; OpNewTab (lit "b.example"); OpCloseTab 7].

(** A shell whose last tab was closed: mounted, no tab, nothing active. *)
Definition shell_empty : State := closeTab 1 shell_A.

(** The page in the only tab reports the title [<b>]. *)
Definition shell_titled : State := page_title_updated 1%positive (lit "<b>") shell_A.

End Samples.

(* ===================================================================== *)
(** * Further vocabulary for the patterns                                 *)
(* ===================================================================== *)

Module Patterns.
Import JS Regex.

(** Every character class of the pattern holds only code units that
    satisfy [P]. *)
Fixpoint classes (P : N -> Prop) (r : re) : Prop :=
  match r with
  | Void | Eps => True
  | Class neg rs => ∀ c, class_mem neg rs c = true -> P c
  | Cat r1 r2 | Alt r1 r2 => classes P r1 ∧ classes P r2
  | Star r1 => classes P r1
  end.

(** Every code unit a word of the pattern can begin with satisfies [P]. *)
Fixpoint firsts (P : N -> Prop) (r : re) : Prop :=
  match r with
  | Void | Eps => True
  | Class neg rs => ∀ c, class_mem neg rs c = true -> P c
  | Cat r1 r2 => firsts P r1 ∧ (nullable r1 = true -> firsts P r2)
  | Alt r1 r2 => firsts P r1 ∧ firsts P r2
  | Star r1 => firsts P r1
  end.

(** LineTerminator: LF, CR, LS, PS. *)
Definition line_terminator (c : N) : Prop := c ∈ [10; 13; 0x2028; 0x2029]%N.

(** A letter, a digit or a hyphen. *)
Definition host_char (c : N) : bool :=
  in_range 97 122 c || in_range 65 90 c || in_range 48 57 c || (c =? 45)%N.

(** Begins with one of the two schemes. *)
Definition has_scheme (s : jstring) : Prop :=
  lit "http://" `prefix_of` s ∨ lit "https://" `prefix_of` s.

(** The word [w] occurs in the string, at its start or further on. *)
Fixpoint occurs (w s : jstring) : Prop :=
  w `prefix_of` s ∨ match s with [] => False | _ :: s' => occurs w s' end.

Global Instance occurs_dec w s : Decision (occurs w s).
Proof. induction s as [|c s IH]; simpl; apply _. Defined.

(** The elements are 16-bit code units. *)
Definition code_units (s : jstring) : Prop := Forall (fun c => (c < 65536)%N) s.

(** What the encoder can emit: an unreserved character, [%], or an
    upper-case hexadecimal digit. *)
Definition uri_safe (c : N) : bool :=
  uriUnescaped c || (c =? 37)%N || in_range 48 57 c || in_range 65 70 c.

End Patterns.

(* ===================================================================== *)
(** * Event wiring: [_bindEvents] and the listeners of [_renderTabs]      *)
(* ===================================================================== *)

Module Wiring.
Import JS Shell.

(** ** [parseInt(string)], no radix given  (ECMA-262, 19.2.5)

    [None] is NaN.  The result is the exact integer the digits denote;
    the Number [parseInt] returns is that integer as long as it is a
    safe one. *)

(** The integers a Number holds exactly, [Number.isSafeInteger]; on
    these [String] writes all the digits. *)
Definition safe_integer (z : Z) : Prop := - 2 ^ 53 < z < 2 ^ 53.

(** WhiteSpace and LineTerminator, trimmed at the start. *)
Definition is_white_space (c : N) : bool :=
  bool_decide (c ∈ [9; 10; 11; 12; 13; 32; 160; 0x1680; 0x2028; 0x2029;
                    0x202F; 0x205F; 0x3000; 0xFEFF]%N)
  || in_range 0x2000 0x200A c.

Fixpoint trim_start (s : jstring) : jstring :=
  match s with
  | c :: s' => if is_white_space c then trim_start s' else s
  | [] => []
  end.

(** The value of a digit in the radix, if it is one. *)
Definition digit_of (radix c : N) : option N :=
  let v := if in_range 48 57 c then Some (c - 48)%N
           else if in_range 97 122 c then Some (c - 87)%N
           else if in_range 65 90 c then Some (c - 55)%N
           else None in
  v ≫= fun d => if (d <? radix)%N then Some d else None.

(** The longest prefix of digits, read as a number; [acc] is [None]
    until a digit has been read. *)
Fixpoint parse_digits (radix : N) (s : jstring) (acc : option N) : option N :=
  match s with
  | [] => acc
  | c :: s' =>
    match digit_of radix c with
    | Some d => parse_digits radix s' (Some (default 0 acc * radix + d)%N)
    | None => acc
    end
  end.

Definition parseInt (s : jstring) : option Z :=
  let s := trim_start s in
  let '(sign, s) :=
    match s with
    | 45%N :: s' => (-1, s')
    | 43%N :: s' => (1, s')
    | _ => (1, s)
    end in
  let '(radix, s) :=
    match s with
    | 48%N :: x :: s' =>
      if (x =? 120)%N || (x =? 88)%N then (16%N, s') else (10%N, s)
    | _ => (10%N, s)
    end in
  (fun n => sign * Z.of_N n) <$> parse_digits radix s None.

(** ** The history methods

    What they do is a call on the host's webview; the shell keeps no
    state of it.  The answers of [canGoBack()] and [canGoForward()] are
    the host's. *)
Inductive HostCall :=
| PreventDefault
| GoBack (i : Z)
| GoForward (i : Z)
| Reload (i : Z).

(** [document.getElementById(`wm-webview-${this.activeTabId}`)] *)
Definition activeWebview (st : State) : option Webview :=
  activeTabId st ≫= fun a => snd <$> list_find (is_webview a) (webviews st).

Definition goBack (canGoBack : Webview -> bool) (st : State) : list HostCall :=
  match activeWebview st with
  | Some w => if canGoBack w then [GoBack (wv_id w)] else []
  | None => []
  end.

Definition goForward (canGoForward : Webview -> bool) (st : State) : list HostCall :=
  match activeWebview st with
  | Some w => if canGoForward w then [GoForward (wv_id w)] else []
  | None => []
  end.

Definition reload (st : State) : list HostCall :=
  match activeWebview st with
  | Some w => [Reload (wv_id w)]
  | None => []
  end.

(** ** [_bindEvents] *)

(** The [keydown] listener on the document.  The source has three
    [if]s in a row; a key is at most one of the three letters. *)
Definition keydown (ctrlKey : bool) (key : jstring) (st : State)
  : outcome (list HostCall) :=
  if ctrlKey && bool_decide (key = lit "t") then
    (* e.preventDefault(); this.newTab(); *)
    match newTab [] st with
    | Returned _ st' => Returned [PreventDefault] st'
    | Threw e st' => Threw e st'
    end
  else if ctrlKey && bool_decide (key = lit "w") then
    (* e.preventDefault(); if (this.activeTabId) this.closeTab(this.activeTabId); *)
    Returned [PreventDefault]
      (match activeTabId st with
       | Some a => if bool_decide (a = 0) then st else closeTab a st
       | None => st
       end)
  else if ctrlKey && bool_decide (key = lit "r") then
    (* e.preventDefault(); this.reload(); *)
    Returned (PreventDefault :: reload st) st
  else Returned [] st.

(** The [keydown] listener on the address bar. *)
Definition urlInput_keydown (key : jstring) (st : State) : outcome unit :=
  if bool_decide (key = lit "Enter") then navigate (urlInput (doc st)) st
  else Returned () st.

(** The [click] listener of the Go button: [navigate(urlInput?.value)]. *)
Definition goBtn_click (st : State) : outcome unit := navigate (urlInput (doc st)) st.

(** The [click] listener of the new-tab button: [newTab()]. *)
Definition newTabBtn_click (st : State) : outcome Z := newTab [] st.

(** ** The listeners [_renderTabs] attaches to the strip

    The element rendered for a tab carries the text of [tab.id] in
    [data-tab-id], its button in [data-close-id]; digits and a minus
    sign pass through the HTML parser as they are.  [None] stands for
    NaN, for which the model of ids has no value. *)

(** A click on the tab element, outside its close button. *)
Definition tab_click (t : Tab) (st : State) : option State :=
  (fun i => switchTab i st) <$> parseInt (string_of_Z (id t)).

(** A click on the close button; [stopPropagation] keeps the listener
    of the tab element from running. *)
Definition close_click (t : Tab) (st : State) : option State :=
  (fun i => closeTab i st) <$> parseInt (string_of_Z (id t)).

(** Ctrl+W pressed [n] times. *)
Fixpoint close_presses (n : nat) (st : State) : State :=
  match n with
  | O => st
  | S n' => close_presses n' (state_of (keydown true (lit "w") st))
  end.

End Wiring.

(* ===================================================================== *)
(** * Tabs, surfaces and the active tab                                   *)
(* ===================================================================== *)

Module Consistency.
Import JS Shell.

(** One webview per tab, in the order of the collection: the webview
    carries the id of its tab and its listeners hold that tab. *)
Definition surfaces_ok (st : State) : Prop :=
  Forall2 (fun w r => wv_tab w = r ∧ has_id (recs st) (wv_id w) r)
          (webviews st) (tabs_list st).

(** [#wm-content] exists, the collection is well formed and the
    webviews are those of the tabs. *)
Definition paired (st : State) : Prop :=
  is_Some (content (doc st)) ∧ wf st ∧ surfaces_ok st.

(** The active id is the id of a tab, or null when there is no tab. *)
Definition active_ok (st : State) : Prop :=
  match activeTabId st with
  | Some a => a ∈ tab_ids st
  | None => tabs_list st = []
  end.

(** A webview has the class [active] exactly when it belongs to the
    active tab. *)
Definition shown_ok (st : State) : Prop :=
  Forall (fun w => wv_active w = bool_decide (Some (wv_id w) = activeTabId st))
         (webviews st).

(** An initialised shell in a consistent state. *)
Definition shell_ok (st : State) : Prop :=
  initialized st = true ∧ paired st ∧ active_ok st ∧ shown_ok st.

(** The strip, where it is rendered, shows the tabs as they are. *)
Definition strip_ok (st : State) : Prop :=
  match tabsContainer (doc st) with
  | Some s => showTabs (options st) = true -> s = strip_markup st
  | None => True
  end.

(** The strip exists in a mounted shell only: [init] writes it together
    with [#wm-content]. *)
Definition strip_mounted (st : State) : Prop :=
  is_Some (tabsContainer (doc st)) -> is_Some (content (doc st)).

Global Instance active_ok_dec st : Decision (active_ok st).
Proof. unfold active_ok. destruct (activeTabId st); apply _. Defined.

Global Instance shell_ok_dec st : Decision (shell_ok st).
Proof. unfold shell_ok, paired, surfaces_ok, shown_ok. apply _. Defined.

(** [newTab] up to its call of [switchTab], on a shell whose
    [#wm-content] holds [ws]. *)
Definition appended (u : jstring) (ws : list Webview) (st : State) : State :=
  let i := tabCounter st + 1 in
  let st := with_tabCounter i st in
  let tab := fresh (dom (recs st)) in
  let st := with_recs (<[tab := mkTab i u (lit "New Tab")]> (recs st)) st in
  let st := with_arrs (<[tabs st := tabs_list st ++ [tab]]> (arrs st)) st in
  let webview := mkWebview i (match u with [] => None | _ => Some u end) false tab in
  with_doc (with_content (Some (ws ++ [webview])) (doc st)) st.

End Consistency.

(* ===================================================================== *)
(** * Sessions: any sequence of calls and events                          *)
(* ===================================================================== *)

Module Sessions.
Import JS Shell Wiring.

Inductive Event :=
| EInit
| ENewTab (u : jstring)
| ESwitchTab (i : Z)
| ECloseTab (i : Z)
| ENavigate (input : option jstring)
| EGetTabs
| EKeydown (ctrlKey : bool) (key : jstring)
| EUrlInputKeydown (key : jstring)
| EGoBtnClick
| ENewTabBtnClick
| EDidStartLoading (tab : ref)
| EDidStopLoading (tab : ref)
| EDidFailLoad (tab : ref) (errorCode : Z) (errorDescription : jstring)
| EPageTitleUpdated (tab : ref) (title : jstring)
| EDidNavigate (tab : ref) (url : jstring).

(** The state a call or event leaves behind, whether it returns or
    throws. *)
Definition perform (e : Event) (st : State) : State :=
  match e with
  | EInit => state_of (init st)
  | ENewTab u => state_of (newTab u st)
  | ESwitchTab i => switchTab i st
  | ECloseTab i => closeTab i st
  | ENavigate input => state_of (navigate input st)
  | EGetTabs => snd (getTabs st)
  | EKeydown ctrlKey key => state_of (keydown ctrlKey key st)
  | EUrlInputKeydown key => state_of (urlInput_keydown key st)
  | EGoBtnClick => state_of (goBtn_click st)
  | ENewTabBtnClick => state_of (newTabBtn_click st)
  | EDidStartLoading tab => did_start_loading tab st
  | EDidStopLoading tab => did_stop_loading tab st
  | EDidFailLoad tab code text => did_fail_load tab code text st
  | EPageTitleUpdated tab t => page_title_updated tab t st
  | EDidNavigate tab u => did_navigate tab u st
  end.

Definition session (opts : Options) (es : list Event) : State :=
  foldl (fun st e => perform e st) (constructor opts) es.

(** Every event but a call of [switchTab] with an id that is not in the
    collection. *)
Definition known (e : Event) (st : State) : Prop :=
  match e with
  | ESwitchTab i => i ∈ tab_ids st
  | _ => True
  end.

Global Instance known_dec e st : Decision (known e st).
Proof. destruct e; simpl; apply _. Defined.

(** [known], event after event along a session that goes on from [st]. *)
Fixpoint all_known (es : list Event) (st : State) : Prop :=
  match es with
  | [] => True
  | e :: es' => known e st ∧ all_known es' (perform e st)
  end.

Global Instance all_known_dec es : ∀ st, Decision (all_known es st).
Proof. induction es as [|e es IH]; intros st; simpl; apply _. Defined.

End Sessions.

(* ===================================================================== *)
(** * More samples                                                        *)
(* ===================================================================== *)

Module MoreSamples.
Import JS Headers Shell Samples Sessions.

(** A response with a caching header only. *)
Definition clean_heap : gmap Headers.ref obj :=
  <[2%positive := OHeaders (<[lit "Cache-Control" := [lit "no-cache"]]> ∅)]>
    (<[1%positive := ORecord (Some 2%positive)]> ∅).

(** The tab of [shell_titled]. *)
Definition tab_titled : Tab := mkTab 1 (lit "https://a.example") (lit "<b>").

(** The first tab of [shell_A] and [shell_ABC]. *)
Definition tab_A : Tab := mkTab 1 (lit "https://a.example") (lit "New Tab").

(** A new instance whose container does not resolve. *)
Definition no_container : Options :=
  mkOptions false true true [] true true true true true.

(** After [init]: open a tab, navigate it, go back to the first tab,
    close it with Ctrl+W, let the second tab report an address and a
    title, close an id that is not there, open a tab with Ctrl+T. *)
Definition sample_events : list Event :=
  [ENewTab []; ENavigate (Some (lit "openai.com")); ESwitchTab 1;
   EKeydown true (lit "w"); EDidNavigate 2%positive (lit "https://openai.com/");
   EPageTitleUpdated 2%positive (lit "OpenAI"); ECloseTab 7;
   EKeydown true (lit "t"); EGetTabs; EInit].

End MoreSamples.


Import JS Regex.

(* ===================================================================== *)
(** * The matcher decides the language                                    *)
(* ===================================================================== *)

Section RegexFacts.

Implicit Types (r : re) (s : jstring) (c : N).

Lemma lang_void_inv s : ¬ lang Void s.
Proof. intros H. inversion H. Qed.

Lemma lang_eps_inv s : lang Eps s -> s = [].
Proof. intros H. by inversion H. Qed.

Lemma lang_class_inv neg rs s :
  lang (Class neg rs) s -> ∃ c, s = [c] ∧ class_mem neg rs c = true.
Proof. intros H. inversion H; subst. eauto. Qed.

Lemma lang_cat_inv r1 r2 s :
  lang (Cat r1 r2) s -> ∃ s1 s2, s = s1 ++ s2 ∧ lang r1 s1 ∧ lang r2 s2.
Proof. intros H. inversion H; subst. eauto. Qed.

Lemma lang_alt_inv r1 r2 s : lang (Alt r1 r2) s -> lang r1 s ∨ lang r2 s.
Proof. intros H. inversion H; subst; auto. Qed.

(** A non-empty word of an iteration starts with a non-empty word of
    the body. *)
Lemma lang_star_cons_inv r c s :
  lang (Star r) (c :: s) ->
  ∃ s1 s2, s = s1 ++ s2 ∧ lang r (c :: s1) ∧ lang (Star r) s2.
Proof.
  remember (Star r) as q eqn:Hq. remember (c :: s) as w eqn:Hw.
  intros H. revert Hq Hw.
  induction H as [| | | | | |r' s1 s2 H1 _ H2 IH2]; try discriminate.
  intros [= ->] Hw. destruct s1 as [|c' s1'].
  - apply IH2; auto.
  - simpl in Hw. injection Hw as -> <-. eauto.
Qed.

Lemma nullable_lang r : nullable r = true <-> lang r [].
Proof.
  split.
  - induction r; simpl; intros H; try discriminate.
    + constructor.
    + apply andb_true_iff in H as [H1 H2].
      change (@nil N) with (@nil N ++ []). constructor; auto.
    + apply orb_true_iff in H as [H|H]; [apply lang_alt_l | apply lang_alt_r]; auto.
    + constructor.
  - induction r; simpl; intros H; auto.
    + by apply lang_void_inv in H.
    + apply lang_class_inv in H as (c & ? & _). discriminate.
    + apply lang_cat_inv in H as (s1 & s2 & Hs & H1 & H2).
      symmetry in Hs. apply app_eq_nil in Hs as [-> ->].
      apply andb_true_iff. auto.
    + apply orb_true_iff. apply lang_alt_inv in H as [H|H]; auto.
Qed.

Lemma lang_cat_smart r1 r2 s : lang (cat r1 r2) s <-> lang (Cat r1 r2) s.
Proof.
  split.
  - destruct r1, r2; simpl; intros H;
      try (by apply lang_void_inv in H); try done;
      change s with ([] ++ s); constructor; auto using lang_eps.
  - intros H. apply lang_cat_inv in H as (s1 & s2 & -> & H1 & H2).
    destruct r1, r2; simpl;
      try (by apply lang_void_inv in H1); try (by apply lang_void_inv in H2);
      try (apply lang_eps_inv in H1 as ->; simpl; assumption);
      by constructor.
Qed.

Lemma lang_alt_smart r1 r2 s : lang (alt r1 r2) s <-> lang (Alt r1 r2) s.
Proof.
  split.
  - destruct r1, r2; simpl; intros H;
      try (by apply lang_void_inv in H); try done;
      first [ by apply lang_alt_l | by apply lang_alt_r ].
  - intros H. apply lang_alt_inv in H as [H|H];
      destruct r1, r2; simpl;
      try (by apply lang_void_inv in H); try done;
      first [ by apply lang_alt_l | by apply lang_alt_r ].
Qed.

(** Brzozowski's equation. *)
Lemma deriv_lang c r : ∀ s, lang (deriv c r) s <-> lang r (c :: s).
Proof.
  induction r as [| |neg rs|r1 IH1 r2 IH2|r1 IH1 r2 IH2|r1 IH1]; intros s; simpl.
  - split; intros H; by apply lang_void_inv in H.
  - split; intros H; [by apply lang_void_inv in H | apply lang_eps_inv in H; discriminate].
  - destruct (class_mem neg rs c) eqn:Hm; split; intros H.
    + apply lang_eps_inv in H as ->. by constructor.
    + apply lang_class_inv in H as (c' & [= -> ->] & _). constructor.
    + by apply lang_void_inv in H.
    + apply lang_class_inv in H as (c' & [= -> ->] & Hc). congruence.
  - assert (Hcat : lang (cat (deriv c r1) r2) s <->
                   ∃ s1 s2, s = s1 ++ s2 ∧ lang r1 (c :: s1) ∧ lang r2 s2).
    { rewrite lang_cat_smart. split.
      - intros H. apply lang_cat_inv in H as (s1 & s2 & -> & H1 & H2).
        apply IH1 in H1. eauto.
      - intros (s1 & s2 & -> & H1 & H2). constructor; [by apply IH1 | done]. }
    assert (Hsplit : lang (Cat r1 r2) (c :: s) <->
                     (∃ s1 s2, s = s1 ++ s2 ∧ lang r1 (c :: s1) ∧ lang r2 s2)
                     ∨ (lang r1 [] ∧ lang r2 (c :: s))).
    { split.
      - intros H. apply lang_cat_inv in H as (s1 & s2 & Hs & H1 & H2).
        destruct s1 as [|c' s1']; simpl in Hs.
        + right. subst s2. auto.
        + injection Hs as -> ->. left. eauto.
      - intros [(s1 & s2 & -> & H1 & H2)|[H1 H2]].
        + change (c :: s1 ++ s2) with ((c :: s1) ++ s2). by constructor.
        + change (c :: s) with ([] ++ c :: s). by constructor. }
    rewrite Hsplit. destruct (nullable r1) eqn:Hn.
    + rewrite lang_alt_smart. split.
      * intros H. apply lang_alt_inv in H as [H|H].
        -- left. by apply Hcat.
        -- right. split; [by apply nullable_lang | by apply IH2].
      * intros [H|[_ H]]; [apply lang_alt_l; by apply Hcat | apply lang_alt_r; by apply IH2].
    + rewrite Hcat. split; [auto|].
      intros [H|[H _]]; [done|]. apply nullable_lang in H. congruence.
  - rewrite lang_alt_smart. split; intros H; apply lang_alt_inv in H as [H|H];
      first [ apply lang_alt_l; by apply IH1 | apply lang_alt_r; by apply IH2 ].
  - rewrite lang_cat_smart. split.
    + intros H. apply lang_cat_inv in H as (s1 & s2 & -> & H1 & H2).
      apply IH1 in H1. change (c :: s1 ++ s2) with ((c :: s1) ++ s2). by constructor.
    + intros H. apply lang_star_cons_inv in H as (s1 & s2 & -> & H1 & H2).
      constructor; [by apply IH1 | done].
Qed.

Lemma matches_lang r s : matches r s = true <-> lang r s.
Proof.
  revert r. induction s as [|c s IH]; intros r; simpl.
  - apply nullable_lang.
  - rewrite IH. apply deriv_lang.
Qed.

Lemma matches_prefix_lang r s :
  matches_prefix r s = true <-> ∃ p q, s = p ++ q ∧ lang r p.
Proof.
  revert r. induction s as [|c s IH]; intros r; simpl.
  - rewrite orb_false_r, nullable_lang. split.
    + intros H. by exists [], [].
    + intros (p & q & Hs & H). symmetry in Hs. by apply app_eq_nil in Hs as [-> _].
  - rewrite orb_true_iff, nullable_lang, IH. split.
    + intros [H|(p & q & -> & H)].
      * by exists [], (c :: s).
      * exists (c :: p), q. split; [done|]. by apply deriv_lang.
    + intros (p & q & Hs & H). destruct p as [|c' p]; simpl in Hs.
      * by left.
      * injection Hs as -> ->. right. exists p, q. split; [done|]. by apply deriv_lang.
Qed.

Lemma in_range_spec lo hi c : in_range lo hi c = true <-> (lo <= c <= hi)%N.
Proof. unfold in_range. rewrite andb_true_iff, !N.leb_le. done. Qed.

Lemma class_mem_single c c' : class_mem false [(c, c)] c' = true <-> c' = c.
Proof.
  unfold class_mem. simpl. rewrite orb_false_r, in_range_spec. lia.
Qed.

Lemma lang_chr c s : lang (chr c) s <-> s = [c].
Proof.
  unfold chr. split.
  - intros H. apply lang_class_inv in H as (c' & -> & Hm).
    apply class_mem_single in Hm. by subst.
  - intros ->. constructor. by apply class_mem_single.
Qed.

Lemma lang_str w s : lang (str w) s <-> s = w.
Proof.
  revert s. induction w as [|c w IH]; intros s; simpl.
  - split; [apply lang_eps_inv | intros ->; constructor].
  - split.
    + intros H. apply lang_cat_inv in H as (s1 & s2 & -> & H1 & H2).
      apply lang_chr in H1 as ->. apply IH in H2 as ->. done.
    + intros ->. change (c :: w) with ([c] ++ w).
      constructor; [by apply lang_chr | by apply IH].
Qed.

(** The words of [https?:\/\/]. *)
Lemma lang_scheme s : lang scheme s <-> s = lit "http://" ∨ s = lit "https://".
Proof.
  unfold scheme, opt. split.
  - intros H. apply lang_cat_inv in H as (s1 & s' & -> & H1 & H).
    apply lang_cat_inv in H as (s2 & s3 & -> & H2 & H3).
    apply lang_str in H1 as ->. apply lang_str in H3 as ->.
    apply lang_alt_inv in H2 as [H2|H2].
    + apply lang_chr in H2 as ->. by right.
    + apply lang_eps_inv in H2 as ->. by left.
  - intros [-> | ->].
    + change (lit "http://") with (lit "http" ++ [] ++ lit "://").
      constructor; [by apply lang_str|].
      constructor; [apply lang_alt_r; constructor | by apply lang_str].
    + change (lit "https://") with (lit "http" ++ [115%N] ++ lit "://").
      constructor; [by apply lang_str|].
      constructor; [apply lang_alt_l; by apply lang_chr | by apply lang_str].
Qed.

(** [url.match(/^https?:\/\//)] succeeds exactly on the inputs that
    begin with one of the two schemes. *)
Lemma schemePattern_prefix s :
  matches_prefix schemePattern s = true
  <-> lit "http://" `prefix_of` s ∨ lit "https://" `prefix_of` s.
Proof.
  rewrite matches_prefix_lang. unfold schemePattern, prefix. split.
  - intros (p & q & -> & H). apply lang_scheme in H as [-> | ->];
      [left | right]; by exists q.
  - intros [[q ->]|[q ->]]; eexists _, q; (split; [done|]); apply lang_scheme; auto.
Qed.

End RegexFacts.

(* ===================================================================== *)
(** * Percent-encoding and text serialisation                             *)
(* ===================================================================== *)

Section BuiltinFacts.

Implicit Types (s : jstring) (c : N).

Lemma uriUnescaped_ascii c : uriUnescaped c = true -> (c < 128)%N.
Proof.
  unfold uriUnescaped.
  rewrite !orb_true_iff, !in_range_spec, bool_decide_eq_true.
  rewrite !elem_of_cons, elem_of_nil. lia.
Qed.

Lemma uriUnescaped_not_surrogate c :
  uriUnescaped c = true -> is_lead_surrogate c = false ∧ is_trail_surrogate c = false.
Proof.
  intros H%uriUnescaped_ascii. unfold is_lead_surrogate, is_trail_surrogate.
  split; apply not_true_is_false; rewrite in_range_spec; lia.
Qed.

(** The encoder throws exactly on the strings with an unpaired
    surrogate. *)
Lemma encodeURIComponent_defined s :
  is_Some (encodeURIComponent s) <-> well_formed s = true.
Proof.
  remember (length s) as n eqn:Hn. revert s Hn.
  induction n as [n IH] using lt_wf_ind. intros [|c rest] Hn; simpl.
  - split; [done | by eexists].
  - simpl in Hn. destruct (uriUnescaped c) eqn:Hu.
    + apply uriUnescaped_not_surrogate in Hu as [-> ->]. simpl.
      rewrite fmap_is_Some. apply (IH (length rest)); [lia | done].
    + destruct (is_lead_surrogate c).
      * destruct rest as [|d rest']; [split; [by intros [? ?] | done]|].
        destruct (is_trail_surrogate d); simpl.
        -- rewrite fmap_is_Some. apply (IH (length rest')); [simpl in Hn; lia | done].
        -- split; [by intros [? ?] | done].
      * destruct (is_trail_surrogate c); simpl.
        -- split; [by intros [? ?] | done].
        -- rewrite fmap_is_Some. apply (IH (length rest)); [lia | done].
Qed.

Lemma encodeURIComponent_throws s :
  encodeURIComponent s = None <-> well_formed s = false.
Proof.
  rewrite <- not_true_iff_false, <- encodeURIComponent_defined.
  rewrite eq_None_not_Some. done.
Qed.

(** ** Text serialisation *)

Lemma escape_unit_no_markup c : Forall (fun d => d ≠ 60%N ∧ d ≠ 62%N) (escape_unit c).
Proof.
  unfold escape_unit.
  destruct (N.eqb_spec c 38); [by repeat constructor|].
  destruct (N.eqb_spec c 160); [by repeat constructor|].
  destruct (N.eqb_spec c 60); [by repeat constructor|].
  destruct (N.eqb_spec c 62); [by repeat constructor|].
  by repeat constructor.
Qed.

(** Serialised text contains neither [<] nor [>]. *)
Lemma serialize_text_no_markup s : Forall (fun d => d ≠ 60%N ∧ d ≠ 62%N) (serialize_text s).
Proof.
  unfold serialize_text. induction s as [|c s IH]; simpl.
  - constructor.
  - apply Forall_app. split; [apply escape_unit_no_markup | done].
Qed.

End BuiltinFacts.

(* ===================================================================== *)
(** * The header stripper                                                 *)
(* ===================================================================== *)

Section HeaderFacts.
Import Headers Samples.

Implicit Types (σ : gmap ref obj) (m : gmap jstring (list jstring)).

Lemma delete_property_insert o h m σ :
  delete_property o h (<[o := OHeaders m]> σ) = <[o := OHeaders (delete h m)]> σ.
Proof. unfold delete_property. by rewrite lookup_insert_eq, insert_insert_eq. Qed.

Lemma delete_properties_insert o names : ∀ m σ,
  foldl (fun σ h => delete_property o h σ) (<[o := OHeaders m]> σ) names
  = <[o := OHeaders (foldl (fun m h => delete h m) m names)]> σ.
Proof.
  induction names as [|h names IH]; intros m σ; simpl; [done|].
  by rewrite delete_property_insert, IH.
Qed.

Lemma lookup_delete_all names : ∀ m k,
  foldl (fun m h => delete h m) m names !! k
  = if decide (k ∈ names) then None else m !! k.
Proof.
  induction names as [|h names IH]; intros m k; cbn [foldl].
  - destruct (decide (k ∈ [])) as [Hin|_]; [by apply elem_of_nil in Hin | done].
  - rewrite IH.
    destruct (decide (k ∈ names)) as [Hin|Hnin], (decide (k ∈ h :: names)) as [Hin'|Hnin'];
      try done.
    + exfalso. apply Hnin'. apply elem_of_cons. by right.
    + apply elem_of_cons in Hin' as [->|Hin']; [apply lookup_delete_eq | done].
    + apply lookup_delete_ne. intros ->. apply Hnin'. apply elem_of_cons. by left.
Qed.

(** The heap the handler leaves, in closed form. *)
Lemma handler_unfold σ details :
  let headers := fresh (dom σ) in
  let σ2 := <[headers := OHeaders (foldl (fun m h => delete h m)
                                    (read_responseHeaders σ details) headersToRemove)]> σ in
  let response := fresh (dom σ2) in
  handler σ details = (<[response := ORecord (Some headers)]> σ2, [response]).
Proof. unfold handler. cbv zeta. by rewrite delete_properties_insert. Qed.

Lemma fresh_lookup σ : σ !! fresh (dom σ) = None.
Proof. apply not_elem_of_dom, is_fresh. Qed.

Lemma read_responseHeaders_entries σ details h entries :
  σ !! details = Some (ORecord (Some h)) -> σ !! h = Some (OHeaders entries) ->
  read_responseHeaders σ details = entries.
Proof. intros Hd Hh. unfold read_responseHeaders. by rewrite Hd, Hh. Qed.

(** C1.  Whatever the heap and the details object, the handler calls the
    continuation exactly once, with a new object whose [responseHeaders]
    is a header object from which the six listed names are absent.  When
    the details object carries a header object with the entries
    [entries], every name that is not on the list has in the object
    handed on the value it has in [entries]. *)
Theorem setupMain_strips_six_headers σ details :
  ∃ response headers stripped,
    snd (handler σ details) = [response]
    ∧ fst (handler σ details) !! response = Some (ORecord (Some headers))
    ∧ fst (handler σ details) !! headers = Some (OHeaders stripped)
    ∧ (∀ k, k ∈ headersToRemove -> stripped !! k = None)
    ∧ (∀ h entries,
         σ !! details = Some (ORecord (Some h)) -> σ !! h = Some (OHeaders entries) ->
         ∀ k, k ∉ headersToRemove -> stripped !! k = entries !! k)
    ∧ headersToRemove
      = [ lit "x-frame-options"; lit "X-Frame-Options";
          lit "content-security-policy"; lit "Content-Security-Policy";
          lit "content-security-policy-report-only";
          lit "Content-Security-Policy-Report-Only" ].
Proof.
  rewrite handler_unfold. cbv zeta. cbn [fst snd].
  set (headers := fresh (dom σ)).
  set (stripped := foldl (fun m h => delete h m) (read_responseHeaders σ details)
                         headersToRemove).
  set (σ2 := <[headers := OHeaders stripped]> σ).
  assert (Hne : fresh (dom σ2) ≠ headers).
  { intros Heq. pose proof (fresh_lookup σ2) as Hf.
    rewrite Heq in Hf. unfold σ2 in Hf. by rewrite lookup_insert_eq in Hf. }
  exists (fresh (dom σ2)), headers, stripped.
  split; [done|]. split; [by rewrite lookup_insert_eq|].
  split; [rewrite lookup_insert_ne by done; unfold σ2; by rewrite lookup_insert_eq|].
  split; [|split; [|done]].
  - intros k Hk. unfold stripped. by rewrite lookup_delete_all, decide_True.
  - intros h entries Hd Hh k Hk. unfold stripped.
    rewrite lookup_delete_all, decide_False by done.
    by rewrite (read_responseHeaders_entries _ _ _ _ Hd Hh).
Qed.

Lemma setupMain_strips_six_headers_witness :
  ∃ response headers stripped,
    snd (handler sample_heap 1%positive) = [response]
    ∧ fst (handler sample_heap 1%positive) !! response = Some (ORecord (Some headers))
    ∧ fst (handler sample_heap 1%positive) !! headers = Some (OHeaders stripped)
    ∧ stripped !! lit "X-Frame-Options" = None
    ∧ stripped !! lit "content-security-policy" = None
    ∧ stripped !! lit "Cache-Control" = sample_headers !! lit "Cache-Control"
    ∧ sample_headers !! lit "Cache-Control" = Some [lit "no-cache"].
Proof.
  destruct (setupMain_strips_six_headers sample_heap 1%positive)
    as (response & headers & stripped & Hc & Hr & Hh & Hgone & Hkept & _).
  exists response, headers, stripped.
  split; [exact Hc|]. split; [exact Hr|]. split; [exact Hh|].
  split; [|split; [|split]].
  - apply Hgone. apply (bool_decide_unpack _). vm_compute. exact I.
  - apply Hgone. apply (bool_decide_unpack _). vm_compute. exact I.
  - apply (Hkept 2%positive sample_headers).
    + reflexivity.
    + reflexivity.
    + apply (bool_decide_unpack _). vm_compute. exact I.
  - vm_compute. reflexivity.
Defined.

(** C10.  The handler leaves every object of the heap it was called in
    as it was: the details object still points to the header object the
    host supplied, that object still has all its entries, and the header
    object handed to the continuation is a different, new one. *)
Theorem setupMain_handler_preserves_details σ details h entries :
  σ !! details = Some (ORecord (Some h)) ->
  σ !! h = Some (OHeaders entries) ->
  let σ' := fst (handler σ details) in
  σ ⊆ σ'
  ∧ σ' !! details = Some (ORecord (Some h))
  ∧ σ' !! h = Some (OHeaders entries)
  ∧ Forall (fun response =>
              ∃ headers, σ' !! response = Some (ORecord (Some headers))
                         ∧ headers ≠ h ∧ σ !! headers = None)
           (snd (handler σ details)).
Proof.
  intros Hd Hh. rewrite handler_unfold. cbv zeta. simpl.
  set (headers := fresh (dom σ)).
  set (stripped := foldl (fun m h => delete h m) (read_responseHeaders σ details)
                         headersToRemove).
  set (σ2 := <[headers := OHeaders stripped]> σ).
  assert (Hsub : σ ⊆ <[fresh (dom σ2) := ORecord (Some headers)]> σ2).
  { etrans; [apply (insert_subseteq σ headers), fresh_lookup|].
    apply insert_subseteq, fresh_lookup. }
  split; [done|].
  split; [by apply (lookup_weaken _ _ _ _ Hd Hsub)|].
  split; [by apply (lookup_weaken _ _ _ _ Hh Hsub)|].
  constructor; [|constructor]. exists headers.
  rewrite lookup_insert_eq. split; [done|]. split; [|apply fresh_lookup].
  intros Heq. pose proof (fresh_lookup σ) as Hf. fold headers in Hf. congruence.
Qed.

Lemma setupMain_handler_preserves_details_witness :
  let σ' := fst (handler sample_heap 1%positive) in
  sample_heap ⊆ σ'
  ∧ σ' !! 1%positive = Some (ORecord (Some 2%positive))
  ∧ σ' !! 2%positive = Some (OHeaders sample_headers)
  ∧ Forall (fun response =>
              ∃ headers, σ' !! response = Some (ORecord (Some headers))
                         ∧ headers ≠ 2%positive ∧ sample_heap !! headers = None)
           (snd (handler sample_heap 1%positive)).
Proof.
  apply (setupMain_handler_preserves_details sample_heap 1%positive 2%positive
           sample_headers); reflexivity.
Defined.

(** The listed names go, the caching header stays; a name in another
    casing is not on the list. *)
Example handler_sample :
  let stripped := default ∅ (headers_of (fst (handler sample_heap 1%positive)) 4%positive) in
  snd (handler sample_heap 1%positive) = [4%positive]
  ∧ stripped !! lit "X-Frame-Options" = None
  ∧ stripped !! lit "content-security-policy" = None
  ∧ stripped !! lit "Cache-Control" = Some [lit "no-cache"]
  ∧ lit "X-FRAME-OPTIONS" ∉ headersToRemove.
Proof.
  repeat split; try (vm_compute; reflexivity).
  apply (bool_decide_unpack _). vm_compute. exact I.
Qed.

End HeaderFacts.

(* ===================================================================== *)
(** * The browser shell                                                   *)
(* ===================================================================== *)

Import Shell.

(** ** What rendering and switching leave alone *)

Section Frames.

Implicit Types (st : State) (i : Z).

Ltac by_cases := intros; unfold _renderTabs; repeat case_match; reflexivity.

Lemma _renderTabs_recs st : recs (_renderTabs st) = recs st.
Proof. by_cases. Qed.
Lemma _renderTabs_arrs st : arrs (_renderTabs st) = arrs st.
Proof. by_cases. Qed.
Lemma _renderTabs_tabs st : tabs (_renderTabs st) = tabs st.
Proof. by_cases. Qed.
Lemma _renderTabs_activeTabId st : activeTabId (_renderTabs st) = activeTabId st.
Proof. by_cases. Qed.
Lemma _renderTabs_tabCounter st : tabCounter (_renderTabs st) = tabCounter st.
Proof. by_cases. Qed.
Lemma _renderTabs_options st : options (_renderTabs st) = options st.
Proof. by_cases. Qed.
Lemma _renderTabs_initialized st : initialized (_renderTabs st) = initialized st.
Proof. by_cases. Qed.
Lemma _renderTabs_calls st : calls (_renderTabs st) = calls st.
Proof. by_cases. Qed.
Lemma _renderTabs_urlInput st : urlInput (doc (_renderTabs st)) = urlInput (doc st).
Proof. by_cases. Qed.
Lemma _renderTabs_placeholder st : placeholder (doc (_renderTabs st)) = placeholder (doc st).
Proof. by_cases. Qed.
Lemma _renderTabs_content st : content (doc (_renderTabs st)) = content (doc st).
Proof. by_cases. Qed.
Lemma _renderTabs_statusDot st : statusDot (doc (_renderTabs st)) = statusDot (doc st).
Proof. by_cases. Qed.
Lemma _renderTabs_statusText st : statusText (doc (_renderTabs st)) = statusText (doc st).
Proof. by_cases. Qed.

Lemma _renderTabs_tabs_list st : tabs_list (_renderTabs st) = tabs_list st.
Proof. unfold tabs_list. by rewrite _renderTabs_arrs, _renderTabs_tabs. Qed.
Lemma _renderTabs_tab_records st : tab_records (_renderTabs st) = tab_records st.
Proof. unfold tab_records. by rewrite _renderTabs_tabs_list, _renderTabs_recs. Qed.
Lemma _renderTabs_tab_ids st : tab_ids (_renderTabs st) = tab_ids st.
Proof. unfold tab_ids. by rewrite _renderTabs_tab_records. Qed.

Lemma switchTab_recs i st : recs (switchTab i st) = recs st.
Proof. unfold switchTab. by rewrite _renderTabs_recs. Qed.
Lemma switchTab_arrs i st : arrs (switchTab i st) = arrs st.
Proof. unfold switchTab. by rewrite _renderTabs_arrs. Qed.
Lemma switchTab_tabs i st : tabs (switchTab i st) = tabs st.
Proof. unfold switchTab. by rewrite _renderTabs_tabs. Qed.
Lemma switchTab_activeTabId i st : activeTabId (switchTab i st) = Some i.
Proof. unfold switchTab. by rewrite _renderTabs_activeTabId. Qed.
Lemma switchTab_tabCounter i st : tabCounter (switchTab i st) = tabCounter st.
Proof. unfold switchTab. by rewrite _renderTabs_tabCounter. Qed.
Lemma switchTab_options i st : options (switchTab i st) = options st.
Proof. unfold switchTab. by rewrite _renderTabs_options. Qed.
Lemma switchTab_calls i st : calls (switchTab i st) = calls st.
Proof. unfold switchTab. by rewrite _renderTabs_calls. Qed.
Lemma switchTab_initialized i st : initialized (switchTab i st) = initialized st.
Proof. unfold switchTab. by rewrite _renderTabs_initialized. Qed.
Lemma switchTab_tabs_list i st : tabs_list (switchTab i st) = tabs_list st.
Proof. unfold tabs_list. by rewrite switchTab_arrs, switchTab_tabs. Qed.
Lemma switchTab_tab_records i st : tab_records (switchTab i st) = tab_records st.
Proof. unfold tab_records. by rewrite switchTab_tabs_list, switchTab_recs. Qed.
Lemma switchTab_tab_ids i st : tab_ids (switchTab i st) = tab_ids st.
Proof. unfold tab_ids. by rewrite switchTab_tab_records. Qed.

(** The toolbar after [switchTab]. *)
Lemma switchTab_urlInput i st :
  urlInput (doc (switchTab i st)) = assign (url_or_empty st (find st i)) (urlInput (doc st)).
Proof. unfold switchTab. by rewrite _renderTabs_urlInput. Qed.

Lemma switchTab_placeholder i st :
  placeholder (doc (switchTab i st))
  = assign (match url_or_empty st (find st i) with [] => DisplayFlex | _ => DisplayNone end)
           (placeholder (doc st)).
Proof. unfold switchTab. by rewrite _renderTabs_placeholder. Qed.

Lemma switchTab_content i st :
  content (doc (switchTab i st))
  = (fun _ => on_webview i (set_active true) (set_active false <$> webviews st))
      <$> content (doc st).
Proof. unfold switchTab. by rewrite _renderTabs_content. Qed.

End Frames.

Create Rewrite HintDb shell.
#[export] Hint Rewrite
  _renderTabs_recs _renderTabs_arrs _renderTabs_tabs _renderTabs_activeTabId
  _renderTabs_tabCounter _renderTabs_options _renderTabs_initialized _renderTabs_calls
  _renderTabs_urlInput _renderTabs_placeholder _renderTabs_content
  _renderTabs_statusDot _renderTabs_statusText
  _renderTabs_tabs_list _renderTabs_tab_records _renderTabs_tab_ids
  switchTab_recs switchTab_arrs switchTab_tabs switchTab_activeTabId
  switchTab_tabCounter switchTab_options switchTab_calls switchTab_initialized
  switchTab_tabs_list switchTab_tab_records switchTab_tab_ids
  switchTab_urlInput switchTab_placeholder switchTab_content : shell.

(** ** Load failures *)

Section Listeners.
Import Samples.

(** C7.  A [did-fail-load] event with error code -3 changes nothing: no
    status is set and no callback runs.  With any other code the status
    dot gets the class [error], the status text reads [Error: ] followed
    by the description, and [onError], when configured, is called once
    with the tab and the event. *)
Theorem did_fail_load_filters_superseded tab errorCode errorDescription st :
  let st' := did_fail_load tab errorCode errorDescription st in
  (errorCode = -3 -> st' = st)
  ∧ (errorCode ≠ -3 ->
       statusDot (doc st') = assign (lit "wm-status-dot error") (statusDot (doc st))
       ∧ statusText (doc st') = assign (lit "Error: " ++ errorDescription) (statusText (doc st))
       ∧ calls st' = calls st ++
                     (if onError (options st)
                      then [CallError tab errorCode errorDescription] else [])).
Proof.
  unfold did_fail_load. cbv zeta. split; intros Hcode.
  - by rewrite bool_decide_eq_false_2 by (intros H; apply H, Hcode).
  - rewrite bool_decide_eq_true_2 by done. cbn [options _setStatus with_doc].
    destruct (onError (options st)); simpl; by rewrite ?app_nil_r.
Qed.

Lemma did_fail_load_filters_superseded_witness :
  did_fail_load 1%positive (-3) (lit "ERR_ABORTED") shell_A = shell_A
  ∧ statusDot (doc (did_fail_load 1%positive (-105) (lit "ERR_NAME_NOT_RESOLVED") shell_A))
    = Some (lit "wm-status-dot error")
  ∧ statusText (doc (did_fail_load 1%positive (-105) (lit "ERR_NAME_NOT_RESOLVED") shell_A))
    = Some (lit "Error: ERR_NAME_NOT_RESOLVED")
  ∧ calls (did_fail_load 1%positive (-105) (lit "ERR_NAME_NOT_RESOLVED") shell_A)
    = [CallError 1%positive (-105) (lit "ERR_NAME_NOT_RESOLVED")].
Proof.
  split.
  - apply (did_fail_load_filters_superseded 1%positive (-3) (lit "ERR_ABORTED") shell_A).
    reflexivity.
  - apply (did_fail_load_filters_superseded 1%positive (-105)
             (lit "ERR_NAME_NOT_RESOLVED") shell_A).
    lia.
Defined.

End Listeners.

(** ** Closing tabs *)

Section CloseTab.
Import Samples.

Implicit Types (st : State) (i : Z) (r : ref).

Lemma spliced_tabs_list i index st : tabs_list (spliced i index st) = delete index (tabs_list st).
Proof. unfold tabs_list at 1, spliced. simpl. by rewrite lookup_insert_eq. Qed.

Lemma closeTab_unfold i st :
  closeTab i st =
  match findIndex st i with
  | None => st
  | Some (index, _) =>
    let st1 := spliced i index st in
    _renderTabs
      (if bool_decide (length (delete index (tabs_list st)) = 0%nat) then
         with_doc (with_placeholder (assign DisplayFlex (placeholder (doc st1)))
                    (with_urlInput (assign [] (urlInput (doc st1))) (doc st1)))
                  (with_activeTabId None st1)
       else if bool_decide (activeTabId st = Some i) then
         match delete index (tabs_list st)
                 !! Nat.min index (length (delete index (tabs_list st)) - 1)
               ≫= (fun r => recs st !! r) with
         | Some t => switchTab (id t) st1
         | None => st1
         end
       else st1)
  end.
Proof.
  unfold closeTab. destruct (findIndex st i) as [[index r]|]; [|done].
  cbv zeta. by rewrite !spliced_tabs_list.
Qed.

Lemma closeTab_not_found i st : findIndex st i = None -> closeTab i st = st.
Proof. intros H. by rewrite closeTab_unfold, H. Qed.

Lemma closeTab_recs i st : recs (closeTab i st) = recs st.
Proof.
  rewrite closeTab_unfold. destruct (findIndex st i) as [[index r]|]; [|done].
  cbv zeta. repeat case_match; by autorewrite with shell.
Qed.

Lemma closeTab_tabs i st : tabs (closeTab i st) = tabs st.
Proof.
  rewrite closeTab_unfold. destruct (findIndex st i) as [[index r]|]; [|done].
  cbv zeta. repeat case_match; by autorewrite with shell.
Qed.

Lemma closeTab_tabCounter i st : tabCounter (closeTab i st) = tabCounter st.
Proof.
  rewrite closeTab_unfold. destruct (findIndex st i) as [[index r]|]; [|done].
  cbv zeta. repeat case_match; by autorewrite with shell.
Qed.

Lemma closeTab_tabs_list i st index r :
  findIndex st i = Some (index, r) ->
  tabs_list (closeTab i st) = delete index (tabs_list st).
Proof.
  intros H. rewrite closeTab_unfold, H. cbv zeta.
  repeat case_match; autorewrite with shell; apply spliced_tabs_list.
Qed.

Lemma findIndex_singleton st i r :
  tabs_list st = [r] -> has_id (recs st) i r -> findIndex st i = Some (0%nat, r).
Proof.
  intros Hl Hid. unfold findIndex. rewrite Hl. simpl.
  by rewrite decide_True by done.
Qed.

(** C8.  Closing the only tab of the collection empties the collection
    and sets [activeTabId] to null, so that no tab is active and
    [getCurrentUrl] returns the empty string; the address bar is emptied
    and the placeholder is displayed as [flex]. *)
Theorem closeTab_last_tab st i r :
  tabs_list st = [r] ->
  has_id (recs st) i r ->
  let st' := closeTab i st in
  tabs_list st' = []
  ∧ activeTabId st' = None
  ∧ active_tabs st' = []
  ∧ getCurrentUrl st' = []
  ∧ urlInput (doc st') = assign [] (urlInput (doc st))
  ∧ placeholder (doc st') = assign DisplayFlex (placeholder (doc st)).
Proof.
  intros Hl Hid st'.
  pose proof (findIndex_singleton st i r Hl Hid) as Hfind.
  assert (Hlist : tabs_list st' = []).
  { unfold st'. rewrite (closeTab_tabs_list _ _ _ _ Hfind), Hl. done. }
  assert (Hact : activeTabId st' = None).
  { unfold st'. rewrite closeTab_unfold, Hfind, Hl. simpl.
    by autorewrite with shell. }
  split; [done|]. split; [done|]. split; [|split; [|split]].
  - unfold active_tabs, tab_records. by rewrite Hlist.
  - unfold getCurrentUrl. by rewrite Hact.
  - unfold st'. rewrite closeTab_unfold, Hfind, Hl. simpl.
    by autorewrite with shell.
  - unfold st'. rewrite closeTab_unfold, Hfind, Hl. simpl.
    by autorewrite with shell.
Qed.

Lemma closeTab_last_tab_witness :
  let st' := closeTab 1 shell_A in
  tabs_list st' = []
  ∧ activeTabId st' = None
  ∧ active_tabs st' = []
  ∧ getCurrentUrl st' = []
  ∧ urlInput (doc st') = Some []
  ∧ placeholder (doc st') = Some DisplayFlex.
Proof.
  apply (closeTab_last_tab shell_A 1 1%positive); reflexivity.
Defined.

End CloseTab.

(** ** Lists of references all of which resolve *)

Section Resolve.
Context {A B : Type} (f : A -> option B).

Lemma omap_resolved_lookup (l : list A) (k : nat) :
  Forall (fun x => is_Some (f x)) l -> omap f l !! k = l !! k ≫= f.
Proof.
  intros H. revert k. induction H as [|x l [y Hy] _ IH]; intros k; [done|].
  cbn [omap list_omap]. rewrite Hy. destruct k as [|k]; simpl; [done | apply IH].
Qed.

Lemma omap_resolved_delete (l : list A) (k : nat) :
  Forall (fun x => is_Some (f x)) l -> omap f (delete k l) = delete k (omap f l).
Proof.
  intros H. revert k. induction H as [|x l [y Hy] _ IH]; intros k; [done|].
  destruct k as [|k]; cbn [omap list_omap delete list_delete]; rewrite Hy; [done|].
  cbn [delete list_delete]. f_equal. apply IH.
Qed.

Lemma omap_resolved_length (l : list A) :
  Forall (fun x => is_Some (f x)) l -> length (omap f l) = length l.
Proof.
  induction 1 as [|x l [y Hy] _ IH]; [done|].
  cbn [omap list_omap]. rewrite Hy. simpl. by f_equal.
Qed.

End Resolve.

Section Unique.

Implicit Types (ts : list Tab) (t : Tab).

Lemma filter_id_absent ts (a : option Z) :
  (∀ t, t ∈ ts -> Some (id t) ≠ a) -> filter (fun t => Some (id t) = a) ts = [].
Proof.
  induction ts as [|t0 ts IH]; intros H; [done|].
  rewrite filter_cons_False by (apply H, elem_of_cons; by left).
  apply IH. intros t Ht. apply H, elem_of_cons. by right.
Qed.

(** With pairwise distinct ids, the tabs of a given id are at most one. *)
Lemma filter_id_unique ts k t :
  NoDup (id <$> ts) -> ts !! k = Some t ->
  filter (fun t' => Some (id t') = Some (id t)) ts = [t].
Proof.
  revert k. induction ts as [|t0 ts IH]; intros k Hnd Hk; [done|].
  rewrite fmap_cons in Hnd. apply NoDup_cons in Hnd as [Hnotin Hnd].
  destruct k as [|k]; simpl in Hk.
  - injection Hk as ->. rewrite filter_cons_True by done. f_equal.
    apply filter_id_absent. intros t' Ht' [= Heq]. apply Hnotin.
    rewrite <- Heq. by apply list_elem_of_fmap_2.
  - rewrite filter_cons_False; [by apply (IH k)|].
    intros [= Heq]. apply Hnotin. rewrite Heq.
    apply list_elem_of_fmap_2. by apply list_elem_of_lookup_2 in Hk.
Qed.

End Unique.

Section CloseActive.
Import Samples.

Implicit Types (st : State) (i : Z) (r : ref).

Lemma spliced_recs i index st : recs (spliced i index st) = recs st.
Proof. done. Qed.

Lemma spliced_tab_records i index st :
  Forall (fun r => is_Some (recs st !! r)) (tabs_list st) ->
  tab_records (spliced i index st) = delete index (tab_records st).
Proof.
  intros H. unfold tab_records. rewrite spliced_tabs_list, spliced_recs.
  by apply omap_resolved_delete.
Qed.

Lemma findIndex_lookup st i index r :
  findIndex st i = Some (index, r) -> tabs_list st !! index = Some r ∧ has_id (recs st) i r.
Proof. unfold findIndex. intros H%list_find_Some. tauto. Qed.

(** Tabs A, B, C with B active: closing B activates C.  With C active:
    closing C activates B. *)
Example closeTab_B_activates_C :
  tab_ids shell_ABC_at_B = [1; 2; 3] ∧ activeTabId shell_ABC_at_B = Some 2
  ∧ tab_ids (closeTab 2 shell_ABC_at_B) = [1; 3]
  ∧ activeTabId (closeTab 2 shell_ABC_at_B) = Some 3
  ∧ urlInput (doc (closeTab 2 shell_ABC_at_B)) = Some (lit "https://c.example")
  ∧ placeholder (doc (closeTab 2 shell_ABC_at_B)) = Some DisplayNone
  ∧ (fun w => (wv_id w, wv_active w)) <$> webviews (closeTab 2 shell_ABC_at_B)
    = [(1, false); (3, true)].
Proof. do 6 (split; [vm_compute; reflexivity|]). vm_compute. reflexivity. Qed.

Example closeTab_C_activates_B :
  tab_ids shell_ABC = [1; 2; 3] ∧ activeTabId shell_ABC = Some 3
  ∧ tab_ids (closeTab 3 shell_ABC) = [1; 2]
  ∧ activeTabId (closeTab 3 shell_ABC) = Some 2
  ∧ urlInput (doc (closeTab 3 shell_ABC)) = Some []
  ∧ placeholder (doc (closeTab 3 shell_ABC)) = Some DisplayFlex
  ∧ (fun w => (wv_id w, wv_active w)) <$> webviews (closeTab 3 shell_ABC)
    = [(1, false); (2, true)].
Proof. do 6 (split; [vm_compute; reflexivity|]). vm_compute. reflexivity. Qed.

End CloseActive.

(** ** Switching to an id no tab has *)

Section SwitchUnknown.
Import Samples.

Implicit Types (st : State) (i : Z).

Lemma find_None_records st i :
  find st i = None -> ∀ t, t ∈ tab_records st -> id t ≠ i.
Proof.
  unfold find, findIndex. intros Hfind t Ht.
  apply fmap_None in Hfind. rewrite list_find_None in Hfind.
  unfold tab_records in Ht. apply list_elem_of_omap in Ht as (r & Hr & Hrt).
  intros Hid. apply (proj1 (Forall_forall _ _) Hfind r Hr).
  unfold has_id. rewrite Hrt. simpl. by f_equal.
Qed.

(** C5, as the code has it.  [switchTab] with an id that no tab of the
    collection has makes that id the active id, leaves the tab objects
    and the collection as they are, so that no tab is active, and then
    sets the address bar to the empty string and displays the
    placeholder as [flex]. *)
Theorem switchTab_unknown_id st i :
  find st i = None ->
  let st' := switchTab i st in
  activeTabId st' = Some i
  ∧ recs st' = recs st
  ∧ tabs_list st' = tabs_list st
  ∧ active_tabs st' = []
  ∧ urlInput (doc st') = assign [] (urlInput (doc st))
  ∧ placeholder (doc st') = assign DisplayFlex (placeholder (doc st)).
Proof.
  intros Hfind st'. unfold st'.
  assert (Hfind' : find (with_activeTabId (Some i) st) i = None) by done.
  repeat split; autorewrite with shell; try done.
  - unfold active_tabs. autorewrite with shell.
    apply filter_id_absent. intros t Ht [= Heq].
    by apply (find_None_records _ _ Hfind t Ht).
  - by rewrite Hfind.
  - by rewrite Hfind.
Qed.

Lemma switchTab_unknown_id_witness :
  let st' := switchTab 99 shell_A in
  activeTabId st' = Some 99
  ∧ recs st' = recs shell_A
  ∧ tabs_list st' = tabs_list shell_A
  ∧ active_tabs st' = []
  ∧ urlInput (doc st') = assign [] (urlInput (doc shell_A))
  ∧ placeholder (doc st') = assign DisplayFlex (placeholder (doc shell_A)).
Proof.
  apply (switchTab_unknown_id shell_A 99). vm_compute. reflexivity.
Defined.

(** The address bar and the placeholder do change: the shell shows
    [https://a.example] with the placeholder hidden; after [switchTab(99)]
    the address bar is empty and the placeholder is displayed. *)
Lemma switchTab_unknown_id_changes_toolbar :
  find shell_A 99 = None
  ∧ urlInput (doc shell_A) = Some (lit "https://a.example")
  ∧ urlInput (doc (switchTab 99 shell_A)) = Some []
  ∧ placeholder (doc shell_A) = Some DisplayNone
  ∧ placeholder (doc (switchTab 99 shell_A)) = Some DisplayFlex
  ∧ ¬ (∀ st i, find st i = None ->
         urlInput (doc (switchTab i st)) = urlInput (doc st)
         ∧ placeholder (doc (switchTab i st)) = placeholder (doc st)).
Proof.
  do 5 (split; [vm_compute; reflexivity|]).
  intros H. destruct (H shell_A 99) as [Hurl _]; [vm_compute; reflexivity|].
  vm_compute in Hurl. discriminate.
Qed.

End SwitchUnknown.

(** ** The tab strip *)

Section TabStrip.
Import Samples.

Implicit Types (st : State) (t : Tab).

Lemma omap_lookups {A B} (f : A -> option B) (l : list A) (ys : list B) :
  Forall2 (fun x y => f x = Some y) l ys -> omap f l = ys.
Proof.
  induction 1 as [|x y l ys Hr _ IH]; [done|].
  cbn [omap list_omap]. rewrite Hr. cbn. by rewrite IH.
Qed.

(** C9.  Let [this.tabs] hold the tab objects [ts], in order.  When the
    strip is rendered, its markup is the concatenation, over [ts], of a
    fixed opening text that ends with the opening tag of the title span,
    the escaped title, and a closing text that begins with the closing
    tag of the span.  Escaping works character by character: [&], [<],
    [>] and the no-break space become [&amp;], [&lt;], [&gt;] and
    [&nbsp;], every other character stays.  So the escaped title
    contains neither [<] nor [>]: no tag can begin inside the span. *)
Theorem _renderTabs_escapes_titles st old (l : list ref) (ts : list Tab) :
  tabsContainer (doc st) = Some old ->
  showTabs (options st) = true ->
  arrs st !! tabs st = Some l ->
  Forall2 (fun r t => recs st !! r = Some t) l ts ->
  tabsContainer (doc (_renderTabs st))
  = Some (concat ((fun t => tab_open (activeTabId st) (id t)
                            ++ _escapeHtml (title t)
                            ++ tab_close (id t)) <$> ts))
  ∧ (∀ a i, lit "<span class=" ++ dq ++ lit "wm-tab-title" ++ dq ++ lit ">"
              `suffix_of` tab_open a i
            ∧ lit "</span>" `prefix_of` tab_close i)
  ∧ (∀ text, Forall (fun c => c ≠ 60%N ∧ c ≠ 62%N) (_escapeHtml text))
  ∧ (∀ c, _escapeHtml [c]
          = if (c =? 38)%N then lit "&amp;"
            else if (c =? 160)%N then lit "&nbsp;"
            else if (c =? 60)%N then lit "&lt;"
            else if (c =? 62)%N then lit "&gt;"
            else [c])
  ∧ (∀ s1 s2, _escapeHtml (s1 ++ s2) = _escapeHtml s1 ++ _escapeHtml s2)
  ∧ _escapeHtml (lit "<b>") = lit "&lt;b&gt;".
Proof.
  intros Hc Hshow Hl Hts. split; [|split; [|split; [|split; [|split]]]].
  - unfold _renderTabs. rewrite Hc, Hshow. cbn [negb doc with_doc tabsContainer
      with_tabsContainer]. do 2 f_equal.
    unfold strip_markup, tab_records, tabs_list. rewrite Hl. cbn [default].
    unfold Datatypes.id. by rewrite (omap_lookups _ _ _ Hts).
  - intros a i. split.
    + exists (nl ++ lit "      <div class=" ++ dq ++ lit "wm-tab "
                ++ (if bool_decide (Some i = a) then lit "active" else [])
                ++ dq ++ lit " data-tab-id=" ++ dq ++ string_of_Z i ++ dq ++ lit ">"
                ++ nl ++ lit "        ").
      unfold tab_open. rewrite <- !(assoc_L (++)). reflexivity.
    + eexists. unfold tab_close. reflexivity.
  - apply serialize_text_no_markup.
  - intros c. unfold _escapeHtml, serialize_text. cbn [flat_map].
    by rewrite app_nil_r.
  - intros s1 s2. unfold _escapeHtml, serialize_text. apply flat_map_app.
  - by vm_compute.
Qed.

Lemma _renderTabs_escapes_titles_witness :
  tabsContainer (doc (_renderTabs shell_titled))
  = Some (concat ((fun t => tab_open (activeTabId shell_titled) (id t)
                            ++ _escapeHtml (title t)
                            ++ tab_close (id t)) <$> [MoreSamples.tab_titled]))
  ∧ (∀ a i, lit "<span class=" ++ dq ++ lit "wm-tab-title" ++ dq ++ lit ">"
              `suffix_of` tab_open a i
            ∧ lit "</span>" `prefix_of` tab_close i)
  ∧ (∀ text, Forall (fun c => c ≠ 60%N ∧ c ≠ 62%N) (_escapeHtml text))
  ∧ (∀ c, _escapeHtml [c]
          = if (c =? 38)%N then lit "&amp;"
            else if (c =? 160)%N then lit "&nbsp;"
            else if (c =? 60)%N then lit "&lt;"
            else if (c =? 62)%N then lit "&gt;"
            else [c])
  ∧ (∀ s1 s2, _escapeHtml (s1 ++ s2) = _escapeHtml s1 ++ _escapeHtml s2)
  ∧ _escapeHtml (lit "<b>") = lit "&lt;b&gt;".
Proof.
  apply (_renderTabs_escapes_titles shell_titled
           (default [] (tabsContainer (doc shell_titled))) [1%positive]
           [MoreSamples.tab_titled]).
  - vm_compute. reflexivity.
  - vm_compute. reflexivity.
  - vm_compute. reflexivity.
  - constructor; [vm_compute; reflexivity | constructor].
Defined.

(** The strip of the shell whose page reported the title [<b>]: the
    markup holds the escaped title, and the only [<]s around it are
    those of the template. *)
Example strip_of_shell_titled :
  title <$> tab_records shell_titled = [lit "<b>"]
  ∧ tabsContainer (doc shell_titled)
    = Some (tab_open (Some 1) 1 ++ lit "&lt;b&gt;" ++ tab_close 1)
  ∧ tabsContainer (doc (_renderTabs shell_titled)) = tabsContainer (doc shell_titled).
Proof. split; [|split]; vm_compute; reflexivity. Qed.

End TabStrip.

(** ** The array [getTabs] returns *)

Section GetTabs.
Import Samples.

Implicit Types (st : State) (r : ref).

Lemma getTabs_fresh st : arrs st !! fst (getTabs st) = None.
Proof. apply not_elem_of_dom, is_fresh. Qed.

Lemma getCurrentUrl_ext st1 st2 :
  activeTabId st1 = activeTabId st2 ->
  tabs_list st1 = tabs_list st2 ->
  recs st1 = recs st2 ->
  getCurrentUrl st1 = getCurrentUrl st2.
Proof.
  intros Ha Hl Hr. unfold getCurrentUrl, url_or_empty, find, findIndex.
  by rewrite Ha, Hl, Hr.
Qed.

(** C6, as the code has it.  [getTabs] returns a new array with the
    elements of [this.tabs].  Whatever is done to the structure of that
    array, the collection of the shell, the tab objects and the current
    address stay what they were, and a later [getTabs] returns the same
    elements.  The elements themselves are the tab objects of the shell:
    an assignment to one of them through the returned array is an
    assignment to the tab of the shell. *)
Theorem getTabs_copies_the_array_only st (f : list ref -> list ref) :
  is_Some (arrs st !! tabs st) ->
  let copy := fst (getTabs st) in
  let st1 := snd (getTabs st) in
  let st2 := array_update copy f st1 in
  copy ≠ tabs st
  ∧ arrs st1 !! copy = Some (tabs_list st)
  ∧ tabs_list st2 = tabs_list st
  ∧ tab_records st2 = tab_records st
  ∧ getCurrentUrl st2 = getCurrentUrl st
  ∧ arrs (snd (getTabs st2)) !! fst (getTabs st2) = Some (tabs_list st)
  ∧ ∀ r g, recs (tab_update r g st1) !! r = g <$> recs st !! r.
Proof.
  intros [l Hl] copy st1 st2.
  assert (Hne : copy ≠ tabs st).
  { intros Heq. pose proof (getTabs_fresh st) as Hf. fold copy in Hf. congruence. }
  assert (Hlist : tabs_list st2 = tabs_list st).
  { unfold tabs_list, st2, array_update, st1, getTabs. simpl. fold copy.
    by rewrite lookup_alter_ne, lookup_insert_ne by done. }
  assert (Hrecs : recs st2 = recs st) by done.
  split; [done|]. split; [|split; [done|split; [|split; [|split]]]].
  - unfold st1, getTabs. simpl. fold copy. by rewrite lookup_insert_eq.
  - unfold tab_records. by rewrite Hlist, Hrecs.
  - by apply getCurrentUrl_ext.
  - unfold getTabs at 1. simpl. by rewrite lookup_insert_eq, Hlist.
  - intros r g. unfold tab_update. simpl. by rewrite lookup_alter_eq.
Qed.

Lemma getTabs_copies_the_array_only_witness :
  let copy := fst (getTabs shell_ABC) in
  let st1 := snd (getTabs shell_ABC) in
  let st2 := array_update copy (fun _ => []) st1 in
  copy ≠ tabs shell_ABC
  ∧ arrs st1 !! copy = Some (tabs_list shell_ABC)
  ∧ tabs_list st2 = tabs_list shell_ABC
  ∧ tab_records st2 = tab_records shell_ABC
  ∧ getCurrentUrl st2 = getCurrentUrl shell_ABC
  ∧ arrs (snd (getTabs st2)) !! fst (getTabs st2) = Some (tabs_list shell_ABC)
  ∧ ∀ r g, recs (tab_update r g st1) !! r = g <$> recs shell_ABC !! r.
Proof.
  apply (getTabs_copies_the_array_only shell_ABC (fun _ => [])).
  vm_compute. eexists. reflexivity.
Defined.

(** A caller takes the array, reads its last element and assigns to the
    [url] property of that object: the shell now reports the assigned
    address as its current one. *)
Lemma getTabs_shares_the_tab_objects :
  let copy := fst (getTabs shell_ABC) in
  let st1 := snd (getTabs shell_ABC) in
  arrs st1 !! copy = Some [1%positive; 2%positive; 3%positive]
  ∧ getCurrentUrl st1 = lit "https://c.example"
  ∧ getCurrentUrl (tab_update 3%positive (set_url (lit "https://evil.example")) st1)
    = lit "https://evil.example"
  ∧ ¬ (∀ st r g, r ∈ default [] (arrs (snd (getTabs st)) !! fst (getTabs st)) ->
         getCurrentUrl (tab_update r g (snd (getTabs st))) = getCurrentUrl st).
Proof.
  do 3 (split; [vm_compute; reflexivity|]).
  intros H.
  specialize (H shell_ABC 3%positive (set_url (lit "https://evil.example"))).
  assert (Hin : 3%positive ∈ default [] (arrs (snd (getTabs shell_ABC))
                                           !! fst (getTabs shell_ABC))).
  { apply (bool_decide_unpack _). vm_compute. exact I. }
  specialize (H Hin). vm_compute in H. discriminate.
Qed.

End GetTabs.

(** ** The invariant of the collection *)

Section Invariant.

Implicit Types (st : State) (i : Z) (r : ref) (u : jstring).

Lemma wf_ext st1 st2 :
  arrs st2 = arrs st1 -> tabs st2 = tabs st1 -> recs st2 = recs st1 ->
  tabCounter st2 = tabCounter st1 ->
  wf st1 -> wf st2.
Proof.
  unfold wf, tab_ids, tab_records, tabs_list. by intros -> -> -> ->.
Qed.

Lemma wf_constructor opts : wf (constructor opts).
Proof.
  unfold wf, tab_ids, tab_records, tabs_list. simpl.
  rewrite lookup_singleton_eq. simpl.
  split; [by eexists|]. split; [constructor|]. split; [constructor|].
  split; [constructor | done].
Qed.

Lemma omap_ext_in {A B} (f g : A -> option B) (l : list A) :
  (∀ x, x ∈ l -> f x = g x) -> omap f l = omap g l.
Proof.
  induction l as [|x l IH]; intros H; [done|].
  cbn [omap list_omap]. rewrite (H x) by (apply elem_of_cons; by left).
  rewrite IH; [done|]. intros y Hy. apply H, elem_of_cons. by right.
Qed.

(** What [newTab] does to the instance, whether or not it reaches the
    end. *)
Lemma newTab_spec u st :
  let i := tabCounter st + 1 in
  let tab := fresh (dom (recs st)) in
  let st' := state_of (newTab u st) in
  recs st' = <[tab := mkTab i u (lit "New Tab")]> (recs st)
  ∧ arrs st' = <[tabs st := tabs_list st ++ [tab]]> (arrs st)
  ∧ tabs st' = tabs st
  ∧ tabCounter st' = i
  ∧ options st' = options st
  ∧ initialized st' = initialized st
  ∧ match content (doc st) with
    | Some _ => newTab u st = Returned i st' ∧ is_Some (content (doc st'))
    | None => newTab u st = Threw TypeError st' ∧ content (doc st') = None
    end.
Proof.
  unfold newTab. cbv zeta. cbn [doc with_arrs with_recs with_tabCounter].
  destruct (content (doc st)) as [ws|] eqn:Hc; cbn [state_of].
  - autorewrite with shell. repeat split; done.
  - repeat split; done.
Qed.

Lemma newTab_tabs_list u st :
  tabs_list (state_of (newTab u st)) = tabs_list st ++ [fresh (dom (recs st))].
Proof.
  destruct (newTab_spec u st) as (_ & Ha & Ht & _).
  unfold tabs_list at 1. by rewrite Ha, Ht, lookup_insert_eq.
Qed.

Lemma newTab_tab_records u st :
  Forall (fun r => is_Some (recs st !! r)) (tabs_list st) ->
  tab_records (state_of (newTab u st))
  = tab_records st ++ [mkTab (tabCounter st + 1) u (lit "New Tab")].
Proof.
  intros Hrefs. destruct (newTab_spec u st) as (Hr & _).
  unfold tab_records. rewrite newTab_tabs_list, Hr, omap_app. f_equal.
  - apply omap_ext_in. intros r Hin. apply lookup_insert_ne. intros <-.
    apply (proj1 (Forall_forall _ _) Hrefs) in Hin as [t Ht].
    pose proof (is_fresh (dom (recs st))) as Hf.
    apply not_elem_of_dom in Hf. congruence.
  - cbn [omap list_omap]. by rewrite lookup_insert_eq.
Qed.

Lemma wf_newTab u st : wf st -> wf (state_of (newTab u st)).
Proof.
  intros (Harr & Hrefs & Hnd & Hbound & Hpos).
  destruct (newTab_spec u st) as (Hr & Ha & Ht & Hc & _).
  unfold wf, tab_ids. rewrite newTab_tab_records, newTab_tabs_list by done.
  rewrite Ha, Ht, Hr, Hc, fmap_app. simpl.
  split; [rewrite lookup_insert_eq; by eexists|]. split; [|split; [|split]].
  - apply Forall_app. split.
    + eapply Forall_impl; [exact Hrefs|]. intros r [t Hrt]. simpl.
      destruct (decide (fresh (dom (recs st)) = r)) as [->|Hne].
      * rewrite lookup_insert_eq. by eexists.
      * rewrite lookup_insert_ne by done. by eexists.
    + constructor; [|constructor]. rewrite lookup_insert_eq. by eexists.
  - apply NoDup_app. split; [done|]. split; [|apply NoDup_singleton].
    intros j Hj ->%list_elem_of_singleton.
    apply (proj1 (Forall_forall _ _) Hbound) in Hj. lia.
  - apply Forall_app. split.
    + eapply Forall_impl; [exact Hbound|]. simpl. intros j Hj. lia.
    + constructor; [lia | constructor].
  - lia.
Qed.

Lemma ids_alter (m : gmap ref Tab) (f : Tab -> Tab) tab (l : list ref) :
  (∀ t, id (f t) = id t) ->
  id <$> omap (fun r => alter f tab m !! r) l = id <$> omap (fun r => m !! r) l.
Proof.
  intros Hf. induction l as [|r l IH]; [done|]. cbn [omap list_omap].
  destruct (decide (tab = r)) as [->|Hne].
  - rewrite lookup_alter_eq. destruct (m !! r); csimpl; by rewrite ?IH, ?Hf.
  - rewrite lookup_alter_ne by done. destruct (m !! r); csimpl; by rewrite ?IH.
Qed.

(** Assignments to [url] and [title] of a tab object keep the invariant. *)
Lemma wf_tab_update r f st :
  (∀ t, id (f t) = id t) -> wf st -> wf (tab_update r f st).
Proof.
  intros Hf (Harr & Hrefs & Hnd & Hbound & Hpos).
  unfold wf, tab_ids, tab_records, tabs_list, tab_update. simpl.
  fold (tabs_list st). rewrite ids_alter by done.
  split; [done|]. split; [|done].
  eapply Forall_impl; [exact Hrefs|]. simpl. intros x [t Ht].
  destruct (decide (r = x)) as [->|Hne].
  - rewrite lookup_alter_eq, Ht. by eexists.
  - rewrite lookup_alter_ne, Ht by done. by eexists.
Qed.

Lemma wf_closeTab i st : wf st -> wf (closeTab i st).
Proof.
  intros Hwf. destruct (findIndex st i) as [[index r]|] eqn:Hfind;
    [|by rewrite closeTab_not_found].
  destruct Hwf as (Harr & Hrefs & Hnd & Hbound & Hpos).
  assert (Hrecords : tab_records (closeTab i st) = delete index (tab_records st)).
  { unfold tab_records. rewrite (closeTab_tabs_list _ _ _ _ Hfind), closeTab_recs.
    by apply omap_resolved_delete. }
  unfold wf, tab_ids. rewrite Hrecords, list_fmap_delete.
  rewrite (closeTab_tabs_list _ _ _ _ Hfind), closeTab_recs, closeTab_tabCounter.
  split; [|split; [|split; [|split]]].
  - assert (Hlist := closeTab_tabs_list _ _ _ _ Hfind).
    unfold tabs_list in Hlist at 1.
    destruct (arrs (closeTab i st) !! tabs (closeTab i st)) eqn:E; [by eexists|].
    rewrite closeTab_unfold, Hfind in E. cbv zeta in E.
    repeat case_match; autorewrite with shell in E; simpl in E;
      by rewrite lookup_insert_eq in E.
  - by apply Forall_delete.
  - apply (sublist_NoDup _ _ Hnd), sublist_delete.
  - by apply Forall_delete.
  - done.
Qed.

Lemma wf_switchTab i st : wf st -> wf (switchTab i st).
Proof. apply wf_ext; by autorewrite with shell. Qed.

Lemma wf_getTabs st : wf st -> wf (snd (getTabs st)).
Proof.
  intros Hwf. pose proof Hwf as ([l Hl] & _).
  assert (Hne : fresh (dom (arrs st)) ≠ tabs st).
  { intros Heq. pose proof (is_fresh (dom (arrs st))) as Hf.
    apply not_elem_of_dom in Hf. congruence. }
  destruct Hwf as (Harr & Hrefs & Hnd & Hbound & Hpos).
  unfold wf, tab_ids, tab_records, tabs_list, getTabs in *. simpl.
  by rewrite lookup_insert_ne.
Qed.

Lemma wf_load u st : wf st -> wf (state_of (load u st)).
Proof.
  intros Hwf. unfold load. destruct (activeTabId st) as [a|].
  - destruct (find st a) as [tab|]; cbn [state_of].
    + apply (wf_ext (tab_update tab (set_url u) st)); try done.
      by apply wf_tab_update.
    + by apply (wf_ext st).
  - pose proof (wf_newTab u st Hwf) as Hnew.
    destruct (newTab u st); cbn [state_of] in *; [by eapply wf_ext | done].
Qed.

Lemma wf_navigate input st : wf st -> wf (state_of (navigate input st)).
Proof.
  intros Hwf. unfold navigate. destruct input as [[|c s]|]; [done| |done].
  destruct (resolve (c :: s)); [done | by apply wf_load].
Qed.

Lemma wf_init st : wf st -> wf (state_of (init st)).
Proof.
  intros Hwf. unfold init. destruct (initialized st); [done|].
  destruct (negb (container (options st))); [done|]. cbv zeta.
  set (st1 := with_doc (mounted (options st)) st).
  assert (Hwf1 : wf st1) by by eapply wf_ext.
  pose proof (wf_newTab (startUrl (options st1)) st1 Hwf1) as Hnew.
  destruct (newTab (startUrl (options st1)) st1); cbn [state_of] in *;
    [by eapply wf_ext | done].
Qed.

(** The listeners assign to [url] and [title] only. *)
Lemma wf_listeners tab code text st :
  wf st ->
  wf (did_start_loading tab st) ∧ wf (did_stop_loading tab st)
  ∧ wf (did_fail_load tab code text st)
  ∧ wf (page_title_updated tab text st) ∧ wf (did_navigate tab text st).
Proof.
  intros Hwf. split; [|split; [|split; [|split]]].
  - unfold did_start_loading. cbv zeta. case_match; by eapply wf_ext.
  - unfold did_stop_loading. cbv zeta. case_match; by eapply wf_ext.
  - unfold did_fail_load. repeat case_match; by eapply wf_ext.
  - unfold page_title_updated. cbv zeta.
    set (shown := match text with [] => lit "Untitled" | _ => text end).
    pose proof (wf_tab_update tab (set_title shown) st (fun _ => eq_refl) Hwf) as H.
    case_match; apply (wf_ext (tab_update tab (set_title shown) st)); try done;
      unfold log; cbn [arrs recs tabs tabCounter with_calls]; by autorewrite with shell.
  - unfold did_navigate. cbv zeta.
    pose proof (wf_tab_update tab (set_url text) st (fun _ => eq_refl) Hwf) as H.
    repeat case_match; by apply (wf_ext (tab_update tab (set_url text) st)).
Qed.

End Invariant.

(** ** Sequences of calls *)

Section Traces.
Import Samples.

Implicit Types (st : State) (t : Trace) (op : Op) (ops : list Op).

Lemma init_reaches_newTab st :
  initialized st = false -> container (options st) = true ->
  let st1 := with_doc (mounted (options st)) st in
  ∃ st', newTab (startUrl (options st)) st1 = Returned (tabCounter st + 1) st'
         ∧ st' = state_of (newTab (startUrl (options st)) st1)
         ∧ init st = Returned () (with_initialized true st')
         ∧ is_Some (content (doc st')).
Proof.
  intros Hi Hc st1.
  destruct (newTab_spec (startUrl (options st)) st1) as (_ & _ & _ & _ & _ & _ & H).
  change (content (doc st1)) with (Some (@nil Webview)) in H. destruct H as [Hn Hsome].
  eexists. split; [exact Hn|]. split; [done|]. split; [|done].
  unfold init. rewrite Hi, Hc. cbn [negb]. cbv zeta.
  change (options (with_doc (mounted (options st)) st)) with (options st).
  fold st1. rewrite Hn. cbn [state_of]. reflexivity.
Qed.

Lemma closeTab_content i st :
  is_Some (content (doc st)) -> is_Some (content (doc (closeTab i st))).
Proof.
  intros [ws Hws]. rewrite closeTab_unfold.
  destruct (findIndex st i) as [[index r]|]; [|by eexists].
  cbv zeta. repeat case_match; autorewrite with shell; simpl; rewrite Hws; by eexists.
Qed.

Lemma step_inv t op : trace_inv t -> trace_inv (step t op).
Proof.
  intros (Hwf & Hsorted & Hret & Hlen & Hcount).
  assert (Hnew : ∀ u st, wf st -> tabCounter st = tabCounter (final t) ->
                         tabs_list st = tabs_list (final t) ->
                         trace_inv (after_newTab (newTab u st) t)).
  { intros u st Hwf' Hc Hl.
    pose proof (wf_newTab u st Hwf') as Hwf''.
    pose proof (newTab_tabs_list u st) as Hlist.
    destruct (newTab_spec u st) as (_ & _ & _ & Hcnt & _ & _ & Hout).
    assert (Hret' : Forall (fun i => 0 < i <= tabCounter (state_of (newTab u st)))
                           (returned t)).
    { eapply Forall_impl; [exact Hret|]. simpl. intros j Hj. lia. }
    assert (Hlen' : (length (tabs_list (state_of (newTab u st))) + closed t
                     = S (opened t))%nat).
    { rewrite Hlist, length_app, Hl. simpl. lia. }
    destruct (content (doc st)); destruct Hout as [Hout _]; rewrite Hout in *;
      cbn [state_of after_newTab] in *; unfold trace_inv; cbn [final returned opened closed].
    - split; [done|]. split; [|split; [|split; [done | lia]]].
      + apply StronglySorted_app_2; [|done|repeat constructor].
        intros j k Hj ->%list_elem_of_singleton.
        apply (proj1 (Forall_forall _ _) Hret) in Hj. lia.
      + apply Forall_app. split; [done|]. constructor; [lia | constructor].
    - split; [done|]. split; [done|]. split; [done|]. split; [done | lia]. }
  destruct op as [|u|i]; cbn [step].
  - destruct (initialized (final t) || negb (container (options (final t)))) eqn:Hguard.
    + by unfold trace_inv.
    + apply orb_false_iff in Hguard as [Hi Hc]. apply negb_false_iff in Hc.
      destruct (init_reaches_newTab _ Hi Hc) as (st' & Hn & Hst' & Hinit & _).
      cbv zeta in *. rewrite Hinit.
      set (st1 := with_doc (mounted (options (final t))) (final t)) in *.
      change (options st1) with (options (final t)).
      specialize (Hnew (startUrl (options (final t))) st1).
      rewrite Hn in *. cbn [after_newTab state_of returned opened closed] in *.
      destruct Hnew as (Hwf1 & Hs1 & Hr1 & Hl1 & Hc1); [by eapply wf_ext | done | done|].
      cbn [final returned opened closed] in *.
      split; [by eapply wf_ext|]. repeat split; done.
  - by apply Hnew.
  - unfold trace_inv. cbn [final returned opened closed].
    rewrite closeTab_tabCounter.
    split; [by apply wf_closeTab|]. split; [done|]. split; [done|].
    split; [|done].
    destruct (findIndex (final t) i) as [[index r]|] eqn:Hfind.
    + rewrite (closeTab_tabs_list _ _ _ _ Hfind).
      apply findIndex_lookup in Hfind as [Hr _].
      rewrite length_delete by eauto.
      apply lookup_lt_Some in Hr. lia.
    + by rewrite closeTab_not_found.
Qed.

Lemma step_mounted t op : trace_mounted t -> trace_mounted (step t op).
Proof.
  intros [[ws Hws] Hlen]. unfold trace_mounted.
  destruct op as [|u|i]; cbn [step].
  - destruct (initialized (final t) || negb (container (options (final t)))) eqn:Hguard.
    + split; [by eexists | done].
    + apply orb_false_iff in Hguard as [Hi Hc]. apply negb_false_iff in Hc.
      destruct (init_reaches_newTab _ Hi Hc) as (st' & Hn & Hst' & Hinit & Hsome).
      cbv zeta in *. rewrite Hinit.
      change (options (with_doc (mounted (options (final t))) (final t)))
        with (options (final t)).
      rewrite Hn. cbn [after_newTab state_of final returned opened closed].
      split; [done|]. rewrite length_app. simpl. lia.
  - destruct (newTab_spec u (final t)) as (_ & _ & _ & _ & _ & _ & Hout).
    rewrite Hws in Hout. destruct Hout as [Hout Hsome]. rewrite Hout in *.
    cbn [after_newTab state_of final returned opened closed] in *.
    split; [done|]. rewrite length_app. simpl. lia.
  - cbn [final returned opened closed]. split; [|done].
    apply closeTab_content. by eexists.
Qed.

Lemma foldl_step_inv ops : ∀ t, trace_inv t -> trace_inv (foldl step t ops).
Proof.
  induction ops as [|op ops IH]; intros t Ht; [done|].
  simpl. by apply IH, step_inv.
Qed.

Lemma foldl_step_mounted ops : ∀ t, trace_mounted t -> trace_mounted (foldl step t ops).
Proof.
  induction ops as [|op ops IH]; intros t Ht; [done|].
  simpl. by apply IH, step_mounted.
Qed.

Lemma run_inv opts ops : trace_inv (run ops (constructor opts)).
Proof.
  apply foldl_step_inv. unfold trace_inv. cbn [final returned opened closed].
  split; [apply wf_constructor|]. repeat split; constructor.
Qed.

(** C4.  Take any sequence of calls of [init], [newTab] and [closeTab]
    on a new instance.  The ids [newTab] has returned are strictly
    increasing, so none is returned twice, whether or not its tab was
    closed in between; all of them, and all ids in the collection, lie
    between 1 and the counter, so the next one is larger than each.  The
    ids in the collection are pairwise distinct.  The collection has as
    many tabs as [newTab] ran minus the calls of [closeTab] that found
    their tab.  Once [init] has mounted the shell, every call of
    [newTab] returns. *)
Theorem newTab_ids_never_reused opts ops :
  let t := run ops (constructor opts) in
  StronglySorted Z.lt (returned t)
  ∧ Forall (fun i => 0 < i <= tabCounter (final t)) (returned t)
  ∧ NoDup (tab_ids (final t))
  ∧ Forall (fun i => 0 < i <= tabCounter (final t)) (tab_ids (final t))
  ∧ length (tab_ids (final t)) = (opened t - closed t)%nat
  ∧ (closed t <= opened t)%nat
  ∧ tabCounter (final t) = Z.of_nat (opened t)
  ∧ (container opts = true -> head ops = Some OpInit -> length (returned t) = opened t).
Proof.
  intros t. destruct (run_inv opts ops) as (Hwf & Hsorted & Hret & Hlen & Hcount).
  fold t in Hwf, Hsorted, Hret, Hlen, Hcount.
  destruct Hwf as (_ & Hrefs & Hnd & Hbound & _).
  assert (Hids : length (tab_ids (final t)) = length (tabs_list (final t))).
  { unfold tab_ids, tab_records. rewrite length_fmap. by apply omap_resolved_length. }
  split; [done|]. split; [done|]. split; [done|]. split; [done|].
  split; [lia|]. split; [lia|]. split; [done|].
  intros Hc Hhead. destruct ops as [|op ops']; [done|]. injection Hhead as ->.
  unfold t, run. cbn [foldl].
  apply foldl_step_mounted. cbn [step final]. change (initialized (constructor opts)) with false.
  change (options (constructor opts)) with opts. rewrite Hc. cbn [orb negb].
  destruct (init_reaches_newTab (constructor opts) eq_refl Hc) as (st' & Hn & _ & Hinit & Hsome).
  cbv zeta in Hn. change (options (constructor opts)) with opts in Hn.
  change (options (with_doc (mounted opts) (constructor opts))) with opts.
  rewrite Hn, Hinit. split; done.
Qed.

Lemma newTab_ids_never_reused_witness :
  let t := run sample_ops (constructor sample_options) in
  StronglySorted Z.lt (returned t)
  ∧ Forall (fun i => 0 < i <= tabCounter (final t)) (returned t)
  ∧ NoDup (tab_ids (final t))
  ∧ Forall (fun i => 0 < i <= tabCounter (final t)) (tab_ids (final t))
  ∧ length (tab_ids (final t)) = (opened t - closed t)%nat
  ∧ (closed t <= opened t)%nat
  ∧ tabCounter (final t) = Z.of_nat (opened t)
  ∧ length (returned t) = opened t.
Proof.
  pose proof (newTab_ids_never_reused sample_options sample_ops) as H.
  cbv zeta in *.
  destruct H as (H1 & H2 & H3 & H4 & H5 & H6 & H7 & H8).
  repeat (split; [assumption|]). apply H8; reflexivity.
Defined.

(** The sample sequence: ids 1, 2, 3 are handed out; closing tab 1
    leaves 2 and 3; the id 7 is no tab's. *)
Example sample_run :
  let t := run sample_ops (constructor sample_options) in
  returned t = [1; 2; 3] ∧ tab_ids (final t) = [2; 3]
  ∧ opened t = 3%nat ∧ closed t = 1%nat.
Proof. repeat split; vm_compute; reflexivity. Qed.

End Traces.

(** ** Navigation *)

Section Navigate.
Import Samples.

Implicit Types (st : State) (input u : jstring).

Lemma _isValidUrl_nonempty input : _isValidUrl input = true -> input ≠ [].
Proof. intros H ->. vm_compute in H. discriminate. Qed.

Lemma navigate_nonempty input st :
  input ≠ [] ->
  navigate (Some input) st
  = match resolve input with inl e => Threw e st | inr u => load u st end.
Proof. by destruct input. Qed.

Lemma has_id_set_url (m : gmap ref Tab) u tab i r :
  has_id (alter (set_url u) tab m) i r <-> has_id m i r.
Proof.
  unfold has_id. destruct (decide (tab = r)) as [->|Hne].
  - rewrite lookup_alter_eq. by destruct (m !! r).
  - by rewrite lookup_alter_ne.
Qed.

Lemma elem_of_tab_ids st a :
  a ∈ tab_ids st -> ∃ r, r ∈ tabs_list st ∧ has_id (recs st) a r.
Proof.
  unfold tab_ids, tab_records. intros (t & -> & Ht)%list_elem_of_fmap.
  apply list_elem_of_omap in Ht as (r & Hr & Hrt).
  exists r. split; [done|]. unfold has_id. by rewrite Hrt.
Qed.

(** With an active tab in the collection, [load] assigns the address to
    that tab. *)
Lemma load_active_tab u st a :
  activeTabId st = Some a -> a ∈ tab_ids st ->
  load u st = Returned () (state_of (load u st))
  ∧ getCurrentUrl (state_of (load u st)) = u
  ∧ tab_ids (state_of (load u st)) = tab_ids st
  ∧ activeTabId (state_of (load u st)) = Some a
  ∧ placeholder (doc (state_of (load u st))) = assign DisplayNone (placeholder (doc st)).
Proof.
  intros Ha Hin. unfold load. rewrite Ha.
  destruct (elem_of_tab_ids _ _ Hin) as (r & Hr & Hid).
  destruct (find st a) as [tab|] eqn:Hfind.
  2:{ unfold find, findIndex in Hfind. apply fmap_None in Hfind.
      rewrite list_find_None in Hfind.
      exfalso. by apply (proj1 (Forall_forall _ _) Hfind r Hr). }
  cbn [state_of]. split; [done|].
  set (m' := alter (set_url u) tab (recs st)).
  assert (Hfind' : list_find (has_id m' a) (tabs_list st)
                   = list_find (has_id (recs st) a) (tabs_list st)).
  { apply list_find_ext. intros x. apply has_id_set_url. }
  unfold find, findIndex in Hfind.
  destruct (list_find (has_id (recs st) a) (tabs_list st)) as [[k x]|] eqn:Hlf;
    [|done].
  injection Hfind as ->.
  apply list_find_Some in Hlf as (_ & Htab & _).
  unfold has_id in Htab. destruct (recs st !! tab) as [t0|] eqn:Ht0; [|done].
  split; [|split; [|split; [done | done]]].
  - unfold getCurrentUrl, find, findIndex, url_or_empty, tabs_list. simpl.
    fold (tabs_list st). fold m'. rewrite Ha, Hfind'. simpl.
    unfold m'. by rewrite lookup_alter_eq, Ht0.
  - unfold tab_ids, tab_records, tabs_list. simpl. by apply ids_alter.
Qed.

Lemma newTab_returned u st ws :
  content (doc st) = Some ws ->
  activeTabId (state_of (newTab u st)) = Some (tabCounter st + 1)
  ∧ ∃ d, placeholder (doc (state_of (newTab u st))) = assign d (placeholder (doc st)).
Proof.
  intros Hws. unfold newTab. cbv zeta. cbn [doc with_arrs with_recs with_tabCounter].
  rewrite Hws. cbn [state_of]. autorewrite with shell. split; [done|].
  eexists. reflexivity.
Qed.

Lemma assign_assign {A} (a b : A) (el : option A) : assign a (assign b el) = assign a el.
Proof. by destruct el. Qed.

(** With no active tab, on a mounted shell, [load] opens a tab on the
    address. *)
Lemma load_no_active_tab u st :
  wf st -> activeTabId st = None -> is_Some (content (doc st)) ->
  load u st = Returned () (state_of (load u st))
  ∧ getCurrentUrl (state_of (load u st)) = u
  ∧ tab_ids (state_of (load u st)) = tab_ids st ++ [tabCounter st + 1]
  ∧ activeTabId (state_of (load u st)) = Some (tabCounter st + 1)
  ∧ placeholder (doc (state_of (load u st))) = assign DisplayNone (placeholder (doc st)).
Proof.
  intros (Harr & Hrefs & Hnd & Hbound & Hpos) Ha [ws Hws].
  pose proof (newTab_tab_records u st Hrefs) as Hrecords.
  pose proof (newTab_tabs_list u st) as Hlist.
  destruct (newTab_spec u st) as (Hr & _ & _ & _ & _ & _ & Hout).
  destruct (newTab_returned u st ws Hws) as (Hact & d & Hph).
  rewrite Hws in Hout. destruct Hout as [Hout _].
  set (i := tabCounter st + 1) in *.
  set (tab := fresh (dom (recs st))) in *.
  unfold load. rewrite Ha, Hout. cbn [state_of].
  set (st' := state_of (newTab u st)) in *.
  split; [done|].
  assert (Hfresh : ∀ r, r ∈ tabs_list st -> tab ≠ r).
  { intros r Hin <-. apply (proj1 (Forall_forall _ _) Hrefs) in Hin as [t Ht].
    pose proof (is_fresh (dom (recs st))) as Hf. fold tab in Hf.
    apply not_elem_of_dom in Hf. congruence. }
  assert (Hnone : list_find (has_id (recs st') i) (tabs_list st) = None).
  { apply list_find_None, Forall_forall. intros r Hin Hid.
    unfold has_id in Hid. rewrite Hr, lookup_insert_ne in Hid by by apply Hfresh.
    destruct (recs st !! r) as [t|] eqn:Ht; [|done]. injection Hid as Hid.
    assert (Hmem : id t ∈ tab_ids st).
    { unfold tab_ids, tab_records. apply list_elem_of_fmap_2, list_elem_of_omap. eauto. }
    apply (proj1 (Forall_forall _ _) Hbound) in Hmem. lia. }
  split; [|split; [|split]].
  - erewrite getCurrentUrl_ext with (st2 := st'); [|done..].
    unfold getCurrentUrl, find, findIndex. rewrite Hact, Hlist.
    rewrite list_find_app_r by done. simpl.
    rewrite decide_True; [|unfold has_id; by rewrite Hr, lookup_insert_eq].
    simpl. unfold url_or_empty. simpl. by rewrite Hr, lookup_insert_eq.
  - unfold tab_ids at 1, tab_records at 1, tabs_list at 1. cbn [recs arrs tabs with_doc].
    fold (tabs_list st') (tab_records st'). rewrite Hrecords, fmap_app. done.
  - done.
  - cbn [doc with_doc placeholder with_placeholder]. by rewrite Hph, assign_assign.
Qed.

(** C2, as the code has it.  An undefined or empty input leaves the
    state as it is.  A non-empty input that matches neither pattern and
    has no unpaired surrogate is loaded as the search address: the fixed
    prefix followed by the percent-encoded input.  An input that matches
    one of the patterns and begins with neither [http://] nor [https://]
    is loaded with [https://] put in front; one that begins with a
    scheme is loaded as it is.  Loading makes the address the current
    one, in the active tab or, when none is active, in a new tab. *)
Theorem navigate_classifies input st :
  navigate None st = Returned () st
  ∧ navigate (Some []) st = Returned () st
  ∧ (input ≠ [] -> _isValidUrl input = false -> well_formed input = true ->
       ∃ q, encodeURIComponent input = Some q
            ∧ resolve input = inr (search_prefix ++ q)
            ∧ navigate (Some input) st = load (search_prefix ++ q) st)
  ∧ (_isValidUrl input = true ->
     ¬ (lit "http://" `prefix_of` input ∨ lit "https://" `prefix_of` input) ->
       resolve input = inr (lit "https://" ++ input)
       ∧ navigate (Some input) st = load (lit "https://" ++ input) st)
  ∧ (_isValidUrl input = true ->
     lit "http://" `prefix_of` input ∨ lit "https://" `prefix_of` input ->
       resolve input = inr input
       ∧ navigate (Some input) st = load input st)
  ∧ (∀ u a, activeTabId st = Some a -> a ∈ tab_ids st ->
       load u st = Returned () (state_of (load u st))
       ∧ getCurrentUrl (state_of (load u st)) = u
       ∧ tab_ids (state_of (load u st)) = tab_ids st)
  ∧ (∀ u, wf st -> activeTabId st = None -> is_Some (content (doc st)) ->
       load u st = Returned () (state_of (load u st))
       ∧ getCurrentUrl (state_of (load u st)) = u
       ∧ tab_ids (state_of (load u st)) = tab_ids st ++ [tabCounter st + 1]).
Proof.
  split; [done|]. split; [done|].
  split; [|split; [|split; [|split]]].
  - intros Hne Hinvalid Hwf.
    apply encodeURIComponent_defined in Hwf as [q Hq]. exists q.
    assert (Hres : resolve input = inr (search_prefix ++ q)).
    { unfold resolve. by rewrite Hinvalid, Hq. }
    by rewrite navigate_nonempty, Hres.
  - intros Hvalid Hscheme. rewrite <- schemePattern_prefix in Hscheme.
    apply not_true_is_false in Hscheme.
    assert (Hres : resolve input = inr (lit "https://" ++ input)).
    { unfold resolve. by rewrite Hvalid, Hscheme. }
    by rewrite navigate_nonempty, Hres by by apply _isValidUrl_nonempty.
  - intros Hvalid Hscheme. rewrite <- schemePattern_prefix in Hscheme.
    assert (Hres : resolve input = inr input).
    { unfold resolve. by rewrite Hvalid, Hscheme. }
    by rewrite navigate_nonempty, Hres by by apply _isValidUrl_nonempty.
  - intros u a Ha Hin. destruct (load_active_tab u st a Ha Hin) as (? & ? & ? & _). done.
  - intros u Hwf Ha Hc. destruct (load_no_active_tab u st Hwf Ha Hc) as (? & ? & ? & _). done.
Qed.

(** On an input with an unpaired surrogate that matches neither pattern
    the encoder throws, and [navigate] lets the exception through with
    the state as it found it. *)
Lemma navigate_rethrows input st :
  input ≠ [] -> _isValidUrl input = false -> well_formed input = false ->
  resolve input = inl URIError ∧ navigate (Some input) st = Threw URIError st.
Proof.
  intros Hne Hinvalid Hwf. apply encodeURIComponent_throws in Hwf.
  assert (Hres : resolve input = inl URIError).
  { unfold resolve. by rewrite Hinvalid, Hwf. }
  by rewrite navigate_nonempty, Hres.
Qed.

Lemma navigate_classifies_witness :
  navigate None shell_A = Returned () shell_A
  ∧ navigate (Some []) shell_A = Returned () shell_A
  ∧ (∃ q, encodeURIComponent (lit "hello world") = Some q
          ∧ resolve (lit "hello world") = inr (search_prefix ++ q)
          ∧ navigate (Some (lit "hello world")) shell_A = load (search_prefix ++ q) shell_A)
  ∧ (resolve (lit "openai.com") = inr (lit "https://" ++ lit "openai.com")
     ∧ navigate (Some (lit "openai.com")) shell_A
       = load (lit "https://" ++ lit "openai.com") shell_A)
  ∧ (resolve (lit "http://localhost:3000/") = inr (lit "http://localhost:3000/")
     ∧ navigate (Some (lit "http://localhost:3000/")) shell_A
       = load (lit "http://localhost:3000/") shell_A)
  ∧ (load (lit "https://openai.com") shell_A
     = Returned () (state_of (load (lit "https://openai.com") shell_A))
     ∧ getCurrentUrl (state_of (load (lit "https://openai.com") shell_A))
       = lit "https://openai.com"
     ∧ tab_ids (state_of (load (lit "https://openai.com") shell_A)) = tab_ids shell_A)
  ∧ (load (lit "https://openai.com") shell_empty
     = Returned () (state_of (load (lit "https://openai.com") shell_empty))
     ∧ getCurrentUrl (state_of (load (lit "https://openai.com") shell_empty))
       = lit "https://openai.com"
     ∧ tab_ids (state_of (load (lit "https://openai.com") shell_empty))
       = tab_ids shell_empty ++ [tabCounter shell_empty + 1]).
Proof.
  pose proof (navigate_classifies [] shell_A) as (Hundef & Hempty & _ & _ & _ & Hact & _).
  pose proof (navigate_classifies (lit "hello world") shell_A)
    as (_ & _ & Hsearch & _).
  pose proof (navigate_classifies (lit "openai.com") shell_A)
    as (_ & _ & _ & Hprepend & _).
  pose proof (navigate_classifies (lit "http://localhost:3000/") shell_A)
    as (_ & _ & _ & _ & Hkeep & _).
  pose proof (navigate_classifies [] shell_empty) as (_ & _ & _ & _ & _ & _ & Hnew).
  split; [exact Hundef|]. split; [exact Hempty|].
  split.
  { apply Hsearch; [discriminate | vm_compute; reflexivity | vm_compute; reflexivity]. }
  split.
  { apply Hprepend;
      [vm_compute; reflexivity | apply (bool_decide_unpack _); vm_compute; exact I]. }
  split.
  { apply Hkeep;
      [vm_compute; reflexivity | apply (bool_decide_unpack _); vm_compute; exact I]. }
  split.
  { apply (Hact (lit "https://openai.com") 1);
      [vm_compute; reflexivity | apply (bool_decide_unpack _); vm_compute; exact I]. }
  apply (Hnew (lit "https://openai.com"));
    [apply (bool_decide_unpack _); vm_compute; exact I
    | vm_compute; reflexivity
    | vm_compute; eexists; reflexivity].
Defined.

(** The three addresses of the specification. *)
Example navigate_examples :
  resolve (lit "openai.com") = inr (lit "https://openai.com")
  ∧ resolve (lit "localhost:3000") = inr (lit "https://localhost:3000")
  ∧ matches localhostPattern (lit "localhost:3000") = true
  ∧ resolve (lit "hello world")
    = inr (lit "https://www.google.com/search?q=hello%20world")
  ∧ getCurrentUrl (state_of (navigate (Some (lit "openai.com")) shell_A))
    = lit "https://openai.com"
  ∧ tab_ids (state_of (navigate (Some (lit "openai.com")) shell_A)) = [1].
Proof. repeat split; vm_compute; reflexivity. Qed.

(** A lone surrogate is a non-empty input that matches neither pattern;
    [navigate] throws on it and no search address results. *)
Lemma navigate_unpaired_surrogate_throws :
  _isValidUrl [0xD800%N] = false
  ∧ resolve [0xD800%N] = inl URIError
  ∧ navigate (Some [0xD800%N]) shell_A = Threw URIError shell_A
  ∧ ¬ (∀ input, input ≠ [] -> _isValidUrl input = false ->
         ∃ u, resolve input = inr u).
Proof.
  split; [vm_compute; reflexivity|]. split; [vm_compute; reflexivity|].
  split; [vm_compute; reflexivity|].
  intros H. destruct (H [0xD800%N]) as [u Hu]; [discriminate | vm_compute; reflexivity|].
  vm_compute in Hu. discriminate.
Qed.

End Navigate.

(* ===================================================================== *)
(** * More on the header stripper                                         *)
(* ===================================================================== *)

Section HeaderMore.
Import Headers Samples.

Implicit Types (σ : gmap ref obj) (m : gmap jstring (list jstring)).

(** The continuation argument and the header set it carries. *)
Lemma handler_result σ details :
  let stripped := foldl (fun m h => delete h m) (read_responseHeaders σ details)
                        headersToRemove in
  ∃ response,
    snd (handler σ details) = [response]
    ∧ fst (handler σ details) !! response = Some (ORecord (Some (fresh (dom σ))))
    ∧ fst (handler σ details) !! fresh (dom σ) = Some (OHeaders stripped)
    ∧ headers_of (fst (handler σ details)) response = Some stripped.
Proof.
  intros stripped. rewrite handler_unfold. cbv zeta. cbn [fst snd]. fold stripped.
  set (headers := fresh (dom σ)).
  set (σ2 := <[headers := OHeaders stripped]> σ).
  assert (Hne : fresh (dom σ2) ≠ headers).
  { intros Heq. pose proof (fresh_lookup σ2) as Hf.
    rewrite Heq in Hf. unfold σ2 in Hf. by rewrite lookup_insert_eq in Hf. }
  assert (H2 : <[fresh (dom σ2) := ORecord (Some headers)]> σ2 !! headers
               = Some (OHeaders stripped)).
  { rewrite lookup_insert_ne by done. unfold σ2. by rewrite lookup_insert_eq. }
  exists (fresh (dom σ2)). split; [done|]. split; [by rewrite lookup_insert_eq|].
  split; [done|]. unfold headers_of. by rewrite lookup_insert_eq, H2.
Qed.

Lemma delete_all_absent names m :
  Forall (fun h => m !! h = None) names -> foldl (fun m h => delete h m) m names = m.
Proof.
  intros H. apply map_eq. intros k. rewrite lookup_delete_all.
  destruct (decide (k ∈ names)) as [Hin|]; [|done].
  symmetry. by apply (proj1 (Forall_forall _ _) H).
Qed.

(** X1.  A response whose header object carries none of the six names
    reaches the continuation with the entries it came with, in a new
    header object. *)
Theorem handler_keeps_clean_response σ details h entries :
  σ !! details = Some (ORecord (Some h)) ->
  σ !! h = Some (OHeaders entries) ->
  Forall (fun k => entries !! k = None) headersToRemove ->
  ∃ response headers,
    snd (handler σ details) = [response]
    ∧ fst (handler σ details) !! response = Some (ORecord (Some headers))
    ∧ fst (handler σ details) !! headers = Some (OHeaders entries)
    ∧ headers ≠ h.
Proof.
  intros Hd Hh Hclean.
  destruct (handler_result σ details) as (response & Hc & Hr & Hs & _).
  rewrite (read_responseHeaders_entries _ _ _ _ Hd Hh) in Hs.
  rewrite delete_all_absent in Hs by done.
  exists response, (fresh (dom σ)). split; [done|]. split; [done|]. split; [done|].
  intros Heq. pose proof (fresh_lookup σ) as Hf. rewrite Heq in Hf. congruence.
Qed.

Lemma handler_keeps_clean_response_witness :
  ∃ response headers,
    snd (handler MoreSamples.clean_heap 1%positive) = [response]
    ∧ fst (handler MoreSamples.clean_heap 1%positive) !! response
      = Some (ORecord (Some headers))
    ∧ fst (handler MoreSamples.clean_heap 1%positive) !! headers
      = Some (OHeaders (<[lit "Cache-Control" := [lit "no-cache"]]> ∅))
    ∧ headers ≠ 2%positive.
Proof.
  apply (handler_keeps_clean_response MoreSamples.clean_heap 1%positive 2%positive
           (<[lit "Cache-Control" := [lit "no-cache"]]> ∅)).
  - reflexivity.
  - reflexivity.
  - repeat constructor.
Defined.

(** X2.  Stripping is idempotent: run on the object it handed to the
    continuation, the handler hands on the same header set. *)
Theorem handler_idempotent σ details :
  ∃ response1 response2 stripped,
    snd (handler σ details) = [response1]
    ∧ snd (handler (fst (handler σ details)) response1) = [response2]
    ∧ headers_of (fst (handler σ details)) response1 = Some stripped
    ∧ headers_of (fst (handler (fst (handler σ details)) response1)) response2
      = Some stripped.
Proof.
  destruct (handler_result σ details) as (response1 & Hc1 & Hr1 & Hh1 & Hs1).
  set (σ1 := fst (handler σ details)) in *.
  destruct (handler_result σ1 response1) as (response2 & Hc2 & _ & _ & Hs2).
  eexists response1, response2, _. split; [done|]. split; [done|]. split; [done|].
  rewrite Hs2. f_equal.
  assert (Hread : read_responseHeaders σ1 response1
                  = foldl (fun m h => delete h m) (read_responseHeaders σ details)
                          headersToRemove).
  { unfold read_responseHeaders at 1. by rewrite Hr1, Hh1. }
  rewrite Hread. apply delete_all_absent, Forall_forall. intros h Hin.
  rewrite lookup_delete_all. by rewrite decide_True.
Qed.

End HeaderMore.

(* ===================================================================== *)
(** * What the patterns accept                                            *)
(* ===================================================================== *)

Section PatternFacts.
Import Patterns Samples.

Implicit Types (r : re) (s : jstring) (c : N).

Lemma lang_classes (P : N -> Prop) r s : lang r s -> classes P r -> Forall P s.
Proof.
  induction 1 as [|neg rs c Hc|r1 r2 s1 s2 _ IH1 _ IH2|r1 r2 s _ IH|r1 r2 s _ IH
                  |r1|r1 s1 s2 _ IH1 _ IH2]; simpl; intros Hcl.
  - constructor.
  - constructor; [by apply Hcl | constructor].
  - destruct Hcl. apply Forall_app. auto.
  - destruct Hcl. auto.
  - destruct Hcl. auto.
  - constructor.
  - apply Forall_app. auto.
Qed.

Lemma lang_firsts (P : N -> Prop) r c s : lang r (c :: s) -> firsts P r -> P c.
Proof.
  remember (c :: s) as w eqn:Hw. intros H. revert c s Hw.
  induction H as [|neg rs c' Hc|r1 r2 s1 s2 H1 IH1 H2 IH2|r1 r2 s' _ IH|r1 r2 s' _ IH
                  |r1|r1 s1 s2 H1 IH1 H2 IH2]; intros c s Hw; simpl; intros Hf;
    try discriminate.
  - injection Hw as -> _. by apply Hf.
  - destruct Hf as [Hf1 Hf2]. destruct s1 as [|c1 s1]; simpl in Hw.
    + eapply IH2; [done|]. apply Hf2. by apply nullable_lang.
    + injection Hw as -> _. eapply IH1; [reflexivity | done].
  - destruct Hf. eapply IH; done.
  - destruct Hf. eapply IH; done.
  - destruct s1 as [|c1 s1]; simpl in Hw.
    + eapply IH2; done.
    + injection Hw as -> _. eapply IH1; [reflexivity | done].
Qed.

Lemma class_mem_ranges rs c :
  class_mem false rs c = true <-> Exists (fun '(lo, hi) => (lo <= c <= hi)%N) rs.
Proof.
  unfold class_mem. simpl. rewrite Exists_exists, existsb_exists. split.
  - intros ([lo hi] & Hin & Hr). exists (lo, hi).
    rewrite <- list_elem_of_In in Hin. by rewrite <- in_range_spec.
  - intros ([lo hi] & Hin & Hr). exists (lo, hi).
    rewrite <- list_elem_of_In. by rewrite in_range_spec.
Qed.

Lemma dot_spec c :
  class_mem true [(10, 10); (13, 13); (0x2028, 0x2029)]%N c = true
  <-> ¬ line_terminator c.
Proof.
  unfold class_mem, line_terminator, in_range. cbn [existsb].
  rewrite !elem_of_cons, elem_of_nil.
  destruct (N.leb_spec 10 c), (N.leb_spec c 10), (N.leb_spec 13 c), (N.leb_spec c 13),
    (N.leb_spec 0x2028 c), (N.leb_spec c 0x2029); simpl; split; try done; lia.
Qed.

Lemma visible_not_terminator c : (33 <= c <= 126)%N -> ¬ line_terminator c.
Proof.
  unfold line_terminator. rewrite !elem_of_cons, elem_of_nil. lia.
Qed.

(** A class given by ranges within the visible ASCII characters. *)
Ltac visible_class :=
  let c := fresh "c" in let H := fresh "H" in
  intros c H; apply class_mem_ranges in H;
  repeat (apply Exists_cons in H as [H|H]; [apply visible_not_terminator; lia|]);
  by apply Exists_nil in H.

Lemma classes_chr (P : N -> Prop) c : P c -> classes P (chr c).
Proof. intros H c' Hc. apply class_mem_single in Hc. by subst. Qed.

Lemma classes_str (P : N -> Prop) w : Forall P w -> classes P (str w).
Proof.
  induction 1 as [|c w Hc _ IH]; [done|]. split; [by apply classes_chr | done].
Qed.

Lemma firsts_chr (P : N -> Prop) c : P c -> firsts P (chr c).
Proof. intros H c' Hc. apply class_mem_single in Hc. by subst. Qed.

Lemma firsts_str (P : N -> Prop) c w : P c -> firsts P (str (c :: w)).
Proof. intros H. split; [by apply firsts_chr | done]. Qed.

(** A closed list of code units without line terminator. *)
Ltac plain_text := apply (bool_decide_unpack _); vm_compute; exact I.

Lemma scheme_classes : classes (fun c => ¬ line_terminator c) scheme.
Proof.
  unfold scheme, opt. cbn [classes].
  split; [apply classes_str; plain_text|].
  split; [split; [apply classes_chr; plain_text | done]|].
  apply classes_str; plain_text.
Qed.

Lemma path_classes : classes (fun c => ¬ line_terminator c) path.
Proof.
  unfold path, opt, dot. cbn [classes].
  split; [|done]. split; [apply classes_chr; plain_text|].
  intros c H. by apply dot_spec.
Qed.

Lemma urlPattern_classes : classes (fun c => ¬ line_terminator c) urlPattern.
Proof.
  unfold urlPattern, opt, plus, at_least_two. cbn [classes].
  split; [split; [apply scheme_classes | done]|].
  split; [|split; [|apply path_classes]].
  - assert (Hlabel : classes (fun c => ¬ line_terminator c)
                       (Cat (Cat (Class false [(97, 122); (65, 90); (48, 57); (45, 45)]%N)
                                 (Star (Class false [(97, 122); (65, 90); (48, 57); (45, 45)]%N)))
                            (chr 46))).
    { cbn [classes]. split; [split; visible_class | apply classes_chr; plain_text]. }
    by split.
  - repeat split; visible_class.
Qed.

Lemma localhostPattern_classes : classes (fun c => ¬ line_terminator c) localhostPattern.
Proof.
  unfold localhostPattern, opt, plus, digit. cbn [classes].
  split; [split; [apply scheme_classes | done]|].
  split; [split; apply classes_str; plain_text|].
  split; [|apply path_classes].
  split; [|done]. split; [apply classes_chr; plain_text|].
  split; visible_class.
Qed.

Ltac host_class :=
  let c := fresh "c" in let H := fresh "H" in
  intros c H; apply class_mem_ranges in H; unfold host_char;
  rewrite !orb_true_iff, !in_range_spec, N.eqb_eq;
  repeat (apply Exists_cons in H as [H|H]; [lia|]);
  by apply Exists_nil in H.

Lemma firsts_plus (P : N -> Prop) r : firsts P r -> firsts P (plus r).
Proof. intros H. by split. Qed.

Lemma firsts_cat (P : N -> Prop) r1 r2 :
  nullable r1 = false -> firsts P r1 -> firsts P (Cat r1 r2).
Proof. intros Hn H. split; [done|]. congruence. Qed.

Lemma scheme_firsts : firsts (fun c => host_char c = true) scheme.
Proof. unfold scheme. apply firsts_cat; [done|]. by apply (firsts_str _ 104%N). Qed.

Lemma urlPattern_firsts : firsts (fun c => host_char c = true) urlPattern.
Proof.
  unfold urlPattern, opt.
  split; [split; [apply scheme_firsts | done]|]. intros _.
  apply firsts_cat; [done|]. apply firsts_plus.
  apply firsts_cat; [done|]. apply firsts_plus. host_class.
Qed.

Lemma localhostPattern_firsts : firsts (fun c => host_char c = true) localhostPattern.
Proof.
  unfold localhostPattern, opt.
  split; [split; [apply scheme_firsts | done]|]. intros _.
  apply firsts_cat; [done|].
  split; [by apply (firsts_str _ 108%N) | by apply (firsts_str _ 49%N)].
Qed.

(** X3.  What [_isValidUrl] accepts is not empty, begins with a letter, a
    digit or a hyphen, and has no line terminator in it: text with
    leading white space or with a line break in it is never taken for
    an address. *)
Theorem _isValidUrl_shape s :
  _isValidUrl s = true ->
  (∃ c s', s = c :: s' ∧ host_char c = true)
  ∧ Forall (fun c => ¬ line_terminator c) s.
Proof.
  unfold _isValidUrl. rewrite orb_true_iff, !matches_lang. intros Hs. split.
  - destruct s as [|c s'].
    + destruct Hs as [H|H]; apply nullable_lang in H; discriminate.
    + exists c, s'. split; [done|].
      destruct Hs as [H|H];
        [apply (lang_firsts _ _ _ _ H urlPattern_firsts)
        |apply (lang_firsts _ _ _ _ H localhostPattern_firsts)].
  - destruct Hs as [H|H];
      [apply (lang_classes _ _ _ H urlPattern_classes)
      |apply (lang_classes _ _ _ H localhostPattern_classes)].
Qed.

Lemma _isValidUrl_shape_witness :
  (∃ c s', lit "localhost:3000/a b" = c :: s' ∧ host_char c = true)
  ∧ Forall (fun c => ¬ line_terminator c) (lit "localhost:3000/a b").
Proof.
  apply (_isValidUrl_shape (lit "localhost:3000/a b")). vm_compute. reflexivity.
Defined.

(** Leading white space, a line break at the end. *)
Example _isValidUrl_rejects :
  _isValidUrl (lit " openai.com") = false
  ∧ _isValidUrl (lit "openai.com" ++ [10%N]) = false
  ∧ _isValidUrl (lit "openai.com/a" ++ [0x2028%N]) = false.
Proof. repeat split; vm_compute; reflexivity. Qed.

Lemma occurs_app w p rest : occurs w (p ++ w ++ rest).
Proof.
  induction p as [|c p IH]; [|right; exact IH].
  change ([] ++ w ++ rest) with (w ++ rest).
  destruct (w ++ rest) eqn:E; left; rewrite <- E; by exists rest.
Qed.

(** X4.  An input [_isValidUrl] accepts names a host: it contains a dot or
    the word [localhost].  So a word or a phrase with neither, not
    empty and without an unpaired surrogate, is for [navigate] a search:
    it loads the search address for the encoded input. *)
Theorem _isValidUrl_dot_or_localhost s st :
  (_isValidUrl s = true -> 46%N ∈ s ∨ occurs (lit "localhost") s)
  ∧ (s ≠ [] -> well_formed s = true ->
     46%N ∉ s -> ¬ occurs (lit "localhost") s ->
       _isValidUrl s = false
       ∧ ∃ q, encodeURIComponent s = Some q
              ∧ navigate (Some s) st = load (search_prefix ++ q) st).
Proof.
  assert (Hhost : _isValidUrl s = true -> 46%N ∈ s ∨ occurs (lit "localhost") s).
  { unfold _isValidUrl. rewrite orb_true_iff, !matches_lang. intros [H|H].
    - left. unfold urlPattern, plus in H.
      apply lang_cat_inv in H as (s1 & s2 & -> & _ & H).
      apply lang_cat_inv in H as (s3 & s4 & -> & H & _).
      apply lang_cat_inv in H as (s5 & s6 & -> & H & _).
      apply lang_cat_inv in H as (s7 & s8 & -> & _ & H).
      apply lang_chr in H as ->.
      rewrite !elem_of_app, elem_of_cons. tauto.
    - unfold localhostPattern in H.
      apply lang_cat_inv in H as (s1 & s2 & -> & _ & H).
      apply lang_cat_inv in H as (s3 & s4 & -> & H & _).
      apply lang_alt_inv in H as [H|H]; apply lang_str in H as ->.
      + right. apply occurs_app.
      + left. rewrite !elem_of_app. right. left.
        apply (bool_decide_unpack _). vm_compute. exact I. }
  split; [done|]. intros Hne Hwf Hdot Hlocal.
  assert (Hinvalid : _isValidUrl s = false).
  { destruct (_isValidUrl s); [|done]. destruct Hhost as [H|H]; done. }
  split; [done|].
  apply encodeURIComponent_defined in Hwf as [q Hq]. exists q. split; [done|].
  rewrite navigate_nonempty by done. unfold resolve. by rewrite Hinvalid, Hq.
Qed.

Lemma _isValidUrl_dot_or_localhost_witness :
  (46%N ∈ lit "http://localhost:3000"
   ∨ occurs (lit "localhost") (lit "http://localhost:3000"))
  ∧ _isValidUrl (lit "hello world") = false
  ∧ ∃ q, encodeURIComponent (lit "hello world") = Some q
         ∧ navigate (Some (lit "hello world")) shell_A = load (search_prefix ++ q) shell_A.
Proof.
  pose proof (_isValidUrl_dot_or_localhost (lit "http://localhost:3000") shell_A)
    as [Hhost _].
  pose proof (_isValidUrl_dot_or_localhost (lit "hello world") shell_A) as [_ Hsearch].
  split.
  - apply Hhost. vm_compute. reflexivity.
  - apply Hsearch.
    + discriminate.
    + vm_compute. reflexivity.
    + apply (bool_decide_unpack _). vm_compute. exact I.
    + apply (bool_decide_unpack _). vm_compute. exact I.
Defined.

(** ** The encoder's alphabet *)

Lemma lor_lt_pow2 a b n : (a < 2 ^ n -> b < 2 ^ n -> N.lor a b < 2 ^ n)%N.
Proof.
  intros Ha Hb. destruct (N.eq_dec (N.lor a b) 0) as [->|Hne].
  - apply N.neq_0_lt_0, N.pow_nonzero. done.
  - apply N.log2_lt_pow2; [lia|]. rewrite N.log2_lor.
    destruct (N.eq_dec a 0) as [->|Ha0], (N.eq_dec b 0) as [->|Hb0].
    + done.
    + rewrite N.max_r by apply N.le_0_l. apply N.log2_lt_pow2; [lia | done].
    + rewrite N.max_l by apply N.le_0_l. apply N.log2_lt_pow2; [lia | done].
    + apply N.max_lub_lt; apply N.log2_lt_pow2; (lia || done).
Qed.

Lemma land_63 x : (N.land x 0x3F < 64)%N.
Proof.
  change 0x3F%N with (N.ones 6). rewrite N.land_ones.
  apply N.mod_lt. done.
Qed.

Lemma continuation_octet x : (N.lor 0x80 (N.land x 0x3F) < 256)%N.
Proof.
  apply (lor_lt_pow2 _ _ 8); [done|].
  pose proof (land_63 x). change (2 ^ 8)%N with 256%N. lia.
Qed.

Lemma shiftr_lt x k n : (x < 2 ^ (k + n) -> N.shiftr x k < 2 ^ n)%N.
Proof.
  intros H. rewrite N.shiftr_div_pow2.
  apply N.Div0.div_lt_upper_bound. by rewrite <- N.pow_add_r.
Qed.

Lemma utf8_octets cp : (cp < 0x200000)%N -> Forall (fun o => (o < 256)%N) (utf8 cp).
Proof.
  intros Hcp. unfold utf8.
  destruct (N.ltb_spec cp 0x80); [repeat constructor; lia|].
  destruct (N.ltb_spec cp 0x800).
  { repeat constructor; [|apply continuation_octet].
    apply (lor_lt_pow2 _ _ 8); [done|].
    pose proof (shiftr_lt cp 6 5). change (2 ^ (6 + 5))%N with 2048%N in *.
    change (2 ^ 5)%N with 32%N in *. change (2 ^ 8)%N with 256%N. lia. }
  destruct (N.ltb_spec cp 0x10000).
  { repeat constructor; try apply continuation_octet.
    apply (lor_lt_pow2 _ _ 8); [done|].
    pose proof (shiftr_lt cp 12 4). change (2 ^ (12 + 4))%N with 65536%N in *.
    change (2 ^ 4)%N with 16%N in *. change (2 ^ 8)%N with 256%N. lia. }
  repeat constructor; try apply continuation_octet.
  apply (lor_lt_pow2 _ _ 8); [done|].
  pose proof (shiftr_lt cp 18 3). change (2 ^ (18 + 3))%N with 0x200000%N in *.
  change (2 ^ 3)%N with 8%N in *. change (2 ^ 8)%N with 256%N. lia.
Qed.

Lemma hex_digit_safe d : (d < 16)%N -> uri_safe (hex_digit d) = true.
Proof.
  intros Hd. unfold uri_safe, hex_digit.
  destruct (N.ltb_spec d 10).
  - assert (in_range 48 57 (48 + d) = true) as -> by (apply in_range_spec; lia).
    by rewrite !orb_true_r.
  - assert (in_range 65 70 (55 + d) = true) as -> by (apply in_range_spec; lia).
    by rewrite !orb_true_r.
Qed.

Lemma percent_encode_safe cp :
  (cp < 0x200000)%N -> Forall (fun c => uri_safe c = true) (percent_encode cp).
Proof.
  intros Hcp. unfold percent_encode.
  induction (utf8_octets cp Hcp) as [|o os Ho _ IH]; [constructor|].
  cbn [flat_map]. apply Forall_app. split; [|done].
  unfold percent. repeat constructor.
  - apply hex_digit_safe. apply N.Div0.div_lt_upper_bound. lia.
  - apply hex_digit_safe. apply N.mod_lt. done.
Qed.

(** On a string of code units the encoder emits unreserved characters,
    [%] and upper-case hexadecimal digits only. *)
Lemma encodeURIComponent_safe s :
  code_units s -> ∀ q, encodeURIComponent s = Some q ->
  Forall (fun c => uri_safe c = true) q.
Proof.
  remember (length s) as n eqn:Hn. revert s Hn.
  induction n as [n IH] using lt_wf_ind. intros [|c rest] Hn Hs q; simpl.
  - intros [= <-]. constructor.
  - simpl in Hn. apply Forall_cons in Hs as [Hc Hrest].
    destruct (uriUnescaped c) eqn:Hu.
    + destruct (encodeURIComponent rest) as [q'|] eqn:Hq; [|done].
      intros [= <-]. constructor.
      * unfold uri_safe. by rewrite Hu.
      * apply (IH (length rest)) with (s := rest); (lia || done).
    + destruct (is_lead_surrogate c) eqn:Hlead.
      * destruct rest as [|d rest']; [done|].
        destruct (is_trail_surrogate d) eqn:Htrail; [|done].
        destruct (encodeURIComponent rest') as [q'|] eqn:Hq; [|done].
        intros [= <-]. apply Forall_cons in Hrest as [Hd Hrest'].
        apply Forall_app. split.
        -- apply percent_encode_safe. unfold code_point.
           apply in_range_spec in Hlead. apply in_range_spec in Htrail. lia.
        -- apply (IH (length rest')) with (s := rest'); (simpl in Hn; lia) || done.
      * destruct (is_trail_surrogate c); [done|].
        destruct (encodeURIComponent rest) as [q'|] eqn:Hq; [|done].
        intros [= <-]. apply Forall_app. split.
        -- apply percent_encode_safe. lia.
        -- apply (IH (length rest)) with (s := rest); (lia || done).
Qed.

Lemma uri_safe_visible c : uri_safe c = true -> (33 <= c <= 126)%N.
Proof.
  unfold uri_safe, uriUnescaped.
  rewrite !orb_true_iff, !in_range_spec, bool_decide_eq_true, N.eqb_eq.
  rewrite !elem_of_cons, elem_of_nil. lia.
Qed.

(** ** Resolved addresses *)

Lemma matches_app r p : ∀ q, matches r (p ++ q) = matches (foldl (fun r c => deriv c r) r p) q.
Proof.
  revert r. induction p as [|c p IH]; intros r q; [done|]. simpl. apply IH.
Qed.

Lemma matches_any_path q :
  Forall (fun c => ¬ line_terminator c) q -> matches (Star dot) q = true.
Proof.
  induction 1 as [|c q Hc _ IH]; [done|].
  cbn [matches deriv]. unfold dot at 1. cbn [deriv].
  rewrite (proj2 (dot_spec c) Hc). apply IH.
Qed.

(** The search address is itself an address the first pattern accepts. *)
Lemma search_address_valid q :
  Forall (fun c => uri_safe c = true) q -> matches urlPattern (search_prefix ++ q) = true.
Proof.
  intros Hq. rewrite matches_app.
  change (foldl (fun r c => deriv c r) urlPattern search_prefix) with (Star dot).
  apply matches_any_path. eapply Forall_impl; [exact Hq|].
  intros c Hc. by apply visible_not_terminator, uri_safe_visible.
Qed.

(** An address without scheme stays an address when [https://] is put
    in front. *)
Lemma add_scheme rest s :
  lang (Cat (opt scheme) rest) s -> ¬ has_scheme s ->
  lang (Cat (opt scheme) rest) (lit "https://" ++ s).
Proof.
  intros H Hno. apply lang_cat_inv in H as (s1 & s2 & -> & H1 & H2).
  apply lang_alt_inv in H1 as [H1|H1].
  - exfalso. apply Hno. apply lang_scheme in H1 as [-> | ->];
      [left | right]; by exists s2.
  - apply lang_eps_inv in H1 as ->. rewrite app_nil_l.
    apply lang_cat; [|done]. apply lang_alt_l, lang_scheme. by right.
Qed.

(** X5.  Whatever [resolve] returns is an address of its own: it begins with
    a scheme, [_isValidUrl] accepts it, and resolving it again gives it
    back unchanged.  So navigating to an address the shell has resolved
    never turns it into a search. *)
Theorem resolve_fixed s u :
  code_units s -> resolve s = inr u ->
  has_scheme u ∧ _isValidUrl u = true ∧ resolve u = inr u.
Proof.
  intros Hs Hres.
  assert (Hfix : has_scheme u -> _isValidUrl u = true -> resolve u = inr u).
  { intros Hsch Hv. unfold resolve. rewrite Hv. cbn [negb].
    apply schemePattern_prefix in Hsch. by rewrite Hsch. }
  unfold resolve in Hres. destruct (_isValidUrl s) eqn:Hvalid; cbn [negb] in Hres.
  - destruct (matches_prefix schemePattern s) eqn:Hscheme; cbn [negb] in Hres;
      injection Hres as <-.
    + apply schemePattern_prefix in Hscheme. auto.
    + assert (Hno : ¬ has_scheme s).
      { intros H. apply schemePattern_prefix in H. congruence. }
      assert (Hsch : has_scheme (lit "https://" ++ s)) by (right; by exists s).
      assert (Hv : _isValidUrl (lit "https://" ++ s) = true).
      { unfold _isValidUrl in *. apply orb_true_iff in Hvalid. apply orb_true_iff.
        destruct Hvalid as [H|H]; [left | right]; apply matches_lang;
          apply matches_lang in H; by apply add_scheme. }
      auto.
  - destruct (encodeURIComponent s) as [q|] eqn:Hq; [|done]. injection Hres as <-.
    assert (Hsch : has_scheme (search_prefix ++ q)).
    { right. by exists (lit "www.google.com/search?q=" ++ q). }
    assert (Hv : _isValidUrl (search_prefix ++ q) = true).
    { unfold _isValidUrl. rewrite search_address_valid; [done|].
      by apply (encodeURIComponent_safe s). }
    auto.
Qed.

Lemma resolve_fixed_witness :
  has_scheme (lit "https://www.google.com/search?q=hello%20world")
  ∧ _isValidUrl (lit "https://www.google.com/search?q=hello%20world") = true
  ∧ resolve (lit "https://www.google.com/search?q=hello%20world")
    = inr (lit "https://www.google.com/search?q=hello%20world").
Proof.
  apply (resolve_fixed (lit "hello world")).
  - apply (bool_decide_unpack _). vm_compute. exact I.
  - vm_compute. reflexivity.
Defined.

End PatternFacts.

(* ===================================================================== *)
(** * The shell as a whole                                                *)
(* ===================================================================== *)

(** ** Tabs and their webviews *)

Section Pairing.
Import Samples MoreSamples Consistency.

Implicit Types (st : State) (i a : Z) (r tab : ref) (u : jstring) (ws : list Webview).

Lemma has_id_alter (m : gmap ref Tab) (f : Tab -> Tab) tab i r :
  (∀ t, id (f t) = id t) -> has_id (alter f tab m) i r <-> has_id m i r.
Proof.
  intros Hf. unfold has_id. destruct (decide (tab = r)) as [->|Hne].
  - rewrite lookup_alter_eq. destruct (m !! r); simpl; by rewrite ?Hf.
  - by rewrite lookup_alter_ne.
Qed.

Lemma has_id_functional (m : gmap ref Tab) i a r : has_id m i r -> has_id m a r -> i = a.
Proof. unfold has_id. congruence. Qed.

Lemma paired_ids (m : gmap ref Tab) ws (rs : list ref) :
  Forall2 (fun w r => wv_tab w = r ∧ has_id m (wv_id w) r) ws rs ->
  id <$> omap (fun r => m !! r) rs = wv_id <$> ws.
Proof.
  induction 1 as [|w r ws rs [_ H] _ IH]; [done|].
  cbn [omap list_omap]. unfold has_id in H.
  destruct (m !! r) as [t|]; [|done]. injection H as H.
  csimpl. by rewrite IH, H.
Qed.

Lemma webview_ids st : surfaces_ok st -> wv_id <$> webviews st = tab_ids st.
Proof. intros H. symmetry. by apply paired_ids. Qed.

Lemma list_find_paired {A B} (P : A -> Prop) `{!∀ x, Decision (P x)}
    (Q : B -> Prop) `{!∀ y, Decision (Q y)} (R : A -> B -> Prop) l k :
  Forall2 R l k -> (∀ x y, R x y -> P x <-> Q y) ->
  fst <$> list_find P l = fst <$> list_find Q k.
Proof.
  intros HR HPQ. induction HR as [|x y l k Hxy _ IH]; [done|].
  cbn [list_find]. specialize (HPQ x y Hxy).
  destruct (decide (P x)) as [HP|HP], (decide (Q y)) as [HQ|HQ]; try tauto; try done.
  destruct (list_find P l) as [[? ?]|], (list_find Q k) as [[? ?]|];
    simpl in *; congruence.
Qed.

(** [getElementById] finds the webview of a tab at the index at which
    [findIndex] finds the tab. *)
Lemma find_webview st i :
  surfaces_ok st ->
  fst <$> list_find (is_webview i) (webviews st) = fst <$> findIndex st i.
Proof.
  intros H. unfold findIndex. eapply list_find_paired; [exact H|].
  intros w r [_ Hid]. unfold is_webview. split.
  - by intros <-.
  - intros Hi. by eapply has_id_functional.
Qed.

Lemma NoDup_webview_ids st : wf st -> surfaces_ok st -> NoDup (wv_id <$> webviews st).
Proof. intros (_ & _ & Hnd & _) Hs. by rewrite webview_ids. Qed.

(** ** Changes that keep the pairing *)

Lemma paired_ext st1 st2 :
  content (doc st2) = content (doc st1) ->
  arrs st2 = arrs st1 -> tabs st2 = tabs st1 -> recs st2 = recs st1 ->
  tabCounter st2 = tabCounter st1 ->
  paired st1 -> paired st2.
Proof.
  intros Hc Ha Ht Hr Hn (Hsome & Hwf & Hs). unfold paired, surfaces_ok, webviews, tabs_list.
  rewrite Hc, Ha, Ht, Hr. split; [done|]. split; [|done].
  by apply (wf_ext st1).
Qed.

Lemma shell_ok_ext st1 st2 :
  initialized st2 = initialized st1 ->
  content (doc st2) = content (doc st1) ->
  arrs st2 = arrs st1 -> tabs st2 = tabs st1 -> recs st2 = recs st1 ->
  tabCounter st2 = tabCounter st1 -> activeTabId st2 = activeTabId st1 ->
  shell_ok st1 -> shell_ok st2.
Proof.
  intros Hi Hc Ha Ht Hr Hn Hact (Hinit & Hp & Hactive & Hshown).
  split; [congruence|]. split; [by apply (paired_ext st1)|].
  unfold active_ok, shown_ok, tab_ids, tab_records, webviews, tabs_list in *.
  by rewrite Hc, Ha, Ht, Hr, Hact.
Qed.

Lemma on_webview_cases i f ws :
  (list_find (is_webview i) ws = None ∧ on_webview i f ws = ws)
  ∨ ∃ k w, list_find (is_webview i) ws = Some (k, w) ∧ on_webview i f ws = <[k := f w]> ws.
Proof.
  unfold on_webview. destruct (list_find (is_webview i) ws) as [[k w]|]; eauto.
Qed.

(** A change of a webview that keeps its id and its tab keeps the
    pairing. *)
Lemma surfaces_on_webview (m : gmap ref Tab) i f ws (rs : list ref) :
  (∀ w, wv_id (f w) = wv_id w ∧ wv_tab (f w) = wv_tab w) ->
  Forall2 (fun w r => wv_tab w = r ∧ has_id m (wv_id w) r) ws rs ->
  Forall2 (fun w r => wv_tab w = r ∧ has_id m (wv_id w) r) (on_webview i f ws) rs.
Proof.
  intros Hf H. destruct (on_webview_cases i f ws) as [[_ ->]|(k & w & Hfind & ->)]; [done|].
  apply list_find_Some in Hfind as (Hk & _ & _).
  destruct (Forall2_lookup_l _ _ _ _ _ H Hk) as (r & Hr & Hw & Hid).
  rewrite <- (list_insert_id rs k r Hr). apply Forall2_insert; [done|].
  destruct (Hf w) as [-> ->]. done.
Qed.

Lemma paired_tab_update r f st :
  (∀ t, id (f t) = id t) -> paired st -> paired (tab_update r f st).
Proof.
  intros Hf (Hsome & Hwf & Hs). split; [done|]. split; [by apply wf_tab_update|].
  unfold surfaces_ok in *. cbn. eapply Forall2_impl; [exact Hs|].
  intros w x [Hw Hid]. split; [done|]. by apply has_id_alter.
Qed.

Lemma tab_ids_tab_update r f st :
  (∀ t, id (f t) = id t) -> tab_ids (tab_update r f st) = tab_ids st.
Proof. intros Hf. unfold tab_ids, tab_records, tabs_list. cbn. by apply ids_alter. Qed.

Lemma shell_ok_tab_update r f st :
  (∀ t, id (f t) = id t) -> shell_ok st -> shell_ok (tab_update r f st).
Proof.
  intros Hf (Hinit & Hp & Hactive & Hshown).
  split; [done|]. split; [by apply paired_tab_update|]. split; [|done].
  unfold active_ok in *. rewrite tab_ids_tab_update by done. done.
Qed.

End Pairing.

Section Preserved.
Import Samples MoreSamples Consistency.

Implicit Types (st : State) (i a : Z) (r tab : ref) (u : jstring) (ws : list Webview).

Lemma parts_ext st1 st2 :
  content (doc st2) = content (doc st1) ->
  arrs st2 = arrs st1 -> tabs st2 = tabs st1 -> recs st2 = recs st1 ->
  tabCounter st2 = tabCounter st1 -> activeTabId st2 = activeTabId st1 ->
  paired st1 ∧ active_ok st1 ∧ shown_ok st1 ->
  paired st2 ∧ active_ok st2 ∧ shown_ok st2.
Proof.
  intros Hc Ha Ht Hr Hn Hact (Hp & Hactive & Hshown).
  split; [by apply (paired_ext st1)|].
  unfold active_ok, shown_ok, tab_ids, tab_records, webviews, tabs_list in *.
  by rewrite Hc, Ha, Ht, Hr, Hact.
Qed.

Lemma shell_ok_renderTabs st : shell_ok st -> shell_ok (_renderTabs st).
Proof. apply shell_ok_ext; by autorewrite with shell. Qed.

(** *** [switchTab] *)

Lemma webviews_switchTab i st :
  webviews (switchTab i st)
  = on_webview i (set_active true) (set_active false <$> webviews st).
Proof.
  unfold webviews. rewrite switchTab_content. unfold webviews.
  by destruct (content (doc st)).
Qed.

Lemma paired_switchTab i st : paired st -> paired (switchTab i st).
Proof.
  intros ([ws Hws] & Hwf & Hs). split; [|split].
  - rewrite switchTab_content, Hws. by eexists.
  - by apply wf_switchTab.
  - unfold surfaces_ok. rewrite webviews_switchTab, switchTab_tabs_list, switchTab_recs.
    apply surfaces_on_webview; [done|]. apply Forall2_fmap_l.
    eapply Forall2_impl; [exact Hs|]. done.
Qed.

Lemma shown_switchTab i st : NoDup (wv_id <$> webviews st) -> shown_ok (switchTab i st).
Proof.
  intros Hnd. unfold shown_ok. rewrite webviews_switchTab, switchTab_activeTabId.
  set (ws0 := set_active false <$> webviews st).
  assert (Hids : wv_id <$> ws0 = wv_id <$> webviews st).
  { unfold ws0. rewrite <- list_fmap_compose. done. }
  assert (Hoff : ∀ j x, ws0 !! j = Some x -> wv_active x = false).
  { intros j x Hx. unfold ws0 in Hx. rewrite list_lookup_fmap in Hx.
    destruct (webviews st !! j); [|done]. by injection Hx as <-. }
  destruct (on_webview_cases i (set_active true) ws0) as [[Hnone ->]|(k & w & Hfind & ->)].
  - apply Forall_lookup. intros j x Hx. rewrite (Hoff j x Hx).
    rewrite list_find_None in Hnone.
    assert (Hne : ¬ is_webview i x).
    { apply (proj1 (Forall_forall _ _) Hnone). by eapply list_elem_of_lookup_2. }
    unfold is_webview in Hne. rewrite bool_decide_eq_false_2; [done | congruence].
  - apply list_find_Some in Hfind as (Hk & Hw & _). unfold is_webview in Hw.
    apply Forall_lookup. intros j x Hx.
    destruct (decide (k = j)) as [<-|Hne].
    + rewrite list_lookup_insert_eq in Hx by by eapply lookup_lt_Some.
      injection Hx as <-. simpl. rewrite bool_decide_eq_true_2; [done | congruence].
    + rewrite list_lookup_insert_ne in Hx by done.
      rewrite (Hoff j x Hx). rewrite bool_decide_eq_false_2; [done|].
      intros [= Heq]. apply Hne.
      apply (NoDup_lookup (wv_id <$> ws0) k j i); [by rewrite Hids | |].
      * by rewrite list_lookup_fmap, Hk; simpl; rewrite Hw.
      * by rewrite list_lookup_fmap, Hx; simpl; rewrite Heq.
Qed.

Lemma parts_switchTab i st :
  paired st -> i ∈ tab_ids st ->
  paired (switchTab i st) ∧ active_ok (switchTab i st) ∧ shown_ok (switchTab i st).
Proof.
  intros Hp Hin. split; [by apply paired_switchTab|]. split.
  - unfold active_ok. by rewrite switchTab_activeTabId, switchTab_tab_ids.
  - apply shown_switchTab. destruct Hp as (_ & Hwf & Hs). by apply NoDup_webview_ids.
Qed.

Lemma shell_ok_switchTab i st : shell_ok st -> i ∈ tab_ids st -> shell_ok (switchTab i st).
Proof.
  intros (Hinit & Hp & _) Hin. split; [by rewrite switchTab_initialized|].
  by apply parts_switchTab.
Qed.

(** *** [newTab] *)

Lemma newTab_unfold u ws st :
  content (doc st) = Some ws ->
  newTab u st
  = Returned (tabCounter st + 1)
      (_renderTabs (switchTab (tabCounter st + 1) (appended u ws st))).
Proof.
  intros Hws. unfold newTab, appended. cbv zeta.
  cbn [doc with_arrs with_recs with_tabCounter]. by rewrite Hws.
Qed.

Lemma appended_frame u ws st :
  content (doc st) = Some ws ->
  recs (appended u ws st) = recs (state_of (newTab u st))
  ∧ arrs (appended u ws st) = arrs (state_of (newTab u st))
  ∧ tabs (appended u ws st) = tabs (state_of (newTab u st))
  ∧ tabCounter (appended u ws st) = tabCounter (state_of (newTab u st)).
Proof.
  intros Hws. rewrite (newTab_unfold u ws st Hws). cbn [state_of].
  by autorewrite with shell.
Qed.

Lemma webviews_appended u ws st :
  webviews (appended u ws st)
  = ws ++ [mkWebview (tabCounter st + 1) (match u with [] => None | _ => Some u end) false
             (fresh (dom (recs st)))].
Proof. reflexivity. Qed.

Lemma recs_appended u ws st :
  recs (appended u ws st)
  = <[fresh (dom (recs st)) := mkTab (tabCounter st + 1) u (lit "New Tab")]> (recs st).
Proof. reflexivity. Qed.

Lemma tab_records_appended u ws st :
  wf st -> content (doc st) = Some ws ->
  tabs_list (appended u ws st) = tabs_list st ++ [fresh (dom (recs st))]
  ∧ tab_records (appended u ws st)
    = tab_records st ++ [mkTab (tabCounter st + 1) u (lit "New Tab")].
Proof.
  intros (_ & Hrefs & _) Hws.
  destruct (appended_frame u ws st Hws) as (Hr & Ha & Ht & _).
  assert (Hlist : tabs_list (appended u ws st) = tabs_list (state_of (newTab u st))).
  { unfold tabs_list. by rewrite Ha, Ht. }
  split.
  - rewrite Hlist. apply newTab_tabs_list.
  - unfold tab_records at 1. rewrite Hlist, Hr. by apply newTab_tab_records.
Qed.

Lemma paired_appended u ws st :
  paired st -> content (doc st) = Some ws -> paired (appended u ws st).
Proof.
  intros (_ & Hwf & Hs) Hws.
  destruct (appended_frame u ws st Hws) as (Hr & Ha & Ht & Hn).
  destruct (tab_records_appended u ws st Hwf Hws) as [Hlist _].
  split; [by eexists|]. split.
  - by apply (wf_ext (state_of (newTab u st))); [..|apply wf_newTab].
  - unfold surfaces_ok. rewrite Hlist, webviews_appended, recs_appended.
    apply Forall2_app.
    + unfold surfaces_ok, webviews in Hs. rewrite Hws in Hs.
      eapply Forall2_impl; [exact Hs|]. intros w r [Hw Hid]. split; [done|].
      unfold has_id in *. rewrite lookup_insert_ne; [done|]. intros <-.
      pose proof (is_fresh (dom (recs st))) as Hf. apply not_elem_of_dom in Hf.
      by rewrite Hf in Hid.
    + constructor; [|constructor]. split; [done|].
      unfold has_id. by rewrite lookup_insert_eq.
Qed.

Lemma parts_newTab u st :
  paired st ->
  paired (state_of (newTab u st)) ∧ active_ok (state_of (newTab u st))
  ∧ shown_ok (state_of (newTab u st)).
Proof.
  intros Hp. pose proof Hp as ([ws Hws] & _).
  rewrite (newTab_unfold u ws st Hws). cbn [state_of].
  pose proof (paired_appended u ws st Hp Hws) as Hp'.
  destruct (tab_records_appended u ws st (proj1 (proj2 Hp)) Hws) as [_ Hrecords].
  apply (parts_ext (switchTab (tabCounter st + 1) (appended u ws st)));
    [by autorewrite with shell..|].
  apply parts_switchTab; [done|].
  unfold tab_ids. rewrite Hrecords, fmap_app. apply elem_of_app. right.
  simpl. apply elem_of_cons. by left.
Qed.

Lemma newTab_initialized u st : initialized (state_of (newTab u st)) = initialized st.
Proof. by destruct (newTab_spec u st) as (_ & _ & _ & _ & _ & -> & _). Qed.

Lemma shell_ok_newTab u st : shell_ok st -> shell_ok (state_of (newTab u st)).
Proof.
  intros (Hinit & Hp & _). split; [by rewrite newTab_initialized|].
  by apply parts_newTab.
Qed.

(** *** [closeTab] *)

Lemma elem_of_delete_ne {A} (l : list A) k x y :
  l !! k = Some y -> x ≠ y -> x ∈ l -> x ∈ delete k l.
Proof.
  intros Hk Hne [j Hj]%list_elem_of_lookup_1.
  destruct (decide (j < k)%nat).
  - apply list_elem_of_lookup_2 with j. by rewrite list_lookup_delete_lt.
  - assert (j ≠ k) by (intros ->; congruence).
    apply list_elem_of_lookup_2 with (pred j). rewrite list_lookup_delete_ge by lia.
    by replace (S (pred j)) with j by lia.
Qed.

Lemma paired_spliced i index r st :
  paired st -> findIndex st i = Some (index, r) ->
  paired (spliced i index st)
  ∧ webviews (spliced i index st) = delete index (webviews st)
  ∧ tab_ids (spliced i index st) = delete index (tab_ids st)
  ∧ tab_ids st !! index = Some i.
Proof.
  intros ([ws Hws] & Hwf & Hs) Hfind.
  pose proof Hwf as (_ & Hrefs & _).
  pose proof (find_webview st i Hs) as Hw. rewrite Hfind in Hw. simpl in Hw.
  destruct (list_find (is_webview i) (webviews st)) as [[k w]|] eqn:Hfw; [|done].
  injection Hw as ->.
  assert (Hwebviews : webviews (spliced i index st) = delete index (webviews st)).
  { unfold webviews, spliced. cbn. rewrite Hws. cbn. unfold remove_webview.
    unfold webviews in Hfw. rewrite Hws in Hfw. cbn in Hfw. by rewrite Hfw. }
  assert (Hids : tab_ids (spliced i index st) = delete index (tab_ids st)).
  { unfold tab_ids. by rewrite spliced_tab_records, list_fmap_delete. }
  split; [|split; [done|split; [done|]]].
  - split; [|split].
    + unfold spliced. cbn. rewrite Hws. by eexists.
    + pose proof (wf_closeTab i st Hwf) as Hwf'. revert Hwf'.
      apply wf_ext; rewrite closeTab_unfold, Hfind; cbv zeta;
        repeat case_match; by autorewrite with shell.
    + unfold surfaces_ok. rewrite Hwebviews, spliced_tabs_list, spliced_recs.
      by apply Forall2_delete.
  - apply findIndex_lookup in Hfind as [Hr Hid].
    unfold tab_ids, tab_records. rewrite list_lookup_fmap, omap_resolved_lookup by done.
    rewrite Hr. simpl. exact Hid.
Qed.

Lemma shell_ok_no_tabs st1 st2 :
  initialized st2 = true ->
  content (doc st2) = content (doc st1) ->
  arrs st2 = arrs st1 -> tabs st2 = tabs st1 -> recs st2 = recs st1 ->
  tabCounter st2 = tabCounter st1 -> activeTabId st2 = None ->
  paired st1 -> tabs_list st1 = [] -> shell_ok st2.
Proof.
  intros Hi Hc Ha Ht Hr Hn Hact Hp Hnil.
  split; [done|]. split; [by apply (paired_ext st1)|].
  destruct Hp as (_ & _ & Hs). unfold surfaces_ok in Hs. rewrite Hnil in Hs.
  apply Forall2_nil_inv_r in Hs.
  unfold active_ok, shown_ok, webviews, tabs_list in *.
  rewrite Hact, Hc, Ha, Ht, Hs. split; [done | constructor].
Qed.

Lemma shell_ok_closeTab i st : shell_ok st -> shell_ok (closeTab i st).
Proof.
  intros (Hinit & Hp & Hactive & Hshown).
  destruct (findIndex st i) as [[index r]|] eqn:Hfind;
    [|by rewrite closeTab_not_found].
  destruct (paired_spliced i index r st Hp Hfind) as (Hp1 & Hws1 & Hids1 & Hi).
  rewrite closeTab_unfold, Hfind. cbv zeta.
  set (st1 := spliced i index st) in *.
  assert (Hlist1 : tabs_list st1 = delete index (tabs_list st)) by apply spliced_tabs_list.
  apply shell_ok_renderTabs.
  destruct (bool_decide (length (delete index (tabs_list st)) = 0%nat)) eqn:Hempty.
  { apply bool_decide_eq_true in Hempty. apply nil_length_inv in Hempty.
    rewrite <- Hlist1 in Hempty.
    by apply (shell_ok_no_tabs st1). }
  apply bool_decide_eq_false in Hempty.
  destruct (bool_decide (activeTabId st = Some i)) eqn:Hact.
  - destruct Hp1 as (Hc1 & Hwf1 & Hs1). pose proof Hwf1 as (_ & Hrefs1 & _).
    set (newIndex := Nat.min index (length (delete index (tabs_list st)) - 1)).
    assert (Hlt : (newIndex < length (delete index (tabs_list st)))%nat) by (unfold newIndex; lia).
    apply lookup_lt_is_Some in Hlt as [r' Hr']. rewrite Hr'. simpl.
    rewrite Hlist1 in Hrefs1.
    pose proof (proj1 (Forall_forall _ _) Hrefs1 r' (list_elem_of_lookup_2 _ _ _ Hr')) as [t Ht].
    change (recs st1) with (recs st) in Ht. rewrite Ht.
    split; [by rewrite switchTab_initialized|]. apply parts_switchTab; [done|].
    unfold tab_ids, tab_records. apply list_elem_of_fmap_2, list_elem_of_omap.
    exists r'. split; [|done]. rewrite Hlist1. by eapply list_elem_of_lookup_2.
  - apply bool_decide_eq_false in Hact.
    split; [done|]. split; [done|]. split.
    + unfold active_ok in *. change (activeTabId st1) with (activeTabId st).
      destruct (activeTabId st) as [a|].
      * rewrite Hids1. apply (elem_of_delete_ne _ _ _ i); [done | congruence | done].
      * apply findIndex_lookup in Hfind as [Hr _]. by rewrite Hactive in Hr.
    + unfold shown_ok in *. rewrite Hws1. change (activeTabId st1) with (activeTabId st).
      by apply Forall_delete.
Qed.

End Preserved.

Section PreservedMore.
Import Samples MoreSamples Consistency Wiring Sessions.

Implicit Types (st : State) (i a : Z) (r tab : ref) (u : jstring) (ws : list Webview).

(** *** [navigate] *)

Lemma Forall_on_webview (P : Webview -> Prop) i f ws :
  (∀ w, P w -> P (f w)) -> Forall P ws -> Forall P (on_webview i f ws).
Proof.
  intros Hf H. destruct (on_webview_cases i f ws) as [[_ ->]|(k & w & Hfind & ->)]; [done|].
  apply list_find_Some in Hfind as (Hk & _ & _).
  apply Forall_insert; [done|]. apply Hf.
  by apply (proj1 (Forall_lookup _ _) H k).
Qed.

Lemma shell_ok_set_src a u st1 st2 :
  initialized st2 = initialized st1 ->
  content (doc st2) = on_webview a (set_src u) <$> content (doc st1) ->
  arrs st2 = arrs st1 -> tabs st2 = tabs st1 -> recs st2 = recs st1 ->
  tabCounter st2 = tabCounter st1 -> activeTabId st2 = activeTabId st1 ->
  shell_ok st1 -> shell_ok st2.
Proof.
  intros Hi Hc Ha Ht Hr Hn Hact (Hinit & ([ws Hws] & Hwf & Hs) & Hactive & Hshown).
  rewrite Hws in Hc. simpl in Hc.
  assert (Hwebviews : webviews st2 = on_webview a (set_src u) (webviews st1)).
  { unfold webviews. by rewrite Hc, Hws. }
  assert (Hlist : tabs_list st2 = tabs_list st1).
  { unfold tabs_list. by rewrite Ha, Ht. }
  split; [congruence|]. split; [split; [|split]|split].
  - rewrite Hc. by eexists.
  - by apply (wf_ext st1).
  - unfold surfaces_ok. rewrite Hwebviews, Hlist, Hr. by apply surfaces_on_webview.
  - unfold active_ok, tab_ids, tab_records in *. by rewrite Hact, Hlist, Hr.
  - unfold shown_ok in *. rewrite Hwebviews, Hact. by apply Forall_on_webview.
Qed.

Lemma shell_ok_load u st : shell_ok st -> shell_ok (state_of (load u st)).
Proof.
  intros Hok. unfold load. destruct (activeTabId st) as [a|] eqn:Hact.
  - destruct (find st a) as [tab|]; cbn [state_of].
    + apply (shell_ok_set_src a u (tab_update tab (set_url u) st)); try done.
      by apply shell_ok_tab_update.
    + by apply (shell_ok_ext st).
  - pose proof (shell_ok_newTab u st Hok) as Hnew.
    destruct (newTab u st); cbn [state_of] in *; [by eapply shell_ok_ext | done].
Qed.

Lemma shell_ok_navigate input st : shell_ok st -> shell_ok (state_of (navigate input st)).
Proof.
  intros Hok. unfold navigate. destruct input as [[|c s]|]; [done| |done].
  destruct (resolve (c :: s)); [done | by apply shell_ok_load].
Qed.

(** *** [init] *)

Lemma init_initialized st : initialized st = true -> init st = Returned () st.
Proof. intros H. unfold init. by rewrite H. Qed.

Lemma paired_mounted opts : paired (with_doc (mounted opts) (constructor opts)).
Proof.
  split; [by eexists|]. split.
  - apply (wf_ext (constructor opts)); try done. apply wf_constructor.
  - unfold surfaces_ok, webviews, tabs_list. cbn. rewrite lookup_singleton_eq. constructor.
Qed.

Lemma shell_ok_init_new opts :
  container opts = true -> shell_ok (state_of (init (constructor opts))).
Proof.
  intros Hc.
  destruct (init_reaches_newTab (constructor opts) eq_refl Hc) as (st' & _ & Hst' & -> & _).
  cbn [state_of]. split; [done|].
  apply (parts_ext st'); [done..|].
  rewrite Hst'. apply parts_newTab, paired_mounted.
Qed.

(** *** The listeners *)

Lemma shell_ok_listeners tab code text st :
  shell_ok st ->
  shell_ok (did_start_loading tab st) ∧ shell_ok (did_stop_loading tab st)
  ∧ shell_ok (did_fail_load tab code text st)
  ∧ shell_ok (page_title_updated tab text st) ∧ shell_ok (did_navigate tab text st).
Proof.
  intros Hok. split; [|split; [|split; [|split]]].
  - unfold did_start_loading. cbv zeta. case_match; by eapply shell_ok_ext.
  - unfold did_stop_loading. cbv zeta. case_match; by eapply shell_ok_ext.
  - unfold did_fail_load. repeat case_match; by eapply shell_ok_ext.
  - unfold page_title_updated. cbv zeta.
    set (shown := match text with [] => lit "Untitled" | _ => text end).
    pose proof (shell_ok_tab_update tab (set_title shown) st (fun _ => eq_refl) Hok) as H.
    case_match; apply (shell_ok_ext (tab_update tab (set_title shown) st)); try done;
      unfold log; cbn [initialized arrs recs tabs tabCounter activeTabId doc with_calls];
      by autorewrite with shell.
  - unfold did_navigate. cbv zeta.
    pose proof (shell_ok_tab_update tab (set_url text) st (fun _ => eq_refl) Hok) as H.
    repeat case_match; by apply (shell_ok_ext (tab_update tab (set_url text) st)).
Qed.

(** *** [getTabs] *)

Lemma tabs_list_getTabs st : tabs_list (snd (getTabs st)) = tabs_list st.
Proof.
  unfold tabs_list, getTabs. cbn.
  destruct (decide (fresh (dom (arrs st)) = tabs st)) as [Heq|Hne].
  - rewrite Heq, lookup_insert_eq. done.
  - by rewrite lookup_insert_ne.
Qed.

Lemma shell_ok_getTabs st : shell_ok st -> shell_ok (snd (getTabs st)).
Proof.
  intros (Hinit & (Hc & Hwf & Hs) & Hactive & Hshown).
  pose proof (tabs_list_getTabs st) as Hlist.
  split; [done|]. split; [split; [done|split]|split].
  - by apply wf_getTabs.
  - unfold surfaces_ok. by rewrite Hlist.
  - unfold active_ok, tab_ids, tab_records in *. rewrite Hlist.
    change (activeTabId (snd (getTabs st))) with (activeTabId st).
    change (recs (snd (getTabs st))) with (recs st). done.
  - done.
Qed.

(** *** The keyboard and the buttons *)

Lemma shell_ok_keydown ctrlKey key st :
  shell_ok st -> shell_ok (state_of (keydown ctrlKey key st)).
Proof.
  intros Hok. unfold keydown.
  destruct (ctrlKey && bool_decide (key = lit "t")).
  { pose proof (shell_ok_newTab [] st Hok) as H. by destruct (newTab [] st). }
  destruct (ctrlKey && bool_decide (key = lit "w")).
  { cbn [state_of]. destruct (activeTabId st) as [a|]; [|done].
    case_match; [done | by apply shell_ok_closeTab]. }
  by destruct (ctrlKey && bool_decide (key = lit "r")).
Qed.

Lemma perform_shell_ok e st : shell_ok st -> known e st -> shell_ok (perform e st).
Proof.
  intros Hok Hknown. destruct e; cbn [perform known] in *.
  - by rewrite init_initialized by apply Hok.
  - by apply shell_ok_newTab.
  - by apply shell_ok_switchTab.
  - by apply shell_ok_closeTab.
  - by apply shell_ok_navigate.
  - by apply shell_ok_getTabs.
  - by apply shell_ok_keydown.
  - unfold urlInput_keydown. case_match; [by apply shell_ok_navigate | done].
  - by apply shell_ok_navigate.
  - by apply shell_ok_newTab.
  - by apply (shell_ok_listeners tab 0 []).
  - by apply (shell_ok_listeners tab 0 []).
  - by apply shell_ok_listeners.
  - by apply (shell_ok_listeners tab 0).
  - by apply (shell_ok_listeners tab 0).
Qed.

End PreservedMore.

(** ** The tab strip *)

Section Strip.
Import Samples MoreSamples Consistency Wiring Sessions.

Implicit Types (st : State) (i a : Z) (r tab : ref) (u : jstring) (ws : list Webview).

Lemma fmap_omap_alter {B} (g : Tab -> B) (m : gmap ref Tab) (f : Tab -> Tab) tab
    (l : list ref) :
  (∀ t, g (f t) = g t) ->
  g <$> omap (fun r => alter f tab m !! r) l = g <$> omap (fun r => m !! r) l.
Proof.
  intros Hf. induction l as [|r l IH]; [done|]. cbn [omap list_omap].
  destruct (decide (tab = r)) as [->|Hne].
  - rewrite lookup_alter_eq. destruct (m !! r); csimpl; by rewrite ?IH, ?Hf.
  - rewrite lookup_alter_ne by done. destruct (m !! r); csimpl; by rewrite ?IH.
Qed.

(** The strip shows ids and titles, not addresses. *)
Lemma strip_markup_tab_update r f st :
  (∀ t, id (f t) = id t ∧ title (f t) = title t) ->
  strip_markup (tab_update r f st) = strip_markup st.
Proof.
  intros Hf. unfold strip_markup, tab_records, tabs_list, tab_update.
  cbn [recs arrs tabs activeTabId with_recs]. f_equal. apply fmap_omap_alter.
  intros t. unfold tab_markup. by destruct (Hf t) as [-> ->].
Qed.

Lemma strip_markup_ext st1 st2 :
  activeTabId st2 = activeTabId st1 -> arrs st2 = arrs st1 -> tabs st2 = tabs st1 ->
  recs st2 = recs st1 -> strip_markup st2 = strip_markup st1.
Proof. unfold strip_markup, tab_records, tabs_list. by intros -> -> -> ->. Qed.

Lemma strip_ext st1 st2 :
  tabsContainer (doc st2) = tabsContainer (doc st1) ->
  (is_Some (content (doc st1)) -> is_Some (content (doc st2))) ->
  showTabs (options st2) = showTabs (options st1) ->
  strip_markup st2 = strip_markup st1 ->
  strip_ok st1 ∧ strip_mounted st1 -> strip_ok st2 ∧ strip_mounted st2.
Proof.
  intros Ht Hc Ho Hm [Hok Hmounted]. unfold strip_ok, strip_mounted in *.
  rewrite Ht, Ho, Hm. split; [done|]. intros H. by apply Hc, Hmounted.
Qed.

Lemma strip_renderTabs st :
  strip_mounted st -> strip_ok (_renderTabs st) ∧ strip_mounted (_renderTabs st).
Proof.
  intros Hm. unfold strip_ok, strip_mounted in *. rewrite _renderTabs_content.
  unfold _renderTabs. destruct (tabsContainer (doc st)) as [s|] eqn:Hs.
  - destruct (showTabs (options st)) eqn:Hshow; cbn [negb].
    + cbn [doc with_doc tabsContainer with_tabsContainer]. split; [done|].
      intros _. apply Hm. by eexists.
    + rewrite Hs, Hshow. split; [done|]. intros _. apply Hm. by eexists.
  - rewrite Hs. split; [done|]. by intros [? ?].
Qed.

Lemma strip_switchTab i st :
  strip_mounted st -> strip_ok (switchTab i st) ∧ strip_mounted (switchTab i st).
Proof.
  intros Hm. unfold switchTab. apply strip_renderTabs.
  intros H. apply Hm in H as [ws Hws].
  cbn [doc with_doc content with_placeholder with_urlInput with_content with_activeTabId].
  rewrite Hws. by eexists.
Qed.

Lemma strip_newTab u st :
  strip_mounted st ->
  strip_ok (state_of (newTab u st)) ∧ strip_mounted (state_of (newTab u st)).
Proof.
  intros Hm. destruct (content (doc st)) as [ws|] eqn:Hws.
  - rewrite (newTab_unfold u ws st Hws). cbn [state_of].
    apply strip_renderTabs, strip_switchTab. intros _. by eexists.
  - assert (Hnone : tabsContainer (doc st) = None).
    { destruct (tabsContainer (doc st)) eqn:E; [|done].
      destruct Hm as [? ?]; [by eexists | congruence]. }
    unfold newTab. cbv zeta. cbn [doc with_arrs with_recs with_tabCounter].
    rewrite Hws. cbn [state_of]. unfold strip_ok, strip_mounted.
    cbn [doc with_arrs with_recs with_tabCounter]. rewrite Hnone.
    split; [done|]. by intros [? ?].
Qed.

Lemma strip_closeTab i st :
  strip_ok st ∧ strip_mounted st ->
  strip_ok (closeTab i st) ∧ strip_mounted (closeTab i st).
Proof.
  intros [Hok Hm]. rewrite closeTab_unfold.
  destruct (findIndex st i) as [[index r]|]; [|done]. cbv zeta.
  assert (Hm1 : strip_mounted (spliced i index st)).
  { intros H. apply Hm in H as [ws Hws]. unfold spliced.
    cbn [doc with_doc with_arrs content with_content]. rewrite Hws. by eexists. }
  apply strip_renderTabs.
  destruct (bool_decide (length (delete index (tabs_list st)) = 0%nat)).
  { intros Hstrip. apply Hm1 in Hstrip as [ws Hws].
    cbn [doc with_doc with_activeTabId content with_placeholder with_urlInput].
    rewrite Hws. by eexists. }
  destruct (bool_decide (activeTabId st = Some i)); [|done].
  case_match; [by apply strip_switchTab | done].
Qed.

Lemma strip_load u st :
  strip_ok st ∧ strip_mounted st ->
  strip_ok (state_of (load u st)) ∧ strip_mounted (state_of (load u st)).
Proof.
  intros Hinv. unfold load. destruct (activeTabId st) as [a|] eqn:Hact.
  - destruct (find st a) as [tab|]; cbn [state_of].
    + apply (strip_ext st); try done.
      * intros [ws Hws]. cbn [doc with_doc with_recs content with_placeholder with_content].
        rewrite Hws. by eexists.
      * rewrite <- (strip_markup_tab_update tab (set_url u) st) by done.
        by apply strip_markup_ext.
    + by apply (strip_ext st).
  - pose proof (strip_newTab u st (proj2 Hinv)) as Hnew.
    destruct (newTab u st) as [j st'|e st']; cbn [state_of] in *; [|done].
    by apply (strip_ext st').
Qed.

Lemma strip_navigate input st :
  strip_ok st ∧ strip_mounted st ->
  strip_ok (state_of (navigate input st)) ∧ strip_mounted (state_of (navigate input st)).
Proof.
  intros Hinv. unfold navigate. destruct input as [[|c s]|]; [done| |done].
  destruct (resolve (c :: s)); [done | by apply strip_load].
Qed.

Lemma strip_init st :
  strip_ok st ∧ strip_mounted st ->
  strip_ok (state_of (init st)) ∧ strip_mounted (state_of (init st)).
Proof.
  intros Hinv. unfold init. destruct (initialized st); [done|].
  destruct (negb (container (options st))); [done|]. cbv zeta.
  set (st1 := with_doc (mounted (options st)) st).
  assert (Hm1 : strip_mounted st1) by (intros _; by eexists).
  pose proof (strip_newTab (startUrl (options st1)) st1 Hm1) as Hnew.
  destruct (newTab (startUrl (options st1)) st1) as [j st'|e st'];
    cbn [state_of] in *; [|done].
  by apply (strip_ext st').
Qed.

Lemma strip_markup_getTabs st : strip_markup (snd (getTabs st)) = strip_markup st.
Proof. unfold strip_markup, tab_records. by rewrite tabs_list_getTabs. Qed.

Lemma strip_listeners tab code text st :
  strip_ok st ∧ strip_mounted st ->
  (strip_ok (did_start_loading tab st) ∧ strip_mounted (did_start_loading tab st))
  ∧ (strip_ok (did_stop_loading tab st) ∧ strip_mounted (did_stop_loading tab st))
  ∧ (strip_ok (did_fail_load tab code text st)
     ∧ strip_mounted (did_fail_load tab code text st))
  ∧ (strip_ok (page_title_updated tab text st)
     ∧ strip_mounted (page_title_updated tab text st))
  ∧ (strip_ok (did_navigate tab text st) ∧ strip_mounted (did_navigate tab text st)).
Proof.
  intros Hinv. split; [|split; [|split; [|split]]].
  - unfold did_start_loading. cbv zeta. case_match; by apply (strip_ext st).
  - unfold did_stop_loading. cbv zeta. case_match; by apply (strip_ext st).
  - unfold did_fail_load. repeat case_match; by apply (strip_ext st).
  - unfold page_title_updated. cbv zeta.
    set (shown := match text with [] => lit "Untitled" | _ => text end).
    assert (H : strip_ok (_renderTabs (tab_update tab (set_title shown) st))
                ∧ strip_mounted (_renderTabs (tab_update tab (set_title shown) st))).
    { apply strip_renderTabs. exact (proj2 Hinv). }
    case_match; [|exact H].
    by apply (strip_ext (_renderTabs (tab_update tab (set_title shown) st))).
  - unfold did_navigate. cbv zeta.
    repeat case_match; apply (strip_ext st); try done;
      rewrite <- (strip_markup_tab_update tab (set_url text) st) by done;
      by apply strip_markup_ext.
Qed.

Lemma strip_keydown ctrlKey key st :
  strip_ok st ∧ strip_mounted st ->
  strip_ok (state_of (keydown ctrlKey key st))
  ∧ strip_mounted (state_of (keydown ctrlKey key st)).
Proof.
  intros Hinv. unfold keydown.
  destruct (ctrlKey && bool_decide (key = lit "t")).
  { pose proof (strip_newTab [] st (proj2 Hinv)) as H. by destruct (newTab [] st). }
  destruct (ctrlKey && bool_decide (key = lit "w")).
  { cbn [state_of]. destruct (activeTabId st) as [a|]; [|done].
    case_match; [done | by apply strip_closeTab]. }
  by destruct (ctrlKey && bool_decide (key = lit "r")).
Qed.

Lemma perform_strip e st :
  strip_ok st ∧ strip_mounted st ->
  strip_ok (perform e st) ∧ strip_mounted (perform e st).
Proof.
  intros Hinv. destruct e; cbn [perform].
  - by apply strip_init.
  - apply strip_newTab, Hinv.
  - apply strip_switchTab, Hinv.
  - by apply strip_closeTab.
  - by apply strip_navigate.
  - apply (strip_ext st); try done. apply strip_markup_getTabs.
  - by apply strip_keydown.
  - unfold urlInput_keydown. case_match; [by apply strip_navigate | done].
  - by apply strip_navigate.
  - apply strip_newTab, Hinv.
  - by apply (strip_listeners tab 0 []).
  - by apply (strip_listeners tab 0 []).
  - by apply strip_listeners.
  - by apply (strip_listeners tab 0).
  - by apply (strip_listeners tab 0).
Qed.

Lemma foldl_perform_strip es : ∀ st,
  strip_ok st ∧ strip_mounted st ->
  strip_ok (foldl (fun st e => perform e st) st es)
  ∧ strip_mounted (foldl (fun st e => perform e st) st es).
Proof.
  induction es as [|e es IH]; intros st Hinv; [done|].
  simpl. by apply IH, perform_strip.
Qed.

(** X6.  Whatever is called on a new instance, and whatever its webviews
    report, in any order: where the tab strip is rendered, its markup is
    the one [_renderTabs] produces for the tabs, titles and active id of
    the moment.  No change of a tab goes by without the strip being
    rendered again. *)
Theorem strip_in_sync opts es : strip_ok (session opts es).
Proof.
  apply foldl_perform_strip. split; [exact I|]. by intros [? ?].
Qed.

Lemma foldl_perform_shell_ok es : ∀ st,
  shell_ok st -> all_known es st -> shell_ok (foldl (fun st e => perform e st) st es).
Proof.
  induction es as [|e es IH]; intros st Hok Hes; [done|].
  destruct Hes as [He Hes]. simpl. apply IH; [|done]. by apply perform_shell_ok.
Qed.

(** X7.  Take a new instance with a container and call [init].  Then call
    its methods, press keys and buttons and let its webviews report, in
    any order, as long as [switchTab] is called with ids of tabs of the
    collection only.  At every point the shell is consistent: there is
    one webview per tab, in the order of the tabs and with the id of its
    tab, the ids are pairwise distinct, the active id is the id of a
    tab, or null when there is no tab, and the webview displayed is the
    one of the active tab and no other. *)
Theorem session_consistent opts es :
  container opts = true ->
  all_known es (session opts [EInit]) ->
  shell_ok (session opts (EInit :: es)).
Proof.
  intros Hc Hes. unfold session in *. cbn [foldl perform] in *.
  apply foldl_perform_shell_ok; [|done]. by apply shell_ok_init_new.
Qed.

Lemma session_consistent_witness :
  shell_ok (session sample_options (EInit :: sample_events)).
Proof.
  apply (session_consistent sample_options sample_events).
  - reflexivity.
  - apply (bool_decide_unpack _). vm_compute. exact I.
Defined.

End Strip.

(** ** What the methods leave behind *)

Section Postconditions.
Import Samples MoreSamples Consistency Wiring Sessions.

Implicit Types (st : State) (i a : Z) (r tab : ref) (u : jstring) (ws : list Webview)
  (t : Tab).

Lemma switchTab_getCurrentUrl i st :
  getCurrentUrl (switchTab i st) = url_or_empty st (find st i).
Proof.
  unfold getCurrentUrl. rewrite switchTab_activeTabId.
  unfold url_or_empty, find, findIndex.
  by rewrite switchTab_tabs_list, switchTab_recs.
Qed.

Lemma renderTabs_getCurrentUrl st : getCurrentUrl (_renderTabs st) = getCurrentUrl st.
Proof. apply getCurrentUrl_ext; by autorewrite with shell. Qed.

Lemma webviews_renderTabs st : webviews (_renderTabs st) = webviews st.
Proof. unfold webviews. by rewrite _renderTabs_content. Qed.

(** In the state [newTab] hands to [switchTab] the new id is found, at
    the new tab. *)
Lemma find_appended u ws st :
  wf st -> content (doc st) = Some ws ->
  find (appended u ws st) (tabCounter st + 1) = Some (fresh (dom (recs st))).
Proof.
  intros Hwf Hws. pose proof Hwf as (_ & Hrefs & _ & Hbound & _).
  destruct (tab_records_appended u ws st Hwf Hws) as [Hlist _].
  unfold find, findIndex. rewrite Hlist, recs_appended.
  set (i := tabCounter st + 1). set (tab := fresh (dom (recs st))).
  set (m' := <[tab := mkTab i u (lit "New Tab")]> (recs st)).
  assert (Hnone : list_find (has_id m' i) (tabs_list st) = None).
  { apply list_find_None, Forall_forall. intros r Hin Hid.
    pose proof (proj1 (Forall_forall _ _) Hrefs r Hin) as [t Ht].
    assert (Hne : tab ≠ r).
    { intros <-. pose proof (is_fresh (dom (recs st))) as Hf.
      apply not_elem_of_dom in Hf. fold tab in Hf. congruence. }
    unfold has_id, m' in Hid. rewrite lookup_insert_ne, Ht in Hid by done.
    injection Hid as Hid.
    assert (Hmem : id t ∈ tab_ids st).
    { unfold tab_ids, tab_records. apply list_elem_of_fmap_2, list_elem_of_omap. eauto. }
    apply (proj1 (Forall_forall _ _) Hbound) in Hmem. lia. }
  rewrite list_find_app_r by done. cbn [list_find].
  rewrite decide_True; [done|]. unfold has_id, m'. by rewrite lookup_insert_eq.
Qed.

Lemma newTab_post u ws st :
  wf st -> content (doc st) = Some ws ->
  newTab u st = Returned (tabCounter st + 1) (state_of (newTab u st))
  ∧ tab_records (state_of (newTab u st))
    = tab_records st ++ [mkTab (tabCounter st + 1) u (lit "New Tab")]
  ∧ activeTabId (state_of (newTab u st)) = Some (tabCounter st + 1)
  ∧ getCurrentUrl (state_of (newTab u st)) = u
  ∧ urlInput (doc (state_of (newTab u st))) = assign u (urlInput (doc st))
  ∧ placeholder (doc (state_of (newTab u st)))
    = assign (match u with [] => DisplayFlex | _ => DisplayNone end) (placeholder (doc st))
  ∧ webviews (state_of (newTab u st))
    = on_webview (tabCounter st + 1) (set_active true)
        (set_active false
           <$> ws ++ [mkWebview (tabCounter st + 1)
                        (match u with [] => None | _ => Some u end) false
                        (fresh (dom (recs st)))]).
Proof.
  intros Hwf Hws.
  pose proof (find_appended u ws st Hwf Hws) as Hfind.
  destruct (tab_records_appended u ws st Hwf Hws) as [_ Hrecords].
  assert (Hurl : url_or_empty (appended u ws st) (Some (fresh (dom (recs st)))) = u).
  { unfold url_or_empty. cbn [mbind option_bind]. rewrite recs_appended.
    by rewrite lookup_insert_eq. }
  rewrite (newTab_unfold u ws st Hws). cbn [state_of].
  split; [done|]. rewrite webviews_renderTabs, webviews_switchTab, webviews_appended.
  autorewrite with shell. rewrite renderTabs_getCurrentUrl.
  rewrite switchTab_getCurrentUrl, Hfind, Hurl.
  split; [done|]. split; [done|]. split; [done|]. split; [done|]. split; done.
Qed.

(** X8.  [newTab] on a shell in a consistent state: the call returns the next
    id; the new tab, titled New Tab, is the last of the collection and the
    active one; the address bar shows its address, and the placeholder
    is shown exactly when that address is empty; the new webview is the
    only one displayed. *)
Theorem newTab_opens_active_tab u st :
  shell_ok st ->
  let i := tabCounter st + 1 in
  let st' := state_of (newTab u st) in
  newTab u st = Returned i st'
  ∧ tab_records st' = tab_records st ++ [mkTab i u (lit "New Tab")]
  ∧ activeTabId st' = Some i
  ∧ getCurrentUrl st' = u
  ∧ urlInput (doc st') = assign u (urlInput (doc st))
  ∧ placeholder (doc st')
    = assign (match u with [] => DisplayFlex | _ => DisplayNone end) (placeholder (doc st))
  ∧ webviews st'
    = (set_active false <$> webviews st)
      ++ [mkWebview i (match u with [] => None | _ => Some u end) true
            (fresh (dom (recs st)))].
Proof.
  intros (_ & ([ws Hws] & Hwf & Hs) & _ & _). cbv zeta.
  destruct (newTab_post u ws st Hwf Hws) as (H1 & H2 & H3 & H4 & H5 & H6 & H7).
  do 6 (split; [done|]). rewrite H7. unfold webviews. rewrite Hws. cbn [default].
  rewrite fmap_app. cbn [fmap list_fmap].
  set (i := tabCounter st + 1).
  assert (Hnone : list_find (is_webview i) (set_active false <$> ws) = None).
  { apply list_find_None, Forall_forall. intros w (w0 & -> & Hw0)%list_elem_of_fmap.
    unfold is_webview. cbn [wv_id set_active].
    assert (Hin : wv_id w0 ∈ tab_ids st).
    { rewrite <- (webview_ids st Hs). unfold webviews. rewrite Hws.
      by apply list_elem_of_fmap_2. }
    destruct Hwf as (_ & _ & _ & Hbound & _).
    apply (proj1 (Forall_forall _ _) Hbound) in Hin. unfold i. lia. }
  unfold on_webview. rewrite list_find_app_r by done. cbn [list_find].
  rewrite decide_True by done. cbn [fmap option_fmap option_map prod_map].
  unfold Datatypes.id. cbn [fst snd Nat.add].
  rewrite insert_app_r_alt, Nat.sub_diag by done. done.
Qed.

Lemma newTab_opens_active_tab_witness :
  let i := tabCounter shell_A + 1 in
  let st' := state_of (newTab (lit "https://b.example") shell_A) in
  newTab (lit "https://b.example") shell_A = Returned i st'
  ∧ tab_records st'
    = tab_records shell_A ++ [mkTab i (lit "https://b.example") (lit "New Tab")]
  ∧ activeTabId st' = Some i
  ∧ getCurrentUrl st' = lit "https://b.example"
  ∧ urlInput (doc st') = assign (lit "https://b.example") (urlInput (doc shell_A))
  ∧ placeholder (doc st')
    = assign (match lit "https://b.example" with [] => DisplayFlex | _ => DisplayNone end)
             (placeholder (doc shell_A))
  ∧ webviews st'
    = (set_active false <$> webviews shell_A)
      ++ [mkWebview i (match lit "https://b.example" with [] => None
                       | _ => Some (lit "https://b.example") end) true
            (fresh (dom (recs shell_A)))].
Proof.
  apply (newTab_opens_active_tab (lit "https://b.example") shell_A).
  apply (bool_decide_unpack _). vm_compute. exact I.
Defined.

End Postconditions.

Section InitFacts.
Import Samples MoreSamples Consistency Wiring Sessions.

Implicit Types (st : State) (opts : Options).

Lemma tab_records_mounted opts :
  tab_records (with_doc (mounted opts) (constructor opts)) = [].
Proof.
  unfold tab_records, tabs_list. cbn [arrs tabs recs with_doc constructor].
  by rewrite lookup_singleton_eq.
Qed.

(** X9.  [init] on an instance that is initialised already returns at once;
    without a container it throws and leaves the instance as it is, so
    that it can be called again; on a new instance with a container it
    mounts the shell and opens the first tab: id 1, on the start
    address, active, its address in the address bar, the placeholder
    shown exactly when the start address is empty.  A second [init]
    changes nothing. *)
Theorem init_mounts_first_tab st opts :
  (initialized st = true -> init st = Returned () st)
  ∧ (initialized st = false -> container (options st) = false ->
       init st = Threw (Error "WebMonitor: Container not found") st)
  ∧ (container opts = true ->
       let st' := state_of (init (constructor opts)) in
       init (constructor opts) = Returned () st'
       ∧ initialized st' = true
       ∧ tab_records st' = [mkTab 1 (startUrl opts) (lit "New Tab")]
       ∧ activeTabId st' = Some 1
       ∧ getCurrentUrl st' = startUrl opts
       ∧ urlInput (doc st') = Some (startUrl opts)
       ∧ placeholder (doc st')
         = Some (match startUrl opts with [] => DisplayFlex | _ => DisplayNone end)
       ∧ init st' = Returned () st').
Proof.
  split; [apply init_initialized|]. split.
  { intros Hi Hc. unfold init. by rewrite Hi, Hc. }
  intros Hc. cbv zeta.
  destruct (init_reaches_newTab (constructor opts) eq_refl Hc) as (st' & _ & Hst' & -> & _).
  cbn [state_of]. change (options (constructor opts)) with opts in Hst'.
  set (st1 := with_doc (mounted opts) (constructor opts)) in *.
  assert (Hwf1 : wf st1) by (apply (wf_ext (constructor opts)); try done; apply wf_constructor).
  destruct (newTab_post (startUrl opts) [] st1 Hwf1 eq_refl)
    as (_ & H2 & H3 & H4 & H5 & H6 & _).
  rewrite <- Hst' in H2, H3, H4, H5, H6.
  unfold st1 in H2. rewrite tab_records_mounted in H2.
  split; [done|]. split; [done|]. split; [exact H2|]. split; [exact H3|].
  split; [|split; [exact H5|split; [exact H6|done]]].
  rewrite <- H4. by apply getCurrentUrl_ext.
Qed.

Lemma init_mounts_first_tab_witness :
  init shell_A = Returned () shell_A
  ∧ init (constructor no_container)
    = Threw (Error "WebMonitor: Container not found") (constructor no_container)
  ∧ (let st' := state_of (init (constructor sample_options)) in
     init (constructor sample_options) = Returned () st'
     ∧ initialized st' = true
     ∧ tab_records st' = [mkTab 1 (startUrl sample_options) (lit "New Tab")]
     ∧ activeTabId st' = Some 1
     ∧ getCurrentUrl st' = startUrl sample_options
     ∧ urlInput (doc st') = Some (startUrl sample_options)
     ∧ placeholder (doc st')
       = Some (match startUrl sample_options with [] => DisplayFlex | _ => DisplayNone end)
     ∧ init st' = Returned () st').
Proof.
  pose proof (init_mounts_first_tab shell_A sample_options) as (Hagain & _ & Hnew).
  pose proof (init_mounts_first_tab (constructor no_container) sample_options)
    as (_ & Hfail & _).
  split; [apply Hagain; vm_compute; reflexivity|].
  split; [apply Hfail; reflexivity|].
  apply Hnew. reflexivity.
Defined.

End InitFacts.

Section SwitchFacts.
Import Samples MoreSamples Consistency Wiring Sessions.

Implicit Types (st : State) (i a : Z) (r tab : ref) (u : jstring) (ws : list Webview)
  (t : Tab).

(** With distinct ids, [find] on the id of a tab of the collection
    returns that tab. *)
Lemma find_record st k t :
  wf st -> tab_records st !! k = Some t ->
  ∃ r, tabs_list st !! k = Some r ∧ recs st !! r = Some t ∧ find st (id t) = Some r.
Proof.
  intros (_ & Hrefs & Hnd & _) Hk.
  unfold tab_records in Hk. rewrite omap_resolved_lookup in Hk by done.
  destruct (tabs_list st !! k) as [r|] eqn:Hr; [|done]. cbn in Hk.
  exists r. split; [done|]. split; [done|].
  assert (Hid : has_id (recs st) (id t) r) by (unfold has_id; by rewrite Hk).
  unfold find, findIndex.
  destruct (list_find (has_id (recs st) (id t)) (tabs_list st)) as [[j r']|] eqn:Hfind.
  - apply list_find_Some in Hfind as (Hj & Hid' & _). cbn. f_equal.
    assert (Hids : ∀ n x, tabs_list st !! n = Some x -> has_id (recs st) (id t) x ->
                          tab_ids st !! n = Some (id t)).
    { intros n x Hn Hx. unfold tab_ids, tab_records.
      rewrite list_lookup_fmap, omap_resolved_lookup, Hn by done. exact Hx. }
    assert (j = k) as ->.
    { eapply NoDup_lookup; [exact Hnd|eauto..]. }
    congruence.
  - apply list_find_None in Hfind. exfalso.
    apply (proj1 (Forall_forall _ _) Hfind r); [|done]. by eapply list_elem_of_lookup_2.
Qed.

Lemma State_eq (s1 s2 : State) :
  options s1 = options s2 -> recs s1 = recs s2 -> arrs s1 = arrs s2 -> tabs s1 = tabs s2 ->
  activeTabId s1 = activeTabId s2 -> tabCounter s1 = tabCounter s2 ->
  initialized s1 = initialized s2 -> doc s1 = doc s2 -> calls s1 = calls s2 -> s1 = s2.
Proof. destruct s1, s2. cbn. by intros -> -> -> -> -> -> -> -> ->. Qed.

Lemma Dom_eq (d1 d2 : Dom) :
  urlInput d1 = urlInput d2 -> placeholder d1 = placeholder d2 -> content d1 = content d2 ->
  tabsContainer d1 = tabsContainer d2 -> statusDot d1 = statusDot d2 ->
  statusText d1 = statusText d2 -> d1 = d2.
Proof. destruct d1, d2. cbn. by intros -> -> -> -> -> ->. Qed.

Lemma switchTab_status i st :
  statusDot (doc (switchTab i st)) = statusDot (doc st)
  ∧ statusText (doc (switchTab i st)) = statusText (doc st).
Proof. unfold switchTab. by rewrite _renderTabs_statusDot, _renderTabs_statusText. Qed.

Lemma _renderTabs_tabsContainer st :
  tabsContainer (doc (_renderTabs st))
  = match tabsContainer (doc st) with
    | Some s => if showTabs (options st) then Some (strip_markup st) else Some s
    | None => None
    end.
Proof.
  unfold _renderTabs. destruct (tabsContainer (doc st)) as [s|] eqn:Hs; [|by rewrite Hs].
  destruct (showTabs (options st)); cbn [negb]; [done | by rewrite Hs].
Qed.

Lemma switchTab_tabsContainer i st :
  tabsContainer (doc (switchTab i st))
  = match tabsContainer (doc st) with
    | Some s =>
      if showTabs (options st) then Some (strip_markup (with_activeTabId (Some i) st))
      else Some s
    | None => None
    end.
Proof. unfold switchTab. by rewrite _renderTabs_tabsContainer. Qed.

Lemma set_active_twice i ws :
  set_active false <$> on_webview i (set_active true) (set_active false <$> ws)
  = set_active false <$> ws.
Proof.
  destruct (on_webview_cases i (set_active true) (set_active false <$> ws))
    as [[_ ->]|(k & w & Hfind & ->)].
  - rewrite <- list_fmap_compose. by apply list_fmap_ext.
  - apply list_find_Some in Hfind as (Hk & _ & _).
    rewrite list_fmap_insert, <- list_fmap_compose.
    rewrite list_lookup_fmap in Hk.
    destruct (ws !! k) as [w0|] eqn:Hw0; [|done]. injection Hk as <-.
    replace (set_active false ∘ set_active false <$> ws) with (set_active false <$> ws)
      by by apply list_fmap_ext.
    apply list_insert_id. by rewrite list_lookup_fmap, Hw0.
Qed.

Lemma switchTab_idem i st : switchTab i (switchTab i st) = switchTab i st.
Proof.
  assert (Hurl : url_or_empty (switchTab i st) (find (switchTab i st) i)
                 = url_or_empty st (find st i)).
  { unfold url_or_empty, find, findIndex. by autorewrite with shell. }
  destruct (switchTab_status i st) as [Hdot Htext].
  destruct (switchTab_status i (switchTab i st)) as [Hdot' Htext'].
  apply State_eq; autorewrite with shell; try done.
  apply Dom_eq; autorewrite with shell.
  - by rewrite Hurl, assign_assign.
  - by rewrite Hurl, assign_assign.
  - rewrite webviews_switchTab, set_active_twice.
    by destruct (content (doc st)).
  - rewrite !switchTab_tabsContainer. autorewrite with shell.
    assert (Hstrip : strip_markup (with_activeTabId (Some i) (switchTab i st))
                     = strip_markup (with_activeTabId (Some i) st)).
    { apply strip_markup_ext; cbn [activeTabId arrs tabs recs with_activeTabId];
        by autorewrite with shell. }
    destruct (tabsContainer (doc st)); [|done].
    destruct (showTabs (options st)); [by rewrite Hstrip | done].
  - congruence.
  - congruence.
Qed.

(** X10.  [switchTab] on a tab of a consistent shell makes it the active tab:
    the address bar shows its address, the placeholder is shown exactly
    when that address is empty, its webview is the only one displayed,
    and the collection is as it was.  A second call with the same id
    changes nothing. *)
Theorem switchTab_shows_tab st k t :
  shell_ok st -> tab_records st !! k = Some t ->
  let st' := switchTab (id t) st in
  activeTabId st' = Some (id t)
  ∧ getCurrentUrl st' = url t
  ∧ urlInput (doc st') = assign (url t) (urlInput (doc st))
  ∧ placeholder (doc st')
    = assign (match url t with [] => DisplayFlex | _ => DisplayNone end) (placeholder (doc st))
  ∧ tab_records st' = tab_records st
  ∧ wv_id <$> webviews st' = tab_ids st
  ∧ Forall (fun w => wv_active w = bool_decide (wv_id w = id t)) (webviews st')
  ∧ switchTab (id t) st' = st'.
Proof.
  intros Hok Hk. pose proof Hok as (_ & (_ & Hwf & _) & _). cbv zeta.
  destruct (find_record st k t Hwf Hk) as (r & Hr & Ht & Hfind).
  assert (Hurl : url_or_empty st (find st (id t)) = url t).
  { rewrite Hfind. unfold url_or_empty. cbn. by rewrite Ht. }
  assert (Hin : id t ∈ tab_ids st).
  { unfold tab_ids. apply list_elem_of_fmap_2. by eapply list_elem_of_lookup_2. }
  destruct (shell_ok_switchTab (id t) st Hok Hin) as (_ & (_ & _ & Hs') & _ & Hshown').
  rewrite switchTab_getCurrentUrl. autorewrite with shell. rewrite Hurl.
  do 5 (split; [done|]). split; [|split; [|apply switchTab_idem]].
  - rewrite (webview_ids _ Hs'). by autorewrite with shell.
  - unfold shown_ok in Hshown'. rewrite switchTab_activeTabId in Hshown'.
    eapply Forall_impl; [exact Hshown'|]. cbn. intros w ->.
    apply bool_decide_ext. split; congruence.
Qed.

Lemma switchTab_shows_tab_witness :
  let st' := switchTab (id tab_A) shell_ABC in
  activeTabId st' = Some (id tab_A)
  ∧ getCurrentUrl st' = url tab_A
  ∧ urlInput (doc st') = assign (url tab_A) (urlInput (doc shell_ABC))
  ∧ placeholder (doc st')
    = assign (match url tab_A with [] => DisplayFlex | _ => DisplayNone end)
             (placeholder (doc shell_ABC))
  ∧ tab_records st' = tab_records shell_ABC
  ∧ wv_id <$> webviews st' = tab_ids shell_ABC
  ∧ Forall (fun w => wv_active w = bool_decide (wv_id w = id tab_A)) (webviews st')
  ∧ switchTab (id tab_A) st' = st'.
Proof.
  apply (switchTab_shows_tab shell_ABC 0 tab_A).
  - apply (bool_decide_unpack _). vm_compute. exact I.
  - vm_compute. reflexivity.
Defined.

End SwitchFacts.

Section CloseFacts.
Import Samples MoreSamples Consistency Wiring Sessions.

Implicit Types (st : State) (i a : Z) (r tab : ref) (u : jstring) (ws : list Webview)
  (t : Tab).

Lemma filter_all {A} (P : A -> Prop) `{!∀ x, Decision (P x)} (l : list A) :
  Forall P l -> filter P l = l.
Proof.
  induction 1 as [|x l Hx _ IH]; [done|].
  rewrite filter_cons_True by done. by f_equal.
Qed.

Lemma delete_filter_NoDup {A} `{!EqDecision A} (l : list A) k x :
  NoDup l -> l !! k = Some x -> delete k l = filter (fun y => y ≠ x) l.
Proof.
  intros Hnd. revert k. induction Hnd as [|y l Hy Hnd IH]; intros k Hk; [done|].
  destruct k as [|k]; cbn in Hk.
  - injection Hk as ->. rewrite filter_cons_False by (intros H; by apply H).
    cbn. symmetry. apply filter_all, Forall_forall. by intros z Hz ->.
  - rewrite filter_cons_True.
    + cbn. f_equal. by apply IH.
    + intros ->. apply Hy. by eapply list_elem_of_lookup_2.
Qed.

Lemma list_find_delete_other {A} (P : A -> Prop) `{!∀ x, Decision (P x)} (l : list A) k y :
  l !! k = Some y -> ¬ P y -> snd <$> list_find P (delete k l) = snd <$> list_find P l.
Proof.
  revert k. induction l as [|x l IH]; intros k Hk Hy; [done|].
  destruct k as [|k]; cbn in Hk.
  - injection Hk as ->. cbn [delete list_delete list_find].
    rewrite decide_False by done. by destruct (list_find P l) as [[? ?]|].
  - cbn [delete list_delete list_find]. destruct (decide (P x)); [done|].
    specialize (IH k Hk Hy).
    destruct (list_find P (delete k l)) as [[? ?]|], (list_find P l) as [[? ?]|];
      cbn in *; congruence.
Qed.

Lemma findIndex_absent st i : i ∉ tab_ids st -> findIndex st i = None.
Proof.
  intros Hi. apply list_find_None, Forall_forall. intros r Hr Hid. apply Hi.
  unfold has_id in Hid. destruct (recs st !! r) as [t|] eqn:Ht; [|done].
  injection Hid as <-. unfold tab_ids, tab_records.
  apply list_elem_of_fmap_2, list_elem_of_omap. eauto.
Qed.

Lemma findIndex_present st i index r : findIndex st i = Some (index, r) -> i ∈ tab_ids st.
Proof.
  intros (Hr & Hid & _)%list_find_Some.
  unfold has_id in Hid. destruct (recs st !! r) as [t|] eqn:Ht; [|done].
  injection Hid as <-. unfold tab_ids, tab_records.
  apply list_elem_of_fmap_2, list_elem_of_omap. exists r. split; [|done].
  by eapply list_elem_of_lookup_2.
Qed.

Lemma tab_ids_closeTab st i :
  wf st -> tab_ids (closeTab i st) = filter (fun j => j ≠ i) (tab_ids st).
Proof.
  intros Hwf. pose proof Hwf as (_ & Hrefs & Hnd & _).
  destruct (findIndex st i) as [[index r]|] eqn:Hfind.
  - assert (Hids : tab_ids (closeTab i st) = delete index (tab_ids st)).
    { unfold tab_ids, tab_records.
      rewrite (closeTab_tabs_list _ _ _ _ Hfind), closeTab_recs.
      by rewrite omap_resolved_delete, list_fmap_delete. }
    rewrite Hids. apply delete_filter_NoDup; [done|].
    apply findIndex_lookup in Hfind as [Hr Hid].
    unfold tab_ids, tab_records. rewrite list_lookup_fmap, omap_resolved_lookup, Hr by done.
    exact Hid.
  - rewrite closeTab_not_found by done. symmetry. apply filter_all, Forall_forall.
    intros j Hj ->. apply list_find_None in Hfind.
    apply elem_of_tab_ids in Hj as (r & Hr & Hid).
    by apply (proj1 (Forall_forall _ _) Hfind r).
Qed.

Lemma closeTab_idem st i : wf st -> closeTab i (closeTab i st) = closeTab i st.
Proof.
  intros Hwf. apply closeTab_not_found, findIndex_absent.
  rewrite tab_ids_closeTab by done. intros [H _]%list_elem_of_filter. by apply H.
Qed.

(** Closing a tab other than the active one leaves the toolbar alone. *)
Lemma closeTab_other st i :
  shell_ok st -> activeTabId st ≠ Some i ->
  activeTabId (closeTab i st) = activeTabId st
  ∧ getCurrentUrl (closeTab i st) = getCurrentUrl st
  ∧ urlInput (doc (closeTab i st)) = urlInput (doc st)
  ∧ placeholder (doc (closeTab i st)) = placeholder (doc st).
Proof.
  intros (_ & Hp & Hactive & _) Hne. pose proof Hp as (_ & Hwf & _).
  pose proof Hwf as (_ & Hrefs & _).
  destruct (findIndex st i) as [[index r]|] eqn:Hfind; [|by rewrite closeTab_not_found].
  destruct (paired_spliced i index r st Hp Hfind) as (_ & _ & Hids1 & Hi).
  pose proof (findIndex_lookup _ _ _ _ Hfind) as [Hr Hid].
  rewrite closeTab_unfold, Hfind. cbv zeta.
  rewrite bool_decide_eq_false_2.
  2:{ intros Hlen. unfold active_ok in Hactive.
      destruct (activeTabId st) as [a|] eqn:Hact; [|by rewrite Hactive in Hr].
      assert (Hlen' : length (tab_ids st) = 1%nat).
      { unfold tab_ids, tab_records. rewrite length_fmap, omap_resolved_length by done.
        rewrite length_delete in Hlen by eauto. apply lookup_lt_Some in Hr. lia. }
      destruct (tab_ids st) as [|j [|? ?]] eqn:Hl; try done.
      apply list_elem_of_singleton in Hactive as ->.
      destruct index; cbn in Hi; [congruence | done]. }
  rewrite bool_decide_eq_false_2 by done.
  rewrite renderTabs_getCurrentUrl. autorewrite with shell.
  split; [done|]. split; [|done].
  unfold getCurrentUrl. change (activeTabId (spliced i index st)) with (activeTabId st).
  destruct (activeTabId st) as [a|]; [|done].
  unfold url_or_empty, find, findIndex. rewrite spliced_tabs_list, spliced_recs.
  rewrite (list_find_delete_other _ _ index r); [done | done|].
  intros Hid'. apply Hne. f_equal. by eapply has_id_functional.
Qed.

(** X11.  [closeTab] on a consistent shell removes the tab with the id and its
    webview, and nothing else: the ids that remain are the others, in
    their order, each with its webview.  Closing the same id again
    changes nothing.  When the tab was not the active one, the active
    tab, the current address, the address bar and the placeholder stay
    as they were. *)
Theorem closeTab_removes_tab st i :
  shell_ok st ->
  let st' := closeTab i st in
  tab_ids st' = filter (fun j => j ≠ i) (tab_ids st)
  ∧ wv_id <$> webviews st' = tab_ids st'
  ∧ closeTab i st' = st'
  ∧ (activeTabId st ≠ Some i ->
       activeTabId st' = activeTabId st
       ∧ getCurrentUrl st' = getCurrentUrl st
       ∧ urlInput (doc st') = urlInput (doc st)
       ∧ placeholder (doc st') = placeholder (doc st)).
Proof.
  intros Hok. pose proof Hok as (_ & (_ & Hwf & _) & _). cbv zeta.
  split; [by apply tab_ids_closeTab|]. split; [|split].
  - apply webview_ids. by destruct (shell_ok_closeTab i st Hok) as (_ & (_ & _ & Hs) & _).
  - by apply closeTab_idem.
  - by apply closeTab_other.
Qed.

Lemma closeTab_removes_tab_witness :
  let st' := closeTab 1 shell_ABC in
  tab_ids st' = filter (fun j => j ≠ 1) (tab_ids shell_ABC)
  ∧ wv_id <$> webviews st' = tab_ids st'
  ∧ closeTab 1 st' = st'
  ∧ (activeTabId shell_ABC ≠ Some 1 ->
       activeTabId st' = activeTabId shell_ABC
       ∧ getCurrentUrl st' = getCurrentUrl shell_ABC
       ∧ urlInput (doc st') = urlInput (doc shell_ABC)
       ∧ placeholder (doc st') = placeholder (doc shell_ABC)).
Proof.
  apply (closeTab_removes_tab shell_ABC 1).
  apply (bool_decide_unpack _). vm_compute. exact I.
Defined.

(** C3.  In a consistent shell with more than one tab, closing the
    active tab, found at [index], activates the tab [t] at position
    [min index (count - 1)] of the remaining collection: [t] is the
    active tab and the only one, its address is the current address and
    the one in the address bar, the placeholder is shown exactly when
    that address is empty, the webview of the closed tab is gone, and of
    the webviews that remain, one per tab, the one of [t] is displayed
    and no other. *)
Theorem closeTab_activates_neighbour st i index r :
  paired st ->
  findIndex st i = Some (index, r) ->
  activeTabId st = Some i ->
  (1 < length (tabs_list st))%nat ->
  let st' := closeTab i st in
  let count := length (tabs_list st') in
  tabs_list st' = delete index (tabs_list st)
  ∧ ∃ r' t,
      tabs_list st' !! Nat.min index (count - 1) = Some r'
      ∧ recs st' !! r' = Some t
      ∧ tab_records st' !! Nat.min index (count - 1) = Some t
      ∧ activeTabId st' = Some (id t)
      ∧ active_tabs st' = [t]
      ∧ getCurrentUrl st' = url t
      ∧ urlInput (doc st') = assign (url t) (urlInput (doc st))
      ∧ placeholder (doc st')
        = assign (match url t with [] => DisplayFlex | _ => DisplayNone end)
                 (placeholder (doc st))
      ∧ wv_id <$> webviews st' = tab_ids st'
      ∧ (i ∉ tab_ids st')
      ∧ Forall (fun w => wv_active w = bool_decide (wv_id w = id t)) (webviews st').
Proof.
  intros Hp Hfind Hact Hlen st' count.
  pose proof Hp as (_ & Hwf & _). pose proof Hwf as (Harr & Hrefs & Hnd & _).
  destruct (paired_spliced i index r st Hp Hfind) as (Hp1 & _ & _ & _).
  set (st1 := spliced i index st) in *.
  assert (Hlist : tabs_list st' = delete index (tabs_list st))
    by apply (closeTab_tabs_list _ _ _ _ Hfind).
  split; [done|].
  destruct (findIndex_lookup _ _ _ _ Hfind) as [Hr _].
  assert (Hcount : count = (length (tabs_list st) - 1)%nat).
  { unfold count. rewrite Hlist, length_delete by eauto. done. }
  set (l' := delete index (tabs_list st)) in *.
  assert (Hrefs' : Forall (fun r => is_Some (recs st !! r)) l') by by apply Forall_delete.
  assert (Hin : (Nat.min index (count - 1) < length l')%nat).
  { rewrite <- Hlist. fold count. lia. }
  destruct (lookup_lt_is_Some_2 _ _ Hin) as [r' Hr'].
  destruct (proj1 (Forall_lookup _ _) Hrefs' _ _ Hr') as [t Ht].
  assert (Hst' : st' = _renderTabs (switchTab (id t) st1)).
  { unfold st'. rewrite closeTab_unfold, Hfind. cbv zeta. fold l' st1.
    rewrite bool_decide_eq_false_2 by (rewrite <- Hlist; fold count; lia).
    rewrite bool_decide_eq_true_2 by done.
    replace (length l' - 1)%nat with (count - 1)%nat by (unfold count; by rewrite Hlist).
    rewrite Hr'. simpl. by rewrite Ht. }
  assert (Hrecords : tab_records st' = delete index (tab_records st)).
  { rewrite Hst'. autorewrite with shell. by apply spliced_tab_records. }
  assert (Hlookup : tab_records st' !! Nat.min index (count - 1) = Some t).
  { rewrite Hrecords. unfold tab_records. rewrite <- omap_resolved_delete by done.
    fold l'. rewrite omap_resolved_lookup by done. rewrite Hr'. done. }
  assert (Hactive : activeTabId st' = Some (id t)).
  { rewrite Hst'. by autorewrite with shell. }
  assert (Hrecs : recs st' = recs st) by apply closeTab_recs.
  assert (Hlookup1 : tab_records st1 !! Nat.min index (count - 1) = Some t).
  { rewrite <- Hlookup, Hst'. by autorewrite with shell. }
  destruct (find_record st1 _ t (proj1 (proj2 Hp1)) Hlookup1) as (r1 & _ & Hr1 & Hfind1).
  assert (Hurl : url_or_empty st1 (find st1 (id t)) = url t).
  { rewrite Hfind1. unfold url_or_empty. cbn [mbind option_bind]. by rewrite Hr1. }
  assert (Hmem : id t ∈ tab_ids st1).
  { unfold tab_ids. apply list_elem_of_fmap_2. by eapply list_elem_of_lookup_2. }
  destruct (parts_switchTab (id t) st1 Hp1 Hmem) as ((_ & _ & Hs') & _ & Hshown').
  exists r', t. split; [by rewrite Hlist|]. split; [by rewrite Hrecs|].
  split; [done|]. split; [done|]. split.
  { unfold active_tabs. rewrite Hactive.
    apply (filter_id_unique _ (Nat.min index (count - 1))); [|done].
    rewrite Hrecords, list_fmap_delete.
    apply (sublist_NoDup _ _ Hnd), sublist_delete. }
  split; [|split; [|split; [|split; [|split]]]].
  - by rewrite Hst', renderTabs_getCurrentUrl, switchTab_getCurrentUrl.
  - rewrite Hst'. autorewrite with shell. by rewrite Hurl.
  - rewrite Hst'. autorewrite with shell. by rewrite Hurl.
  - rewrite Hst', webviews_renderTabs, (webview_ids _ Hs'). by autorewrite with shell.
  - unfold st'. rewrite tab_ids_closeTab by done.
    intros [H _]%list_elem_of_filter. by apply H.
  - rewrite Hst', webviews_renderTabs.
    unfold shown_ok in Hshown'. rewrite switchTab_activeTabId in Hshown'.
    eapply Forall_impl; [exact Hshown'|]. cbn. intros w ->.
    apply bool_decide_ext. split; congruence.
Qed.

Lemma closeTab_activates_neighbour_witness :
  let st' := closeTab 2 shell_ABC_at_B in
  let count := length (tabs_list st') in
  tabs_list st' = delete 1%nat (tabs_list shell_ABC_at_B)
  ∧ ∃ r' t,
      tabs_list st' !! Nat.min 1 (count - 1) = Some r'
      ∧ recs st' !! r' = Some t
      ∧ tab_records st' !! Nat.min 1 (count - 1) = Some t
      ∧ activeTabId st' = Some (id t)
      ∧ active_tabs st' = [t]
      ∧ getCurrentUrl st' = url t
      ∧ urlInput (doc st') = assign (url t) (urlInput (doc shell_ABC_at_B))
      ∧ placeholder (doc st')
        = assign (match url t with [] => DisplayFlex | _ => DisplayNone end)
                 (placeholder (doc shell_ABC_at_B))
      ∧ wv_id <$> webviews st' = tab_ids st'
      ∧ (2 ∉ tab_ids st')
      ∧ Forall (fun w => wv_active w = bool_decide (wv_id w = id t)) (webviews st').
Proof.
  apply (closeTab_activates_neighbour shell_ABC_at_B 2 1%nat 2%positive).
  - apply (bool_decide_unpack _). vm_compute. exact I.
  - vm_compute. reflexivity.
  - vm_compute. reflexivity.
  - vm_compute. lia.
Defined.

End CloseFacts.

Section ActiveFacts.
Import Samples MoreSamples Consistency Wiring Sessions.

Implicit Types (st : State) (i a : Z) (r tab : ref) (u : jstring) (ws : list Webview)
  (t : Tab).

Lemma findIndex_elem st a : a ∈ tab_ids st -> ∃ index r, findIndex st a = Some (index, r).
Proof.
  intros Ha. destruct (findIndex st a) as [[index r]|] eqn:Hfind; [eauto|].
  apply list_find_None in Hfind. apply elem_of_tab_ids in Ha as (r & Hr & Hid).
  by destruct (proj1 (Forall_forall _ _) Hfind r Hr).
Qed.

(** In a consistent shell [getElementById] finds the webview of the
    active tab, and that webview is displayed. *)
Lemma active_webview st a :
  shell_ok st -> activeTabId st = Some a ->
  ∃ k w, list_find (is_webview a) (webviews st) = Some (k, w)
         ∧ wv_id w = a ∧ wv_active w = true.
Proof.
  intros (_ & (_ & Hwf & Hs) & Hactive & Hshown) Ha.
  unfold active_ok in Hactive. rewrite Ha in Hactive.
  rewrite <- (webview_ids st Hs) in Hactive.
  apply list_elem_of_fmap in Hactive as (w0 & Hw0 & Hin).
  destruct (list_find (is_webview a) (webviews st)) as [[k w]|] eqn:Hfind.
  - exists k, w. split; [done|].
    apply list_find_Some in Hfind as (Hk & Hw & _). split; [done|].
    apply list_elem_of_lookup_2 in Hk.
    pose proof (proj1 (Forall_forall _ _) Hshown w Hk) as Hw'. cbn beta in Hw'.
    rewrite Hw', Ha.
    apply bool_decide_eq_true. by f_equal.
  - apply list_find_None in Hfind.
    by destruct (proj1 (Forall_forall _ _) Hfind w0 Hin).
Qed.

Lemma keydown_r st : keydown true (lit "r") st = Returned (PreventDefault :: reload st) st.
Proof. reflexivity. Qed.

Lemma keydown_w st :
  keydown true (lit "w") st
  = Returned [PreventDefault]
      (match activeTabId st with
       | Some a => if bool_decide (a = 0) then st else closeTab a st
       | None => st
       end).
Proof. reflexivity. Qed.

Lemma keydown_t st :
  keydown true (lit "t") st
  = match newTab [] st with
    | Returned _ st' => Returned [PreventDefault] st'
    | Threw e st' => Threw e st'
    end.
Proof. reflexivity. Qed.

(** X12.  In a consistent shell with an active tab, the history methods and
    Ctrl+R act on the webview of the active tab, which is the one on
    display and the only one: [reload] reloads it, [goBack] and
    [goForward] ask it whether it can and then tell it to. *)
Theorem history_acts_on_shown_webview st a (can : Webview -> bool) :
  shell_ok st -> activeTabId st = Some a ->
  ∃ w, activeWebview st = Some w
       ∧ wv_id w = a ∧ wv_active w = true
       ∧ (∀ w', w' ∈ webviews st -> wv_active w' = true -> w' = w)
       ∧ reload st = [Reload a]
       ∧ goBack can st = (if can w then [GoBack a] else [])
       ∧ goForward can st = (if can w then [GoForward a] else [])
       ∧ keydown true (lit "r") st = Returned [PreventDefault; Reload a] st.
Proof.
  intros Hok Ha. destruct (active_webview st a Hok Ha) as (k & w & Hfind & Hid & Hon).
  destruct Hok as (_ & (_ & Hwf & Hs) & _ & Hshown).
  assert (Hactive : activeWebview st = Some w).
  { unfold activeWebview. rewrite Ha. cbn. by rewrite Hfind. }
  exists w. split; [done|]. split; [done|]. split; [done|].
  split; [|rewrite keydown_r; unfold reload, goBack, goForward; rewrite Hactive, Hid; done].
  intros w' Hin Hon'.
  pose proof (proj1 (Forall_forall _ _) Hshown w' Hin) as Hw'.
  cbn beta in Hw'. rewrite Hon', Ha in Hw'. symmetry in Hw'. apply bool_decide_eq_true in Hw'.
  injection Hw' as Hid'.
  apply list_elem_of_lookup_1 in Hin as [j Hj].
  apply list_find_Some in Hfind as (Hk & _ & _).
  assert (j = k) as ->; [|congruence].
  apply (NoDup_lookup (wv_id <$> webviews st) j k a).
  - by apply NoDup_webview_ids.
  - by rewrite list_lookup_fmap, Hj; cbn; rewrite Hid'.
  - by rewrite list_lookup_fmap, Hk; cbn; rewrite Hid.
Qed.

Lemma history_acts_on_shown_webview_witness :
  ∃ w, activeWebview shell_ABC = Some w
       ∧ wv_id w = 3 ∧ wv_active w = true
       ∧ (∀ w', w' ∈ webviews shell_ABC -> wv_active w' = true -> w' = w)
       ∧ reload shell_ABC = [Reload 3]
       ∧ goBack (fun _ => true) shell_ABC = (if true then [GoBack 3] else [])
       ∧ goForward (fun _ => true) shell_ABC = (if true then [GoForward 3] else [])
       ∧ keydown true (lit "r") shell_ABC = Returned [PreventDefault; Reload 3] shell_ABC.
Proof.
  apply (history_acts_on_shown_webview shell_ABC 3 (fun _ => true)).
  - apply (bool_decide_unpack _). vm_compute. exact I.
  - vm_compute. reflexivity.
Defined.

(** *** Ctrl+W *)

Lemma close_presses_all n : ∀ st,
  shell_ok st -> length (tab_ids st) = n ->
  shell_ok (close_presses n st) ∧ tab_ids (close_presses n st) = [].
Proof.
  induction n as [|n IH]; intros st Hok Hlen.
  - split; [done|]. by apply nil_length_inv.
  - cbn [close_presses]. rewrite keydown_w. cbn [state_of].
    pose proof Hok as (_ & (_ & Hwf & _) & Hactive & _).
    pose proof Hwf as (_ & Hrefs & _ & Hbound & _).
    unfold active_ok in Hactive.
    destruct (activeTabId st) as [a|].
    2:{ unfold tab_ids, tab_records in Hlen. by rewrite Hactive in Hlen. }
    pose proof (proj1 (Forall_forall _ _) Hbound a Hactive) as Hpos.
    cbn beta in Hpos. rewrite bool_decide_eq_false_2 by lia.
    apply IH; [by apply shell_ok_closeTab|].
    destruct (findIndex_elem st a Hactive) as (index & r & Hfind).
    unfold tab_ids, tab_records.
    rewrite (closeTab_tabs_list _ _ _ _ Hfind), closeTab_recs.
    rewrite omap_resolved_delete, list_fmap_delete by done.
    fold (tab_records st) (tab_ids st).
    apply findIndex_lookup in Hfind as [Hr _].
    rewrite length_delete.
    + lia.
    + apply lookup_lt_is_Some. unfold tab_ids, tab_records.
      rewrite length_fmap, omap_resolved_length by done. by eapply lookup_lt_Some.
Qed.

(** X13.  Ctrl+W closes the active tab.  Pressed as many times as a consistent
    shell has tabs, it closes them all: no tab, no webview and no active
    id are left, the current address is empty, and a further Ctrl+W does
    nothing. *)
Theorem ctrl_w_closes_all st :
  shell_ok st ->
  let st' := close_presses (length (tab_ids st)) st in
  tab_ids st' = []
  ∧ webviews st' = []
  ∧ activeTabId st' = None
  ∧ getCurrentUrl st' = []
  ∧ keydown true (lit "w") st' = Returned [PreventDefault] st'.
Proof.
  intros Hok. cbv zeta.
  destruct (close_presses_all (length (tab_ids st)) st Hok eq_refl) as [Hok' Hnil].
  set (st' := close_presses (length (tab_ids st)) st) in *.
  destruct Hok' as (_ & (_ & _ & Hs) & Hactive & _).
  assert (Hnone : activeTabId st' = None).
  { unfold active_ok in Hactive. destruct (activeTabId st') as [a|]; [|done].
    rewrite Hnil in Hactive. by apply elem_of_nil in Hactive. }
  split; [done|]. split; [|split; [done|split]].
  - apply webview_ids in Hs. rewrite Hnil in Hs. by apply fmap_nil_inv in Hs.
  - unfold getCurrentUrl. by rewrite Hnone.
  - by rewrite keydown_w, Hnone.
Qed.

Lemma ctrl_w_closes_all_witness :
  let st' := close_presses (length (tab_ids shell_ABC)) shell_ABC in
  tab_ids st' = []
  ∧ webviews st' = []
  ∧ activeTabId st' = None
  ∧ getCurrentUrl st' = []
  ∧ keydown true (lit "w") st' = Returned [PreventDefault] st'.
Proof.
  apply (ctrl_w_closes_all shell_ABC).
  apply (bool_decide_unpack _). vm_compute. exact I.
Defined.

End ActiveFacts.

Section NavigateFacts.
Import Samples MoreSamples Consistency Wiring Sessions.

Implicit Types (st : State) (i a : Z) (r tab : ref) (s u : jstring) (ws : list Webview)
  (t : Tab).

Lemma resolve_nonempty s u : resolve s = inr u -> u ≠ [].
Proof.
  unfold resolve. destruct (_isValidUrl s) eqn:Hvalid; cbn [negb].
  - destruct (matches_prefix schemePattern s); cbn [negb]; intros [= <-]; [|done].
    by apply _isValidUrl_nonempty.
  - destruct (encodeURIComponent s); [|done]. intros [= <-]. done.
Qed.

Lemma load_webviews_active u st a tab :
  activeTabId st = Some a -> find st a = Some tab ->
  webviews (state_of (load u st)) = on_webview a (set_src u) (webviews st).
Proof.
  intros Ha Hfind. unfold load. rewrite Ha, Hfind. cbn [state_of]. unfold webviews.
  cbn [doc content with_doc with_recs with_content with_placeholder].
  by destruct (content (doc st)).
Qed.

Lemma list_find_on_webview a f ws k w :
  list_find (is_webview a) ws = Some (k, w) -> wv_id (f w) = wv_id w ->
  list_find (is_webview a) (on_webview a f ws) = Some (k, f w).
Proof.
  intros Hfind Hf. unfold on_webview. rewrite Hfind.
  apply list_find_Some in Hfind as (Hk & Hw & Hbefore).
  apply list_find_Some. split; [|split].
  - apply list_lookup_insert_eq. by eapply lookup_lt_Some.
  - unfold is_webview in *. congruence.
  - intros j y Hj Hlt. rewrite list_lookup_insert_ne in Hj by lia. by eapply Hbefore.
Qed.

(** X14.  [navigate] on a consistent shell, with an input that resolves to the
    address [u]: the call returns, [u] is the current address, the
    placeholder is hidden, and the webview on display is pointed at
    [u].  With an active tab it is that tab which is navigated and no
    tab is opened; without one, which means without any tab, a tab is
    opened for [u]. *)
Theorem navigate_loads_shown_webview s u st :
  shell_ok st -> s ≠ [] -> resolve s = inr u ->
  let st' := state_of (navigate (Some s) st) in
  navigate (Some s) st = Returned () st'
  ∧ getCurrentUrl st' = u
  ∧ placeholder (doc st') = assign DisplayNone (placeholder (doc st))
  ∧ (∃ w, activeWebview st' = Some w ∧ wv_src w = Some u ∧ wv_active w = true)
  ∧ (∀ a, activeTabId st = Some a -> activeTabId st' = Some a ∧ tab_ids st' = tab_ids st)
  ∧ (activeTabId st = None ->
       activeTabId st' = Some (tabCounter st + 1) ∧ tab_ids st' = [tabCounter st + 1]).
Proof.
  intros Hok Hne Hres. cbv zeta. rewrite (navigate_nonempty s st Hne), Hres.
  pose proof (resolve_nonempty s u Hres) as Hu.
  pose proof Hok as (_ & ([ws Hws] & Hwf & Hs) & Hactive & _).
  unfold active_ok in Hactive.
  destruct (activeTabId st) as [a|] eqn:Ha.
  - destruct (load_active_tab u st a Ha Hactive) as (H1 & H2 & H3 & H4 & H5).
    split; [done|]. split; [done|]. split; [done|].
    split; [|split; [by intros ? [= <-] | done]].
    destruct (findIndex_elem st a Hactive) as (index & tab & Hfind).
    assert (Hfind' : find st a = Some tab) by (unfold find; by rewrite Hfind).
    destruct (active_webview st a Hok Ha) as (k & w & Hw & Hid & Hon).
    exists (set_src u w). split; [|done].
    unfold activeWebview. rewrite H4. cbn [mbind option_bind].
    rewrite (load_webviews_active u st a tab Ha Hfind').
    by rewrite (list_find_on_webview a (set_src u) _ k w Hw eq_refl).
  - destruct (load_no_active_tab u st Hwf Ha (ex_intro _ ws Hws)) as (H1 & H2 & H3 & H4 & H5).
    assert (Hnil : tab_ids st = []) by (unfold tab_ids, tab_records; by rewrite Hactive).
    rewrite Hnil in H3.
    split; [done|]. split; [done|]. split; [done|]. split; [|done].
    destruct (newTab_post u ws st Hwf Hws) as (Hret & _ & _ & _ & _ & _ & Hwebviews).
    assert (Hws0 : ws = []).
    { unfold surfaces_ok in Hs. rewrite Hactive in Hs. apply Forall2_nil_inv_r in Hs.
      unfold webviews in Hs. by rewrite Hws in Hs. }
    subst ws.
    assert (Hload : webviews (state_of (load u st)) = webviews (state_of (newTab u st))).
    { unfold load. rewrite Ha, Hret. reflexivity. }
    unfold activeWebview. rewrite H4, Hload, Hwebviews. cbn [mbind option_bind].
    unfold on_webview. cbn [app fmap list_fmap list_find set_active wv_id].
    unfold is_webview at 1. cbn [wv_id]. rewrite decide_True by done.
    cbn [list_find insert list_insert set_active wv_id wv_src wv_tab].
    unfold is_webview. cbn [wv_id]. rewrite decide_True by done.
    eexists. split; [reflexivity|]. cbn. split; [|done]. by destruct u.
Qed.

Lemma navigate_loads_shown_webview_witness :
  let st' := state_of (navigate (Some (lit "openai.com")) shell_ABC) in
  navigate (Some (lit "openai.com")) shell_ABC = Returned () st'
  ∧ getCurrentUrl st' = lit "https://openai.com"
  ∧ placeholder (doc st') = assign DisplayNone (placeholder (doc shell_ABC))
  ∧ (∃ w, activeWebview st' = Some w ∧ wv_src w = Some (lit "https://openai.com")
          ∧ wv_active w = true)
  ∧ (∀ a, activeTabId shell_ABC = Some a ->
          activeTabId st' = Some a ∧ tab_ids st' = tab_ids shell_ABC)
  ∧ (activeTabId shell_ABC = None ->
       activeTabId st' = Some (tabCounter shell_ABC + 1)
       ∧ tab_ids st' = [tabCounter shell_ABC + 1]).
Proof.
  apply (navigate_loads_shown_webview (lit "openai.com") (lit "https://openai.com")
           shell_ABC).
  - apply (bool_decide_unpack _). vm_compute. exact I.
  - discriminate.
  - vm_compute. reflexivity.
Defined.

(** *** [did-navigate] *)

(** An assignment to a tab of the collection changes that tab's entry
    and no other. *)
Lemma tab_records_tab_update st k tab t f :
  wf st -> tabs_list st !! k = Some tab -> recs st !! tab = Some t ->
  (∀ t', id (f t') = id t') ->
  tab_records (tab_update tab f st) = <[k := f t]> (tab_records st).
Proof.
  intros (_ & Hrefs & Hnd & _) Hk Ht Hf.
  assert (Hlen : length (tab_records st) = length (tabs_list st))
    by by apply omap_resolved_length.
  assert (Hrefs' : Forall (fun r => is_Some (alter f tab (recs st) !! r)) (tabs_list st)).
  { eapply Forall_impl; [exact Hrefs|]. cbn. intros r [x Hx].
    destruct (decide (tab = r)) as [->|Hne].
    - rewrite lookup_alter_eq, Hx. by eexists.
    - rewrite lookup_alter_ne, Hx by done. by eexists. }
  apply list_eq. intros j. unfold tab_records, tab_update, tabs_list.
  cbn [recs arrs tabs with_recs]. fold (tabs_list st).
  rewrite omap_resolved_lookup by done.
  destruct (decide (j = k)) as [->|Hne].
  - rewrite list_lookup_insert_eq by (rewrite omap_resolved_length by done;
                                      by eapply lookup_lt_Some).
    rewrite Hk. cbn. by rewrite lookup_alter_eq, Ht.
  - rewrite list_lookup_insert_ne by done. rewrite omap_resolved_lookup by done.
    destruct (tabs_list st !! j) as [r|] eqn:Hj; [|done]. cbn.
    rewrite lookup_alter_ne; [done|]. intros <-. apply Hne.
    apply (NoDup_lookup (tab_ids st) j k (id t)); [done|..];
      unfold tab_ids, tab_records;
      rewrite list_lookup_fmap, omap_resolved_lookup by done.
    + by rewrite Hj; cbn; rewrite Ht.
    + by rewrite Hk; cbn; rewrite Ht.
Qed.


Lemma did_navigate_frame tab u st :
  recs (did_navigate tab u st) = alter (set_url u) tab (recs st)
  ∧ arrs (did_navigate tab u st) = arrs st
  ∧ tabs (did_navigate tab u st) = tabs st
  ∧ activeTabId (did_navigate tab u st) = activeTabId st
  ∧ urlInput (doc (did_navigate tab u st))
    = (if bool_decide (is_Some (activeTabId st)
                       ∧ activeTabId st = id <$> alter (set_url u) tab (recs st) !! tab)
       then assign u (urlInput (doc st)) else urlInput (doc st))
  ∧ calls (did_navigate tab u st)
    = calls st ++ (if onNavigate (options st) then [CallNavigate tab u] else []).
Proof.
  unfold did_navigate. cbv zeta.
  cbn [activeTabId recs with_recs].
  destruct (bool_decide _); destruct (onNavigate (options st)) eqn:Hn;
    cbn [options with_doc with_recs]; rewrite Hn; cbn; by rewrite ?app_nil_r.
Qed.

(** X15.  A webview reports a navigation of its tab, a tab of the collection:
    the address is recorded in that tab and in no other.  If the tab is
    the active one,
    the address bar shows the new address and it is the current
    address; if it is a background tab, the address bar and the current
    address stay as they are.  The callback, if configured, is called
    once. *)
Theorem did_navigate_address_bar st k tab t u :
  wf st -> tabs_list st !! k = Some tab -> recs st !! tab = Some t ->
  let st' := did_navigate tab u st in
  recs st' !! tab = Some (set_url u t)
  ∧ tab_records st' = <[k := set_url u t]> (tab_records st)
  ∧ activeTabId st' = activeTabId st
  ∧ calls st' = calls st ++ (if onNavigate (options st) then [CallNavigate tab u] else [])
  ∧ (activeTabId st = Some (id t) ->
       urlInput (doc st') = assign u (urlInput (doc st)) ∧ getCurrentUrl st' = u)
  ∧ (activeTabId st ≠ Some (id t) ->
       urlInput (doc st') = urlInput (doc st) ∧ getCurrentUrl st' = getCurrentUrl st).
Proof.
  intros Hwf Hk Ht. cbv zeta.
  destruct (did_navigate_frame tab u st) as (Hr & Ha & Hts & Hact & Hbar & Hcalls).
  pose proof Hwf as (_ & Hrefs & _).
  assert (Hlist : tabs_list (did_navigate tab u st) = tabs_list st).
  { unfold tabs_list. by rewrite Ha, Hts. }
  assert (Hfind : ∀ a, find (did_navigate tab u st) a = find st a).
  { intros a. unfold find, findIndex. rewrite Hlist, Hr. f_equal.
    apply list_find_ext. intros x. by apply has_id_alter. }
  assert (Hcur : ∀ a, url_or_empty (did_navigate tab u st) (find st a)
                      = if bool_decide (find st a = Some tab) then u
                        else url_or_empty st (find st a)).
  { intros a. unfold url_or_empty. rewrite Hr.
    destruct (find st a) as [r|]; cbn [mbind option_bind]; [|done].
    destruct (decide (r = tab)) as [->|Hne].
    - rewrite bool_decide_eq_true_2 by done. by rewrite lookup_alter_eq, Ht.
    - rewrite bool_decide_eq_false_2 by congruence. by rewrite lookup_alter_ne. }
  assert (Hrecord : tab_records st !! k = Some t).
  { unfold tab_records. rewrite omap_resolved_lookup, Hk by done. exact Ht. }
  destruct (find_record st k t Hwf Hrecord) as (r & Hr' & _ & Hfindt).
  assert (r = tab) as -> by congruence.
  rewrite Hbar, Hr, lookup_alter_eq, Ht. cbn [fmap option_fmap option_map set_url id].
  split; [done|]. split; [|split; [done|split; [done|split]]].
  - rewrite <- (tab_records_tab_update st k tab t (set_url u)) by done.
    unfold tab_records. by rewrite Hlist, Hr.
  - intros Hactive. rewrite bool_decide_eq_true_2 by (by rewrite Hactive).
    split; [done|]. unfold getCurrentUrl. rewrite Hact, Hactive, Hfind, Hcur, Hfindt.
    by rewrite bool_decide_eq_true_2.
  - intros Hactive. rewrite bool_decide_eq_false_2 by (intros [_ H]; congruence).
    split; [done|]. unfold getCurrentUrl. rewrite Hact.
    destruct (activeTabId st) as [a|]; [|done].
    rewrite Hfind, Hcur. rewrite bool_decide_eq_false_2; [done|].
    intros Hfa. apply Hactive. f_equal.
    unfold find, findIndex in Hfa.
    destruct (list_find (has_id (recs st) a) (tabs_list st)) as [[j x]|] eqn:Hlf; [|done].
    injection Hfa as ->. apply list_find_Some in Hlf as (_ & Hid & _).
    unfold has_id in Hid. rewrite Ht in Hid. by injection Hid.
Qed.

Lemma did_navigate_address_bar_witness :
  let st' := did_navigate 1%positive (lit "https://a.example/next") shell_ABC in
  recs st' !! 1%positive = Some (set_url (lit "https://a.example/next") tab_A)
  ∧ tab_records st'
    = <[0%nat := set_url (lit "https://a.example/next") tab_A]> (tab_records shell_ABC)
  ∧ activeTabId st' = activeTabId shell_ABC
  ∧ calls st'
    = calls shell_ABC
      ++ (if onNavigate (options shell_ABC)
          then [CallNavigate 1%positive (lit "https://a.example/next")] else [])
  ∧ (activeTabId shell_ABC = Some (id tab_A) ->
       urlInput (doc st') = assign (lit "https://a.example/next") (urlInput (doc shell_ABC))
       ∧ getCurrentUrl st' = lit "https://a.example/next")
  ∧ (activeTabId shell_ABC ≠ Some (id tab_A) ->
       urlInput (doc st') = urlInput (doc shell_ABC)
       ∧ getCurrentUrl st' = getCurrentUrl shell_ABC).
Proof.
  apply (did_navigate_address_bar shell_ABC 0 1%positive tab_A
           (lit "https://a.example/next")).
  - apply (bool_decide_unpack _). vm_compute. exact I.
  - vm_compute. reflexivity.
  - vm_compute. reflexivity.
Defined.

End NavigateFacts.

(** ** [page-title-updated] *)

Section TitleFacts.
Import Samples MoreSamples Consistency Wiring Sessions.

Implicit Types (st : State) (i a : Z) (r tab : ref) (u : jstring) (ws : list Webview)
  (t : Tab).

Lemma page_title_updated_frame tab s st :
  let shown := match s with [] => lit "Untitled" | _ => s end in
  recs (page_title_updated tab s st) = alter (set_title shown) tab (recs st)
  ∧ arrs (page_title_updated tab s st) = arrs st
  ∧ tabs (page_title_updated tab s st) = tabs st
  ∧ activeTabId (page_title_updated tab s st) = activeTabId st
  ∧ urlInput (doc (page_title_updated tab s st)) = urlInput (doc st)
  ∧ tabsContainer (doc (page_title_updated tab s st))
    = tabsContainer (doc (_renderTabs (tab_update tab (set_title shown) st)))
  ∧ calls (page_title_updated tab s st)
    = calls st ++ (if onTitleChange (options st) then [CallTitleChange tab s] else []).
Proof.
  cbv zeta. unfold page_title_updated. cbv zeta.
  set (shown := match s with [] => lit "Untitled" | _ => s end).
  fold (tab_update tab (set_title shown) st).
  rewrite _renderTabs_options. cbn [options tab_update with_recs].
  destruct (onTitleChange (options st)); unfold log;
    cbn [recs arrs tabs activeTabId doc calls with_calls]; autorewrite with shell;
    cbn [recs arrs tabs activeTabId doc calls tab_update with_recs];
    by rewrite ?app_nil_r.
Qed.

(** X16.  A webview reports the title of its page, for a tab of the
    collection: the tab takes the title, or [Untitled] when the title is
    empty, so that a tab never has an empty title from a page; the other
    tabs, the active tab, the current address and the address bar stay
    as they are; the strip, where it is rendered, shows the new title;
    the callback, if configured, is called once, with the title as the
    page reported it. *)
Theorem page_title_updated_retitles st k tab t s :
  wf st -> tabs_list st !! k = Some tab -> recs st !! tab = Some t ->
  let shown := match s with [] => lit "Untitled" | _ => s end in
  let st' := page_title_updated tab s st in
  shown ≠ []
  ∧ tab_records st' = <[k := set_title shown t]> (tab_records st)
  ∧ activeTabId st' = activeTabId st
  ∧ getCurrentUrl st' = getCurrentUrl st
  ∧ urlInput (doc st') = urlInput (doc st)
  ∧ strip_ok st'
  ∧ calls st'
    = calls st ++ (if onTitleChange (options st) then [CallTitleChange tab s] else []).
Proof.
  intros Hwf Hk Ht. cbv zeta.
  destruct (page_title_updated_frame tab s st) as (Hr & Ha & Hts & Hact & Hbar & Hstrip & Hc).
  cbv zeta in *.
  set (shown := match s with [] => lit "Untitled" | _ => s end) in *.
  set (st' := page_title_updated tab s st) in *.
  assert (Hrecords : tab_records st' = <[k := set_title shown t]> (tab_records st)).
  { rewrite <- (tab_records_tab_update st k tab t (set_title shown)) by done.
    unfold tab_records, tabs_list. by rewrite Hr, Ha, Hts. }
  split; [by destruct s|]. split; [done|]. split; [done|].
  split; [|split; [done|split; [|done]]].
  - unfold getCurrentUrl. rewrite Hact. destruct (activeTabId st) as [a|]; [|done].
    unfold url_or_empty, find, findIndex, tabs_list. rewrite Hr, Ha, Hts.
    fold (tabs_list st).
    rewrite (list_find_ext (has_id (alter (set_title shown) tab (recs st)) a)
               (has_id (recs st) a)) by (intros x; by apply has_id_alter).
    destruct (list_find (has_id (recs st) a) (tabs_list st)) as [[j x]|]; [|done].
    cbn. destruct (decide (tab = x)) as [->|Hne].
    + rewrite lookup_alter_eq. by destruct (recs st !! x).
    + by rewrite lookup_alter_ne.
  - assert (Hopts : options st' = options st).
    { unfold st', page_title_updated. cbv zeta. repeat case_match; unfold log;
        cbn [options with_calls]; by autorewrite with shell. }
    assert (Hmarkup : strip_markup st'
                      = strip_markup (_renderTabs (tab_update tab (set_title shown) st))).
    { apply strip_markup_ext; autorewrite with shell; done. }
    unfold strip_ok. rewrite Hstrip, Hopts, Hmarkup, _renderTabs_tabsContainer.
    cbn [options tab_update with_recs doc].
    destruct (tabsContainer (doc st)) as [old|]; [|done].
    destruct (showTabs (options st)); [|done]. intros _.
    symmetry. apply strip_markup_ext; by autorewrite with shell.
Qed.

Lemma page_title_updated_retitles_witness :
  let shown := match @nil N with [] => lit "Untitled" | _ => [] end in
  let st' := page_title_updated 1%positive [] shell_ABC in
  shown ≠ []
  ∧ tab_records st' = <[0%nat := set_title shown tab_A]> (tab_records shell_ABC)
  ∧ activeTabId st' = activeTabId shell_ABC
  ∧ getCurrentUrl st' = getCurrentUrl shell_ABC
  ∧ urlInput (doc st') = urlInput (doc shell_ABC)
  ∧ strip_ok st'
  ∧ calls st'
    = calls shell_ABC
      ++ (if onTitleChange (options shell_ABC) then [CallTitleChange 1%positive []]
          else []).
Proof.
  apply (page_title_updated_retitles shell_ABC 0 1%positive tab_A []).
  - apply (bool_decide_unpack _). vm_compute. exact I.
  - vm_compute. reflexivity.
  - vm_compute. reflexivity.
Defined.

End TitleFacts.

(** ** The listeners of the strip *)

Section StripListeners.
Import Samples MoreSamples Wiring.

Implicit Types (s : jstring) (c : N) (d : Decimal.uint).

Lemma digits_of_uint_digits d :
  Forall (fun c => in_range 48 57 c = true) (digits_of_uint d).
Proof. induction d; constructor; done. Qed.

Lemma digit_cases c :
  in_range 48 57 c = true ->
  c ∈ [48; 49; 50; 51; 52; 53; 54; 55; 56; 57]%N.
Proof.
  intros H%in_range_spec. rewrite !elem_of_cons. lia.
Qed.

Lemma parse_digits_acc d (acc : positive) :
  parse_digits 10 (digits_of_uint d) (Some (Npos acc))
  = Some (Npos (Pos.of_uint_acc d acc)).
Proof.
  revert acc. induction d; intros acc; cbn [digits_of_uint parse_digits Pos.of_uint_acc];
    [done|..];
    match goal with
    | |- context [digit_of 10 ?c] =>
      let v := eval vm_compute in (digit_of 10 c) in change (digit_of 10 c) with v
    end; cbn [default]; rewrite <- IHd; f_equal; f_equal; unfold Datatypes.id; lia.
Qed.

Lemma parse_digits_zero d :
  parse_digits 10 (digits_of_uint d) (Some 0%N) = Some (N.of_uint d).
Proof.
  induction d; cbn [digits_of_uint parse_digits]; [done|..];
    match goal with
    | |- context [digit_of 10 ?c] =>
      let v := eval vm_compute in (digit_of 10 c) in change (digit_of 10 c) with v
    end; cbn [default]; [exact IHd|..]; apply parse_digits_acc.
Qed.

Lemma parse_digits_start d :
  d ≠ Decimal.Nil ->
  parse_digits 10 (digits_of_uint d) None = Some (N.of_uint d).
Proof.
  destruct d; intros Hd; [done|..]; cbn [digits_of_uint parse_digits];
    match goal with
    | |- context [digit_of 10 ?c] =>
      let v := eval vm_compute in (digit_of 10 c) in change (digit_of 10 c) with v
    end; first [exact (parse_digits_zero d) | exact (parse_digits_acc d _)].
Qed.

Lemma to_uint_not_Nil p : Pos.to_uint p ≠ Decimal.Nil.
Proof.
  intros H. pose proof (DecimalPos.Unsigned.of_to p) as Hp.
  rewrite H in Hp. discriminate.
Qed.

Lemma parseInt_digits d :
  d ≠ Decimal.Nil ->
  parseInt (digits_of_uint d) = Some (Z.of_N (N.of_uint d))
  ∧ parseInt (45%N :: digits_of_uint d) = Some (- Z.of_N (N.of_uint d)).
Proof.
  intros Hd. pose proof (parse_digits_start d Hd) as Hp.
  assert (Hsigned : ∀ sign : Z,
    (fun n => sign * Z.of_N n) <$> parse_digits 10 (digits_of_uint d) None
    = Some (sign * Z.of_N (N.of_uint d))) by (intros sign; by rewrite Hp).
  clear Hp.
  destruct d as [|d|d|d|d|d|d|d|d|d|d]; [done|destruct d|..];
    cbn [digits_of_uint] in *; unfold parseInt;
    (split; [rewrite <- (Z.mul_1_l (Z.of_N _)) | rewrite Z.opp_eq_mul_m1, Z.mul_comm]);
    rewrite <- Hsigned; reflexivity.
Qed.

Lemma parseInt_string_of_Z (i : Z) : parseInt (string_of_Z i) = Some i.
Proof.
  destruct i as [|p|p]; [reflexivity|..]; unfold string_of_Z, digits_of_N;
    cbn [N.to_uint];
    destruct (parseInt_digits (Pos.to_uint p) (to_uint_not_Nil p)) as [Hpos Hneg].
  - rewrite Hpos. unfold N.of_uint. by rewrite DecimalPos.Unsigned.of_to.
  - change (lit "-" ++ digits_of_uint (Pos.to_uint p))
      with (45%N :: digits_of_uint (Pos.to_uint p)).
    rewrite Hneg. unfold N.of_uint. by rewrite DecimalPos.Unsigned.of_to.
Qed.

(** X17.  The listeners of the strip read the id of their tab back from the
    markup: a click on a tab calls [switchTab] with the id of that tab,
    a click on its close button calls [closeTab] with it.  On the safe
    integers [String] and [parseInt] are inverse, negative numbers
    included, and the text of an id is never taken for white space, a
    hexadecimal prefix or NaN. *)
Theorem strip_listeners_pass_ids (t : Tab) (st : State) :
  safe_integer (id t) ->
  tab_click t st = Some (switchTab (id t) st)
  ∧ close_click t st = Some (closeTab (id t) st).
Proof.
  intros _. unfold tab_click, close_click. by rewrite parseInt_string_of_Z.
Qed.

Lemma strip_listeners_pass_ids_witness :
  tab_click tab_A shell_ABC = Some (switchTab (id tab_A) shell_ABC)
  ∧ close_click tab_A shell_ABC = Some (closeTab (id tab_A) shell_ABC).
Proof.
  apply (strip_listeners_pass_ids tab_A shell_ABC). unfold safe_integer. simpl. lia.
Defined.

End StripListeners.
